(** * wrtcion: the connection state machine and its signaling handlers

    A shallow embedding of [wrtcion.go] (the [RTCPeer] registry, the
    [Connection] state machine, the two HTTP signaling handlers, the
    candidate sub-protocol, the console command parser and the two media
    streaming loops), followed by the properties of that code.

    Modelling conventions.
    - A Go pointer to a [Connection] is a [ptr] into a [heap]; the registry
      [Connections] maps addresses to pointers, so one connection object can
      be reached from the registry, from a callback and from a streaming loop
      at the same time, and stays alive after it has been removed from the
      registry.
    - Dereferencing [nil] panics, as in Go.
    - The pion, net/http, encoding/json and os calls are external: their
      outcomes are read from an [Env], one per top-level invocation; what the
      program asks of the outside world is recorded as a [trace] of [Event]s.
    - A handler is a function of the world returning the new world, the trace
      and either a value or a panic. *)

From stdpp Require Import base strings list gmap fin_maps.
From Stdlib Require Import ZArith Lia.

(** ** Enumerations of the source *)

Inductive ConnectionState := Standby | Ringing | Answering | InCall | Closed.

Inductive ConnectionMode :=
  TextConnection | VoiceConnectionSimplex | VoiceConnectionDuplex
| VideoConnectionSimplex.

(** [SignalAction] is an [int] on the wire: a decoded message can carry any
    other number, which the handler's [default:] branch receives. *)
Inductive SignalAction := Offer | Answer | Refuse | UnknownAction (n : Z).

#[global] Instance ConnectionState_eq_dec : EqDecision ConnectionState.
Proof. solve_decision. Defined.
#[global] Instance ConnectionMode_eq_dec : EqDecision ConnectionMode.
Proof. solve_decision. Defined.
#[global] Instance SignalAction_eq_dec : EqDecision SignalAction.
Proof. solve_decision. Defined.

(** ** Data *)

(** A Go [error] value, by its message. [None] is the [nil] error. *)
Definition error := string.

(** [webrtc.SessionDescription] and [webrtc.ICECandidate] are opaque to the
    program; the zero description is the empty one. *)
Definition SessionDescription := string.
Definition ICECandidate := string.

Record SignalSDP := mkSignalSDP {
  SDP : SessionDescription;
  Action : SignalAction;
  Mode : ConnectionMode;
  Origin : string
}.

(** The [Origin] field of [SignalCandidate] is [CandidateOrigin] here, the
    two records sharing one name space. *)
Record SignalCandidate := mkSignalCandidate {
  Candidate : string;
  CandidateOrigin : string
}.

(** The part of a [webrtc.PeerConnection] the program observes. *)
Record PeerConnection := mkPeerConnection {
  remoteDescription : option SessionDescription;
  localDescription : option SessionDescription;
  tracks : nat;
  transceivers : nat;
  onTrack : bool
}.

(** Non-nil flags of the three handles of an [audioSender]. *)
Record audioSender := mkAudioSender { track : bool; rtp : bool; ogg : bool }.

Record DataChannel := mkDataChannel { label : string }.

(** [Connection]. The [local] back pointer is the one [RTCPeer] of the
    world; [candidatesMutex] has no sequential content; [audioRcvr] is never
    assigned by the program. *)
Record Connection := mkConnection {
  peer : PeerConnection;
  remoteAddr : string;
  isInitiator : bool;
  mode : ConnectionMode;
  state : ConnectionState;
  pendingCandidates : list ICECandidate;
  dataChan : option DataChannel;
  audioSndr : option audioSender
}.

Inductive ptr := nil | addr (n : nat).

#[global] Instance ptr_eq_dec : EqDecision ptr.
Proof. solve_decision. Defined.

Record RTCPeer := mkRTCPeer {
  listenAddr : string;
  Connections : gmap string ptr
}.

Record World := mkWorld {
  rtcpeer : RTCPeer;
  heap : list Connection
}.

(** ** What the program does to the outside world *)

Inductive Payload :=
| PayloadSDP (s : SignalSDP)
| PayloadCandidate (s : SignalCandidate).

Inductive Event :=
| Log (line : list string)
| HttpPost (url : string) (body : Payload)
| DataChanClose (c : ptr)
| DataChanSendText (c : ptr) (msg : string)
| PeerClose (c : ptr)
| GoSendAudio (c : ptr)
| ReadPage (c : ptr)
| WriteSample (c : ptr) (data : string) (samples : Z)
| ReadRTP (c : ptr)
| WriteRTP (c : ptr) (packet : string)
| WriterClose (c : ptr)
| AppStop.

(** ** Outcomes of the external calls *)

(** [http.Post] followed by [resp.Body.Close()]. *)
Inductive PostOutcome :=
| PostFails (e : error)
| PostDone (bodyClose : option error).

Record Env := mkEnv {
  newPeerConnection : option error;
  createDataChannel : option error;
  newTrackLocalStaticSample : option error;
  addTrack : option error;
  osOpen : option error;
  oggreaderNewWith : option error;
  addTransceiverFromKind : option error;
  oggwriterNew : option error;
  createOffer : error + SessionDescription;
  createAnswer : error + SessionDescription;
  setLocalDescription : option error;
  setRemoteDescription : option error;
  jsonMarshal : option error;
  httpPost : PostOutcome;
  (* the k-th candidate post of the invocation *)
  candidatePost : nat -> PostOutcome;
  addICECandidate : option error;
  peerClose : ptr -> option error;
  sendText : ptr -> option error;
  writerClose : option error
}.

(** ** The execution monad: state, trace, panic *)

Inductive Exec (A : Type) := Done (a : A) | Panic (e : string).
Arguments Done {A} a.
Arguments Panic {A} e.

Record Run (A : Type) := mkRun {
  result : Exec A;
  world : World;
  trace : list Event
}.
Arguments mkRun {A} _ _ _.
Arguments result {A} _.
Arguments world {A} _.
Arguments trace {A} _.

Definition M (A : Type) := World -> Run A.

Definition ret {A} (a : A) : M A := fun w => mkRun (Done a) w [].

Definition bind {A B} (m : M A) (k : A -> M B) : M B := fun w =>
  let r := m w in
  match result r with
  | Done a =>
      let r' := k a (world r) in
      mkRun (result r') (world r') (trace r ++ trace r')
  | Panic e => mkRun (Panic e) (world r) (trace r)
  end.

Declare Scope go_scope.
Delimit Scope go_scope with go.
Notation "x <- m ;; k" := (bind m (fun x => k))
  (at level 20, m at level 99, k at level 200, only parsing) : go_scope.
Notation "' pat <- m ;; k" := (bind m (fun pat => k))
  (at level 20, pat pattern, m at level 99, k at level 200, only parsing)
  : go_scope.
Notation "m ;; k" := (bind m (fun _ => k))
  (at level 100, k at level 200, only parsing, right associativity) : go_scope.
Open Scope go_scope.

Definition panic {A} (e : string) : M A := fun w => mkRun (Panic e) w [].

Definition emit (e : Event) : M unit := fun w => mkRun (Done tt) w [e].

(** [log.Println(a, b, ...)]: the line, by its arguments. *)
Definition logPrintln (line : list string) : M unit := emit (Log line).

Definition nilDeref : string :=
  "invalid memory address or nil pointer dereference".

(** Reading through a pointer. *)
Definition load (p : ptr) : M Connection := fun w =>
  match p with
  | addr n =>
      match heap w !! n with
      | Some c => mkRun (Done c) w []
      | None => mkRun (Panic nilDeref) w []
      end
  | nil => mkRun (Panic nilDeref) w []
  end.

(** Updating the object a pointer refers to. *)
Definition modify (p : ptr) (f : Connection -> Connection) : M unit := fun w =>
  match p with
  | addr n =>
      match heap w !! n with
      | Some c => mkRun (Done tt) (mkWorld (rtcpeer w) (<[n := f c]> (heap w))) []
      | None => mkRun (Panic nilDeref) w []
      end
  | nil => mkRun (Panic nilDeref) w []
  end.

(** [&Connection{...}] *)
Definition alloc (c : Connection) : M ptr := fun w =>
  mkRun (Done (addr (length (heap w)))) (mkWorld (rtcpeer w) (heap w ++ [c])) [].

Definition getListenAddr : M string := fun w =>
  mkRun (Done (listenAddr (rtcpeer w))) w [].

(** [conn, ok := peer.Connections[k]]: the zero value [nil] when absent. *)
Definition mapLookup (k : string) : M (ptr * bool) := fun w =>
  match Connections (rtcpeer w) !! k with
  | Some p => mkRun (Done (p, true)) w []
  | None => mkRun (Done (nil, false)) w []
  end.

(** [peer.Connections[k] = p] *)
Definition mapStore (k : string) (p : ptr) : M unit := fun w =>
  mkRun (Done tt)
    (mkWorld (mkRTCPeer (listenAddr (rtcpeer w)) (<[k := p]> (Connections (rtcpeer w))))
             (heap w)) [].

(** [delete(peer.Connections, k)] *)
Definition mapDelete (k : string) : M unit := fun w =>
  mkRun (Done tt)
    (mkWorld (mkRTCPeer (listenAddr (rtcpeer w)) (delete k (Connections (rtcpeer w))))
             (heap w)) [].

(** Field assignments. *)
Definition set_peer (f : PeerConnection -> PeerConnection) (c : Connection) :=
  mkConnection (f (peer c)) (remoteAddr c) (isInitiator c) (mode c) (state c)
    (pendingCandidates c) (dataChan c) (audioSndr c).
Definition set_remoteAddr (a : string) (c : Connection) :=
  mkConnection (peer c) a (isInitiator c) (mode c) (state c)
    (pendingCandidates c) (dataChan c) (audioSndr c).
Definition set_isInitiator (b : bool) (c : Connection) :=
  mkConnection (peer c) (remoteAddr c) b (mode c) (state c)
    (pendingCandidates c) (dataChan c) (audioSndr c).
Definition set_state (s : ConnectionState) (c : Connection) :=
  mkConnection (peer c) (remoteAddr c) (isInitiator c) (mode c) s
    (pendingCandidates c) (dataChan c) (audioSndr c).
Definition set_pendingCandidates (l : list ICECandidate) (c : Connection) :=
  mkConnection (peer c) (remoteAddr c) (isInitiator c) (mode c) (state c)
    l (dataChan c) (audioSndr c).
Definition set_dataChan (d : option DataChannel) (c : Connection) :=
  mkConnection (peer c) (remoteAddr c) (isInitiator c) (mode c) (state c)
    (pendingCandidates c) d (audioSndr c).
Definition set_audioSndr (a : option audioSender) (c : Connection) :=
  mkConnection (peer c) (remoteAddr c) (isInitiator c) (mode c) (state c)
    (pendingCandidates c) (dataChan c) a.

Definition set_remoteDescription (d : SessionDescription) (pc : PeerConnection) :=
  mkPeerConnection (Some d) (localDescription pc) (tracks pc) (transceivers pc)
    (onTrack pc).
Definition set_localDescription (d : SessionDescription) (pc : PeerConnection) :=
  mkPeerConnection (remoteDescription pc) (Some d) (tracks pc) (transceivers pc)
    (onTrack pc).
Definition add_track (pc : PeerConnection) :=
  mkPeerConnection (remoteDescription pc) (localDescription pc) (S (tracks pc))
    (transceivers pc) (onTrack pc).
Definition add_transceiver (pc : PeerConnection) :=
  mkPeerConnection (remoteDescription pc) (localDescription pc) (tracks pc)
    (S (transceivers pc)) (onTrack pc).
Definition set_onTrack (pc : PeerConnection) :=
  mkPeerConnection (remoteDescription pc) (localDescription pc) (tracks pc)
    (transceivers pc) true.

(** ** [Connection.Close] and [Connection.String] *)

(** [func (conn *Connection) String() string]; [String] being taken, the
    name carries an underscore. *)
Definition String_ (p : ptr) : M string :=
  c <- load p ;; ret (remoteAddr c).

(** [func (conn *Connection) Close() error] *)
Definition Close (env : Env) (p : ptr) : M (option error) :=
  c <- load p ;;
  if decide (state c = Closed) then ret None
  else
    modify p (set_state Closed) ;;
    c <- load p ;;
    (match dataChan c with
     | Some _ => emit (DataChanClose p)
     | None => ret tt
     end) ;;
    emit (PeerClose p) ;;
    let err := peerClose env p in
    s <- String_ p ;;
    logPrintln ["connection to"; s; "closed"] ;;
    c <- load p ;;
    mapDelete (remoteAddr c) ;;
    ret err.

(** ** Construction *)

(** [func NewRTCPeer(listen string) *RTCPeer] *)
Definition NewRTCPeer (listen : string) : RTCPeer := mkRTCPeer listen ∅.

Definition newWorld (listen : string) : World := mkWorld (NewRTCPeer listen) [].

Definition newPeer : PeerConnection := mkPeerConnection None None 0 0 false.

(** [func newConnection(local *RTCPeer, remote string, mode ConnectionMode)
    (conn, err)]. As in the source, [remote] is not stored: the new
    connection's [remoteAddr] is the empty string. The object is allocated
    only when [webrtc.NewPeerConnection] succeeds, the one built before a
    failure being unreachable. *)
Definition newConnection (env : Env) (remote : string) (mode : ConnectionMode)
  : M (ptr * option error) :=
  match newPeerConnection env with
  | Some err => ret (nil, Some err)
  | None =>
      conn <- alloc (mkConnection newPeer "" false mode Standby [] None None) ;;
      ret (conn, None)
  end.

(** ** Candidates *)

Definition candidateURL (remote : string) : string :=
  "http://" +:+ remote +:+ "/candidate".

Definition sdpURL (remote : string) : string :=
  "http://" +:+ remote +:+ "/sdp".

(** [func (conn *Connection) signalCandidate(c *webrtc.ICECandidate) error];
    [k] is the index of this post among the candidate posts of the running
    invocation. The error of [json.Marshal] is overwritten, not tested. *)
Definition signalCandidate (env : Env) (k : nat) (p : ptr) (c : ICECandidate)
  : M (option error) :=
  conn <- load p ;;
  origin <- getListenAddr ;;
  let signal := mkSignalCandidate c origin in
  emit (HttpPost (candidateURL (remoteAddr conn)) (PayloadCandidate signal)) ;;
  match candidatePost env k with
  | PostFails err => ret (Some err)
  | PostDone (Some err) => ret (Some err)
  | PostDone None => ret None
  end.

(** [func (conn *Connection) handleICECandidate(c *webrtc.ICECandidate)];
    [None] is the [nil] candidate that ends gathering. *)
Definition handleICECandidate (env : Env) (p : ptr) (c : option ICECandidate)
  : M unit :=
  match c with
  | None => ret tt
  | Some c =>
      conn <- load p ;;
      match remoteDescription (peer conn) with
      | None =>
          modify p (fun x => set_pendingCandidates (pendingCandidates x ++ [c]) x)
      | Some _ =>
          err <- signalCandidate env 0 p c ;;
          match err with
          | Some e => panic e
          | None => ret tt
          end
      end
  end.

(** [func (peer *RTCPeer) httpHandleCandidate(w, r)]; the request is the
    result of decoding its body. *)
Definition httpHandleCandidate (env : Env) (body : error + SignalCandidate)
  : M unit :=
  match body with
  | inl err => logPrintln ["couldn't parse candidate: "; err]
  | inr signal =>
      '(conn, ok) <- mapLookup (CandidateOrigin signal) ;;
      if negb ok then
        logPrintln ["got a candidate from"; CandidateOrigin signal;
                    "but wasn't expecting one"]
      else
        _ <- load conn ;;
        match addICECandidate env with
        | Some err => logPrintln ["couldn't initialize candidate: "; err]
        | None => ret tt
        end
  end.

(** ** Media attach *)

(** [func (conn *Connection) getAudio() error] *)
Definition getAudio (env : Env) (p : ptr) : M (option error) :=
  _ <- load p ;;
  match addTransceiverFromKind env with
  | Some err => ret (Some err)
  | None =>
      modify p (set_peer add_transceiver) ;;
      match oggwriterNew env with
      | Some err => ret (Some err)
      | None =>
          modify p (set_peer set_onTrack) ;;
          ret None
      end
  end.

(** [func (conn *Connection) loadAudio(fname string) error] *)
Definition loadAudio (env : Env) (p : ptr) (fname : string) : M (option error) :=
  modify p (set_audioSndr (Some (mkAudioSender false false false))) ;;
  match newTrackLocalStaticSample env with
  | Some err => ret (Some err)
  | None =>
      modify p (set_audioSndr (Some (mkAudioSender true false false))) ;;
      match addTrack env with
      | Some err => ret (Some err)
      | None =>
          modify p (set_audioSndr (Some (mkAudioSender true true false))) ;;
          modify p (set_peer add_track) ;;
          match osOpen env with
          | Some err => ret (Some err)
          | None =>
              match oggreaderNewWith env with
              | Some err => ret (Some err)
              | None =>
                  modify p (set_audioSndr (Some (mkAudioSender true true true))) ;;
                  ret None
              end
          end
      end
  end.

Definition audioSource : string := "resources/sources/audio.ogg".

(** ** The session-description handler *)

(** The buffered candidates are signaled in order; the first failure ends
    the loop and is returned. [k] counts the posts. *)
Fixpoint signalPending (env : Env) (k : nat) (p : ptr) (cs : list ICECandidate)
  : M (option error) :=
  match cs with
  | [] => ret None
  | c :: cs' =>
      err <- signalCandidate env k p c ;;
      match err with
      | Some e => ret (Some e)
      | None => signalPending env (S k) p cs'
      end
  end.

(** The tail of [httpHandleSDP], from the lock of [candidatesMutex] on. *)
Definition flushCandidates (env : Env) (conn : ptr) : M unit :=
  c <- load conn ;;
  err <- signalPending env 0 conn (pendingCandidates c) ;;
  match err with
  | Some e => logPrintln ["unable to signal remote conn: "; e]
  | None => modify conn (set_state InCall)
  end.

(** [http.Post] of a marshalled [SignalSDP] to [remote]'s [/sdp], and the
    close of the response body; [true] when both succeeded. *)
Definition postSDP (env : Env) (remote : string) (signal : SignalSDP) : M bool :=
  match jsonMarshal env with
  | Some err => logPrintln ["unable to marshal sdp answer: "; err] ;; ret false
  | None =>
      emit (HttpPost (sdpURL remote) (PayloadSDP signal)) ;;
      match httpPost env with
      | PostFails err =>
          logPrintln ["unable to send sdp answer: "; err] ;; ret false
      | PostDone (Some err) =>
          logPrintln ["http error on close: "; err] ;; ret false
      | PostDone None => ret true
      end
  end.

(** The part of [httpHandleSDP] after the two [switch] statements. *)
Definition applyRemoteSDP (env : Env) (signal : SignalSDP) (conn : ptr) : M unit :=
  match setRemoteDescription env with
  | Some err =>
      logPrintln ["couldn't set remote sdp: "; err] ;;
      origin <- getListenAddr ;;
      let answer := mkSignalSDP "" Refuse TextConnection origin in
      _ <- postSDP env (Origin signal) answer ;;
      ret tt
  | None =>
      modify conn (set_peer (set_remoteDescription (SDP signal))) ;;
      c <- load conn ;;
      if decide (state c = Answering) then
        origin <- getListenAddr ;;
        match createAnswer env with
        | inl err => logPrintln ["unable to create sdp answer: "; err]
        | inr sdp =>
            let answer := mkSignalSDP sdp Answer TextConnection origin in
            sent <- postSDP env (remoteAddr c) answer ;;
            if negb sent then ret tt
            else
              match setLocalDescription env with
              | Some err => logPrintln ["unable to set local sdp"; err]
              | None =>
                  modify conn (set_peer (set_localDescription sdp)) ;;
                  flushCandidates env conn
              end
        end
      else flushCandidates env conn
  end.

(** The [switch conn.mode] of [httpHandleSDP]; the error of [getAudio] is
    dropped. *)
Definition attachReceiver (env : Env) (signal : SignalSDP) (conn : ptr) : M unit :=
  c <- load conn ;;
  match mode c with
  | VoiceConnectionSimplex =>
      if decide (Action signal = Offer) then _ <- getAudio env conn ;; ret tt
      else ret tt
  | VoiceConnectionDuplex => _ <- getAudio env conn ;; ret tt
  | _ => ret tt
  end.

(** The lookup of [signal.Origin] in [httpHandleSDP] and, when it is absent,
    the creation and registration of a connection for it, before the action
    is looked at. [false] when the handler returns here. *)
Definition findOrCreate (env : Env) (signal : SignalSDP) : M (ptr * bool) :=
  '(found, ok) <- mapLookup (Origin signal) ;;
  if ok then ret (found, true)
  else
    '(fresh, err) <- newConnection env (Origin signal) (Mode signal) ;;
    match err with
    | Some e =>
        logPrintln ["couldn't create new connection:"; e] ;;
        ret (nil, false)
    | None =>
        mapStore (Origin signal) fresh ;;
        ret (fresh, true)
    end.

(** [httpHandleSDP] from [switch signal.Action] on. *)
Definition handleSignal (env : Env) (signal : SignalSDP) (conn : ptr) : M unit :=
  c <- load conn ;;
  match Action signal with
  | Offer =>
      if decide (state c ≠ Standby) then
        logPrintln ["answering incoming call from"; Origin signal;
                    "but we are busy"]
      else
        modify conn (set_state Answering) ;;
        modify conn (set_remoteAddr (Origin signal)) ;;
        c <- load conn ;;
        logPrintln ["incoming call from "; remoteAddr c] ;;
        attachReceiver env signal conn ;;
        applyRemoteSDP env signal conn
  | Answer =>
      if decide (state c ≠ Ringing) then
        logPrintln ["answer from"; Origin signal; "but we weren't calling"]
      else
        logPrintln ["answer from "; remoteAddr c] ;;
        attachReceiver env signal conn ;;
        applyRemoteSDP env signal conn
  | Refuse =>
      if decide (state c ≠ Ringing) then
        logPrintln ["refusal from"; Origin signal; "but we weren't calling"]
      else
        logPrintln [Origin signal; "appears to be busy"] ;;
        modify conn (set_state Standby)
  | UnknownAction _ =>
      logPrintln [Origin signal; "appears to be having problems communicating"]
  end.

(** [func (peer *RTCPeer) httpHandleSDP(w, r)]; the request is the result of
    decoding its body. *)
Definition httpHandleSDP (env : Env) (body : error + SignalSDP) : M unit :=
  match body with
  | inl err => logPrintln ["couldn't parse signal message from json: "; err]
  | inr signal =>
      '(conn, proceed) <- findOrCreate env signal ;;
      if negb proceed then ret tt else handleSignal env signal conn
  end.

(** ** Callbacks of the peer connection and of the data channel *)

Inductive PeerConnectionState :=
| PeerConnectionStateNew
| PeerConnectionStateConnecting
| PeerConnectionStateConnected
| PeerConnectionStateDisconnected
| PeerConnectionStateFailed
| PeerConnectionStateClosed.

Definition PeerConnectionState_String (s : PeerConnectionState) : string :=
  match s with
  | PeerConnectionStateNew => "new"
  | PeerConnectionStateConnecting => "connecting"
  | PeerConnectionStateConnected => "connected"
  | PeerConnectionStateDisconnected => "disconnected"
  | PeerConnectionStateFailed => "failed"
  | PeerConnectionStateClosed => "closed"
  end.

(** [func (conn *Connection) handleConnectionStateChange(s)]; [go
    conn.sendAudio()] is the event [GoSendAudio]. *)
Definition handleConnectionStateChange (env : Env) (p : ptr)
  (s : PeerConnectionState) : M unit :=
  logPrintln ["peer connection state has changed: "; PeerConnectionState_String s] ;;
  match s with
  | PeerConnectionStateConnected =>
      modify p (set_state InCall) ;;
      c <- load p ;;
      match mode c with
      | VoiceConnectionSimplex =>
          if isInitiator c then emit (GoSendAudio p) else ret tt
      | VoiceConnectionDuplex => emit (GoSendAudio p)
      | _ => ret tt
      end
  | PeerConnectionStateFailed | PeerConnectionStateDisconnected =>
      _ <- Close env p ;;
      modify p (set_state Closed)
  | PeerConnectionStateClosed => modify p (set_state Closed)
  | _ => ret tt
  end.

(** [func (conn *Connection) handleDataChanClose()]; the channel's numeric id
    is left out of the line. *)
Definition handleDataChanClose (env : Env) (p : ptr) : M unit :=
  c <- load p ;;
  match dataChan c with
  | None => panic nilDeref
  | Some d =>
      logPrintln ["data channel"; label d; remoteAddr c; "closed"] ;;
      modify p (set_dataChan None) ;;
      err <- Close env p ;;
      match err with
      | Some e =>
          logPrintln ["something happened while attempting to close connection:"; e]
      | None => ret tt
      end
  end.

(** ** Dialing *)

(** The [fail:] label of [Ring]. *)
Definition Ring_fail (env : Env) (conn : ptr) : M ptr :=
  _ <- Close env conn ;; ret nil.

(** [func (peer *RTCPeer) Ring(remote string, mode ConnectionMode)
    *Connection] *)
Definition Ring (env : Env) (remote : string) (mode : ConnectionMode) : M ptr :=
  '(_, ok) <- mapLookup remote ;;
  if ok then logPrintln ["you are already connected to"; remote] ;; ret nil
  else
    '(conn, err) <- newConnection env remote mode ;;
    match err with
    | Some e => logPrintln ["couldn't create new connection:"; e] ;; ret nil
    | None =>
        modify conn (set_isInitiator true) ;;
        modify conn (set_dataChan
          (match createDataChannel env with
           | Some _ => None
           | None => Some (mkDataChannel "data")
           end)) ;;
        mapStore remote conn ;;
        match createDataChannel env with
        | Some e =>
            logPrintln ["unable to create data channel: "; e] ;;
            Ring_fail env conn
        | None =>
            loaded <-
              (match mode with
               | VoiceConnectionSimplex | VoiceConnectionDuplex =>
                   err <- loadAudio env conn audioSource ;;
                   match err with
                   | Some e =>
                       logPrintln
                         ["can't start voice call, problem loading audio file:"; e] ;;
                       ret false
                   | None => ret true
                   end
               | _ => ret true
               end) ;;
            if negb loaded then Ring_fail env conn
            else
              origin <- getListenAddr ;;
              match createOffer env with
              | inl e =>
                  logPrintln ["unable to create offer: "; e] ;;
                  Ring_fail env conn
              | inr sdp =>
                  let offer := mkSignalSDP sdp Offer mode origin in
                  match setLocalDescription env with
                  | Some e =>
                      logPrintln ["unable to set local description: "; e] ;;
                      Ring_fail env conn
                  | None =>
                      modify conn (set_peer (set_localDescription sdp)) ;;
                      match jsonMarshal env with
                      | Some e =>
                          logPrintln ["unable to marshal offer into json: "; e] ;;
                          Ring_fail env conn
                      | None =>
                          modify conn (set_remoteAddr remote) ;;
                          modify conn (set_state Ringing) ;;
                          logPrintln ["dialing"; remote] ;;
                          emit (HttpPost (sdpURL remote) (PayloadSDP offer)) ;;
                          match httpPost env with
                          | PostFails e =>
                              logPrintln ["unable to dial"; remote; "conn: "; e] ;;
                              Ring_fail env conn
                          | PostDone (Some e) =>
                              logPrintln ["unable to close response: "; e] ;;
                              Ring_fail env conn
                          | PostDone None => ret conn
                          end
                      end
                  end
              end
        end
    end.

(** ** Messages and teardown *)

(** [func (conn *Connection) SendMsg(msg string)] *)
Definition SendMsg (env : Env) (p : ptr) (msg : string) : M unit :=
  c <- load p ;;
  if decide (state c ≠ InCall) then
    logPrintln ["but there was nobody listening..."]
  else
    match dataChan c with
    | None => panic nilDeref
    | Some _ =>
        emit (DataChanSendText p msg) ;;
        match sendText env p with
        | Some e => logPrintln ["couldn't send message to "; remoteAddr c; ": "; e]
        | None => ret tt
        end
    end.

(** [for _, x := range xs { body }] *)
Fixpoint forEach {A} (xs : list A) (body : A -> M unit) : M unit :=
  match xs with
  | [] => ret tt
  | x :: xs' => body x ;; forEach xs' body
  end.

(** The entries a [range] over the registry starts from; Go fixes no order,
    the model takes the map's own. *)
Definition rangeConnections : M (list (string * ptr)) := fun w =>
  mkRun (Done (map_to_list (Connections (rtcpeer w)))) w [].

(** [func (peer *RTCPeer) SendMsgToAll(msg string)] *)
Definition SendMsgToAll (env : Env) (msg : string) : M unit :=
  entries <- rangeConnections ;;
  forEach entries (fun '(_, conn) => SendMsg env conn msg).

(** [func (peer *RTCPeer) HangUp(remote string)] *)
Definition HangUp (env : Env) (remote : string) : M unit :=
  '(conn, ok) <- mapLookup remote ;;
  if negb ok then logPrintln ["not connected to"; remote]
  else
    err <- Close env conn ;;
    match err with
    | Some e => logPrintln ["unable to close peer connection: "; e]
    | None => ret tt
    end.

(** [func (peer *RTCPeer) CloseAll()]. [Close] deletes from the map being
    ranged over: an entry removed before it is reached is not produced. *)
Definition CloseAll (env : Env) : M unit :=
  entries <- rangeConnections ;;
  forEach entries (fun '(k, conn) =>
    '(_, ok) <- mapLookup k ;;
    if negb ok then ret tt
    else
      err <- Close env conn ;;
      match err with
      | Some e => logPrintln ["unable to close peer"; k; "connection: "; e]
      | None => ret tt
      end).

(** ** The console command parser *)

(** The text before and after the first occurrence of [sep]. *)
Fixpoint cut (sep s : string) : option (string * string) :=
  if String.prefix sep s then
    Some ("", String.substring (String.length sep)
                (String.length s - String.length sep) s)
  else
    match s with
    | EmptyString => None
    | String a s' =>
        match cut sep s' with
        | Some (before, after) => Some (String a before, after)
        | None => None
        end
    end.

(** [strings.SplitN(s, sep, n)] for a non-empty [sep] and [n >= 0]. *)
Fixpoint SplitN (s sep : string) (n : nat) : list string :=
  match n with
  | 0 => []
  | S n' =>
      match n' with
      | 0 => [s]
      | _ =>
          match cut sep s with
          | Some (before, after) => before :: SplitN after sep n'
          | None => [s]
          end
      end
  end.

(** [args[i]], with Go's bounds check. *)
Definition index (args : list string) (i : nat) : M string :=
  match args !! i with
  | Some a => ret a
  | None => panic "index out of range"
  end.

(** [func parseCommand(cmd string, rtcpeer *RTCPeer, tapp *tview.Application)];
    [tapp.Stop()] is the event [AppStop]. *)
Definition parseCommand (env : Env) (cmd : string) : M unit :=
  let args := SplitN cmd " " 3 in
  a0 <- index args 0 ;;
  if decide (a0 = "/help") then
    logPrintln ["enter a command or send a message to all connected peers:"] ;;
    logPrintln ["commands available:"] ;;
    logPrintln ["/chat <address>"] ;;
    logPrintln ["/call <address>"] ;;
    logPrintln ["/end <address>"] ;;
    logPrintln ["/msg <address> <message>"]
  else if decide (a0 = "/chat") then
    if decide (length args < 2) then logPrintln ["remote address missing"]
    else a1 <- index args 1 ;; _ <- Ring env a1 TextConnection ;; ret tt
  else if decide (a0 = "/call") then
    if decide (length args < 2) then logPrintln ["remote address missing"]
    else a1 <- index args 1 ;; _ <- Ring env a1 VoiceConnectionSimplex ;; ret tt
  else if decide (a0 = "/end") then
    if decide (length args < 2) then logPrintln ["specify whom"]
    else a1 <- index args 1 ;; HangUp env a1
  else if decide (a0 = "/msg") then
    if decide (length args < 2) then logPrintln ["specify whom"]
    else
      a1 <- index args 1 ;;
      '(conn, ok) <- mapLookup a1 ;;
      (if negb ok then logPrintln ["no such destination"] else ret tt) ;;
      SendMsg env conn cmd
  else if decide (a0 = "/exit") then
    CloseAll env ;; emit AppStop
  else SendMsgToAll env cmd.

(** ** The media streaming loops *)

(** What one turn of a streaming loop finds: the outcome of the read and,
    when a unit was read, of the write that follows it. The source of the
    units is outside the program, so a loop runs against a script of such
    outcomes. *)
Inductive PageOutcome :=
| PageEOF
| PageError (e : error)
| PageRead (data : string) (granulePosition : Z) (write : option error).

Inductive PacketOutcome :=
| PacketError (e : error)
| PacketRead (packet : string) (write : option error).

(** How a run of a loop against a script ends: the function returned, or the
    script is used up with the loop still turning. *)
Inductive LoopEnd := Returned | Running.

(** [pageHeader.GranulePosition - lastGranule] on [uint64]. *)
Definition granuleDelta (granule lastGranule : Z) : Z :=
  ((granule - lastGranule) mod 2 ^ 64)%Z.

(** The [for] of [sendAudio]. The event of a write records the page data and
    the [uint64] difference of the granule positions; the pacing tick and the
    floating-point duration the source computes from that difference and
    hands to the track are left out. *)
Fixpoint sendAudio_loop (env : Env) (p : ptr) (lastGranule : Z)
  (script : list PageOutcome) : M LoopEnd :=
  c <- load p ;;
  if decide (state c ≠ InCall) then ret Returned
  else
    match script with
    | [] => ret Running
    | o :: script' =>
        match audioSndr c with
        | None => panic nilDeref
        | Some sndr =>
            if negb (ogg sndr) then panic nilDeref
            else
              emit (ReadPage p) ;;
              match o with
              | PageEOF =>
                  logPrintln ["end of audio"] ;;
                  _ <- Close env p ;; ret Returned
              | PageError e =>
                  logPrintln ["error reading audio pages:"; e] ;;
                  _ <- Close env p ;; ret Returned
              | PageRead data granule write =>
                  if negb (track sndr) then panic nilDeref
                  else
                    emit (WriteSample p data (granuleDelta granule lastGranule)) ;;
                    match write with
                    | Some e =>
                        logPrintln ["error writing samples:"; e] ;;
                        _ <- Close env p ;; ret Returned
                    | None => sendAudio_loop env p granule script'
                    end
              end
        end
    end.

(** [func (conn *Connection) sendAudio()] *)
Definition sendAudio (env : Env) (p : ptr) (script : list PageOutcome)
  : M LoopEnd :=
  logPrintln ["sending audio"] ;;
  sendAudio_loop env p 0 script.

(** The [for] of [saveToDisk]. *)
Fixpoint saveToDisk_loop (env : Env) (p : ptr) (script : list PacketOutcome)
  : M LoopEnd :=
  c <- load p ;;
  if decide (state c ≠ InCall) then ret Returned
  else
    match script with
    | [] => ret Running
    | o :: script' =>
        emit (ReadRTP p) ;;
        match o with
        | PacketError e =>
            logPrintln ["error reading rtp stream:"; e] ;;
            _ <- Close env p ;; ret Returned
        | PacketRead packet write =>
            emit (WriteRTP p packet) ;;
            match write with
            | Some e =>
                logPrintln ["error writing to disk:"; e] ;;
                _ <- Close env p ;; ret Returned
            | None => saveToDisk_loop env p script'
            end
        end
    end.

(** [func (conn *Connection) saveToDisk(i media.Writer, track)]; the
    deferred close of the writer runs when the function returns. *)
Definition saveToDisk (env : Env) (p : ptr) (script : list PacketOutcome)
  : M LoopEnd :=
  e <- saveToDisk_loop env p script ;;
  match e with
  | Running => ret Running
  | Returned =>
      emit (WriterClose p) ;;
      match writerClose env with
      | Some err => logPrintln ["error closing file:"; err] ;; ret Returned
      | None => ret Returned
      end
  end.

(** ** The signaling listener *)

(** The routes registered by [NewRTCPeer]: a request posted to this peer's
    [/sdp] or [/candidate] runs the handler; anything else is not for it. The
    body is handed over as one the handler can decode; a body it cannot
    decode is the [inl] case of the handlers. *)
Definition serveHTTP (env : Env) (e : Event) : M unit :=
  match e with
  | HttpPost url body =>
      self <- getListenAddr ;;
      match body with
      | PayloadSDP signal =>
          if decide (url = sdpURL self) then httpHandleSDP env (inr signal)
          else ret tt
      | PayloadCandidate signal =>
          if decide (url = candidateURL self) then
            httpHandleCandidate env (inr signal)
          else ret tt
      end
  | _ => ret tt
  end.

(** Every request among the events of a peer reaches the peer at [w]. *)
Definition deliver (env : Env) (events : list Event) : M unit :=
  forEach events (serveHTTP env).

(** ** Observations *)

(** The connection registered under an address. *)
Definition registered (w : World) (address : string) : option Connection :=
  match Connections (rtcpeer w) !! address with
  | Some (addr n) => heap w !! n
  | _ => None
  end.

(** The object behind a pointer. *)
Definition deref (w : World) (p : ptr) : option Connection :=
  match p with
  | addr n => heap w !! n
  | nil => None
  end.

Definition isCandidatePost (e : Event) : bool :=
  match e with
  | HttpPost _ (PayloadCandidate _) => true
  | _ => false
  end.

Definition isPost (e : Event) : bool :=
  match e with
  | HttpPost _ _ => true
  | _ => false
  end.

Definition isLog (e : Event) : bool :=
  match e with
  | Log _ => true
  | _ => false
  end.

Definition isClose (e : Event) : bool :=
  match e with
  | PeerClose _ | DataChanClose _ => true
  | _ => false
  end.

Definition isRead (e : Event) : bool :=
  match e with
  | ReadPage _ | ReadRTP _ => true
  | _ => false
  end.

(** The candidates posted, in order. *)
Definition candidatesPosted (t : list Event) : list string :=
  omap (fun e => match e with
                 | HttpPost _ (PayloadCandidate s) => Some (Candidate s)
                 | _ => None
                 end) t.

(** ** Closed forms of the effects *)

(** The object behind [p] replaced by [c]. *)
Definition update (w : World) (p : ptr) (c : Connection) : World :=
  match p with
  | addr n => mkWorld (rtcpeer w) (<[n := c]> (heap w))
  | nil => w
  end.

Definition unregister (w : World) (k : string) : World :=
  mkWorld (mkRTCPeer (listenAddr (rtcpeer w)) (delete k (Connections (rtcpeer w))))
          (heap w).

Definition register (w : World) (k : string) (p : ptr) : World :=
  mkWorld (mkRTCPeer (listenAddr (rtcpeer w)) (<[k := p]> (Connections (rtcpeer w))))
          (heap w).

Definition allocate (w : World) (c : Connection) : World :=
  mkWorld (rtcpeer w) (heap w ++ [c]).

(** A run whose trace comes after the events [t]. *)
Definition after {A} (t : list Event) (r : Run A) : Run A :=
  mkRun (result r) (world r) (t ++ trace r).

(** The world and the trace of a [Close] that finds the connection open. *)
Definition closed (w : World) (p : ptr) (c : Connection) : World :=
  unregister (update w p (set_state Closed c)) (remoteAddr c).

Definition closing (p : ptr) (c : Connection) : list Event :=
  match dataChan c with Some _ => [DataChanClose p] | None => [] end
  ++ [PeerClose p; Log ["connection to"; remoteAddr c; "closed"]].

(** The connection [newConnection] builds. *)
Definition freshConnection (mode : ConnectionMode) : Connection :=
  mkConnection newPeer "" false mode Standby [] None None.

(** What [getAudio] and [attachReceiver] leave of a connection. *)
Definition received (env : Env) (c : Connection) : Connection :=
  match addTransceiverFromKind env with
  | Some _ => c
  | None =>
      match oggwriterNew env with
      | Some _ => set_peer add_transceiver c
      | None => set_peer set_onTrack (set_peer add_transceiver c)
      end
  end.

Definition attachedReceiver (env : Env) (signal : SignalSDP) (c : Connection)
  : Connection :=
  match mode c with
  | VoiceConnectionSimplex =>
      if decide (Action signal = Offer) then received env c else c
  | VoiceConnectionDuplex => received env c
  | _ => c
  end.

(** The request that carries one candidate of [c] to its remote. *)
Definition candidateRequest (w : World) (c : Connection) (cand : ICECandidate)
  : Event :=
  HttpPost (candidateURL (remoteAddr c))
    (PayloadCandidate (mkSignalCandidate cand (listenAddr (rtcpeer w)))).

(** The refusal [applyRemoteSDP] posts. *)
Definition refusal (w : World) (signal : SignalSDP) : Event :=
  HttpPost (sdpURL (Origin signal))
    (PayloadSDP (mkSignalSDP "" Refuse TextConnection (listenAddr (rtcpeer w)))).

(** A turn of a streaming loop that ends the loop. *)
Definition pageFault (o : PageOutcome) : bool :=
  match o with
  | PageRead _ _ None => false
  | _ => true
  end.

Definition packetFault (o : PacketOutcome) : bool :=
  match o with
  | PacketRead _ None => false
  | _ => true
  end.

(** The error [signalCandidate] returns for an outcome of the post. *)
Definition postError (o : PostOutcome) : option error :=
  match o with
  | PostFails e => Some e
  | PostDone e => e
  end.

(** The events of [postSDP] and whether it reports success. *)
Definition posting (env : Env) (remote : string) (signal : SignalSDP)
  : list Event :=
  match jsonMarshal env with
  | Some err => [Log ["unable to marshal sdp answer: "; err]]
  | None =>
      HttpPost (sdpURL remote) (PayloadSDP signal) ::
      match httpPost env with
      | PostFails err => [Log ["unable to send sdp answer: "; err]]
      | PostDone (Some err) => [Log ["http error on close: "; err]]
      | PostDone None => []
      end
  end.

Definition delivered (env : Env) : bool :=
  match jsonMarshal env, httpPost env with
  | None, PostDone None => true
  | _, _ => false
  end.

(** The connection an inbound description is handled on, and the world the
    action is then looked at in: the registered one, or a new one. *)
Definition routed (env : Env) (signal : SignalSDP) (w : World)
  : option (ptr * Connection * World) :=
  match Connections (rtcpeer w) !! Origin signal with
  | Some p =>
      match deref w p with
      | Some c => Some (p, c, w)
      | None => None
      end
  | None =>
      match newPeerConnection env with
      | Some _ => None
      | None =>
          let p := addr (length (heap w)) in
          let c := freshConnection (Mode signal) in
          Some (p, c, register (allocate w c) (Origin signal) p)
      end
  end.

(** A computation that leaves the registry and the listen address alone. *)
Definition keepsRegistry {A} (m : M A) : Prop :=
  forall w, rtcpeer (world (m w)) = rtcpeer w.

(** Every external call an inbound description needs on the way to
    [InCall] succeeds: the description is applied, for the answering side the
    answer is created, delivered and applied, and every buffered candidate is
    delivered. *)
Definition goesThrough (env : Env) (c : Connection) (answering : bool) : Prop :=
  setRemoteDescription env = None /\
  (answering = true ->
   (exists sdp, createAnswer env = inr sdp) /\
   delivered env = true /\ setLocalDescription env = None) /\
  (forall i, i < length (pendingCandidates c) ->
             candidatePost env i = PostDone None).

(** The events of the turns of [sendAudio] that read and wrote a page, and
    the granule position they leave. *)
Fixpoint streamed (p : ptr) (lastGranule : Z) (pages : list PageOutcome)
  : list Event :=
  match pages with
  | PageRead data granule _ :: pages' =>
      ReadPage p :: WriteSample p data (granuleDelta granule lastGranule)
      :: streamed p granule pages'
  | _ => []
  end.

Fixpoint granuleAfter (lastGranule : Z) (pages : list PageOutcome) : Z :=
  match pages with
  | PageRead _ granule _ :: pages' => granuleAfter granule pages'
  | _ => lastGranule
  end.

(** The events of the turn of [sendAudio] that meets a fault, up to the call
    of [Close]. *)
Definition pageFaultEvents (p : ptr) (lastGranule : Z) (o : PageOutcome)
  : list Event :=
  match o with
  | PageEOF => [ReadPage p; Log ["end of audio"]]
  | PageError e => [ReadPage p; Log ["error reading audio pages:"; e]]
  | PageRead data granule (Some e) =>
      [ReadPage p; WriteSample p data (granuleDelta granule lastGranule);
       Log ["error writing samples:"; e]]
  | PageRead _ _ None => []
  end.

(** The same for [saveToDisk]. *)
Fixpoint saved (p : ptr) (packets : list PacketOutcome) : list Event :=
  match packets with
  | PacketRead packet _ :: packets' =>
      ReadRTP p :: WriteRTP p packet :: saved p packets'
  | _ => []
  end.

Definition packetFaultEvents (p : ptr) (o : PacketOutcome) : list Event :=
  match o with
  | PacketError e => [ReadRTP p; Log ["error reading rtp stream:"; e]]
  | PacketRead packet (Some e) =>
      [ReadRTP p; WriteRTP p packet; Log ["error writing to disk:"; e]]
  | PacketRead _ None => []
  end.

(** The deferred close of the writer. *)
Definition writerClosing (env : Env) (p : ptr) : list Event :=
  WriterClose p ::
  match writerClose env with
  | Some err => [Log ["error closing file:"; err]]
  | None => []
  end.

(** ** Scenarios *)

Definition alice : string := "localhost:8001".
Definition bob : string := "localhost:8002".
Definition mallory : string := "localhost:6666".

(** An environment in which every external call succeeds. *)
Definition allGood : Env :=
  mkEnv None None None None None None None None (inr "offer-sdp")
    (inr "answer-sdp") None None None (PostDone None) (fun _ => PostDone None)
    None (fun _ => None) (fun _ => None) None.

(** The audio source cannot be opened. *)
Definition noAudioFile : Env :=
  mkEnv None None None None (Some "open resources/sources/audio.ogg: no such file or directory")
    None None None (inr "offer-sdp")
    (inr "answer-sdp") None None None (PostDone None) (fun _ => PostDone None)
    None (fun _ => None) (fun _ => None) None.

(** The received description is rejected by the peer connection. *)
Definition badRemoteSDP : Env :=
  mkEnv None None None None None None None None (inr "offer-sdp")
    (inr "answer-sdp") None (Some "invalid description") None (PostDone None)
    (fun _ => PostDone None) None (fun _ => None) (fun _ => None) None.

(** No answer can be created. *)
Definition noAnswer : Env :=
  mkEnv None None None None None None None None (inr "offer-sdp")
    (inl "cannot create answer") None None None (PostDone None)
    (fun _ => PostDone None) None (fun _ => None) (fun _ => None) None.

(** The remote does not accept requests. *)
Definition unreachable : Env :=
  mkEnv None None None None None None None None (inr "offer-sdp")
    (inr "answer-sdp") None None None (PostFails "connection refused")
    (fun _ => PostFails "connection refused") None (fun _ => None)
    (fun _ => None) None.

(** Alice after dialing Bob in text mode. *)
Definition aliceRinging : World :=
  world (Ring allGood bob TextConnection (newWorld alice)).

(** Bob after dialing Alice in text mode. *)
Definition bobRinging : World :=
  world (Ring allGood alice TextConnection (newWorld bob)).

(** ... and after two local candidates were discovered. *)
Definition aliceGathered : World :=
  world (handleICECandidate allGood (addr 0) (Some "candidate-2")
    (world (handleICECandidate allGood (addr 0) (Some "candidate-1")
       aliceRinging))).

Definition bobAnswers : SignalSDP := mkSignalSDP "answer-sdp" Answer TextConnection bob.

(** ... and after Bob's answer was handled. *)
Definition aliceInCall : World :=
  world (httpHandleSDP allGood (inr bobAnswers) aliceGathered).

(** Alice after Bob refused her call. *)
Definition aliceRefused : World :=
  world (httpHandleSDP allGood
           (inr (mkSignalSDP "" Refuse TextConnection bob)) aliceRinging).

(** Alice after an answer nobody asked for. *)
Definition aliceSurprised : World :=
  world (httpHandleSDP allGood
           (inr (mkSignalSDP "answer-sdp" Answer TextConnection mallory))
           (newWorld alice)).

(** Alice in a one-way voice call with Bob: dialed, answered. *)
Definition aliceStreaming : World :=
  world (httpHandleSDP allGood (inr bobAnswers)
           (world (Ring allGood bob VoiceConnectionSimplex (newWorld alice)))).

Definition aliceCalls : SignalSDP :=
  mkSignalSDP "offer-sdp" Offer VoiceConnectionSimplex alice.

(** Bob on the receiving side of that call: he answered Alice's offer. *)
Definition bobReceiving : World :=
  world (httpHandleSDP allGood (inr aliceCalls) (newWorld bob)).

(** ** Further closed forms *)

(** The modes for which [Ring] loads the audio source. *)
Definition isVoice (mode : ConnectionMode) : bool :=
  match mode with
  | VoiceConnectionSimplex | VoiceConnectionDuplex => true
  | _ => false
  end.

(** What [loadAudio] returns and what it leaves of the connection. *)
Definition loadAudioError (env : Env) : option error :=
  match newTrackLocalStaticSample env with
  | Some e => Some e
  | None =>
      match addTrack env with
      | Some e => Some e
      | None =>
          match osOpen env with
          | Some e => Some e
          | None => oggreaderNewWith env
          end
      end
  end.

Definition loadedAudio (env : Env) (c : Connection) : Connection :=
  match newTrackLocalStaticSample env with
  | Some _ => set_audioSndr (Some (mkAudioSender false false false)) c
  | None =>
      match addTrack env with
      | Some _ => set_audioSndr (Some (mkAudioSender true false false)) c
      | None =>
          let c' := set_peer add_track
                      (set_audioSndr (Some (mkAudioSender true true false)) c) in
          match osOpen env, oggreaderNewWith env with
          | None, None => set_audioSndr (Some (mkAudioSender true true true)) c'
          | _, _ => c'
          end
      end
  end.

(** Every external call of [Ring] succeeds. *)
Definition dials (env : Env) (mode : ConnectionMode) : bool :=
  match newPeerConnection env, createDataChannel env,
        (if isVoice mode then loadAudioError env else None),
        createOffer env, setLocalDescription env, jsonMarshal env,
        httpPost env with
  | None, None, None, inr _, None, None, PostDone None => true
  | _, _, _, _, _, _, _ => false
  end.

(** The description [CreateOffer] gives, the empty one when it fails. *)
Definition offered (env : Env) : SessionDescription :=
  match createOffer env with
  | inr sdp => sdp
  | inl _ => ""
  end.

(** The connection a [Ring] that went through leaves behind. *)
Definition dialed (env : Env) (remote : string) (mode : ConnectionMode)
  : Connection :=
  mkConnection
    (mkPeerConnection None (Some (offered env))
       (if isVoice mode then 1 else 0) 0 false)
    remote true mode Ringing []
    (Some (mkDataChannel "data"))
    (if isVoice mode then Some (mkAudioSender true true true) else None).

(** The offer it posts. *)
Definition offering (env : Env) (w : World) (remote : string)
  (mode : ConnectionMode) : Event :=
  HttpPost (sdpURL remote)
    (PayloadSDP (mkSignalSDP (offered env) Offer mode (listenAddr (rtcpeer w)))).

(** ** The data channel callbacks *)

(** The function [newConnection] registers with [OnDataChannel]: the channel
    the remote opened becomes the connection's. *)
Definition onDataChannel (p : ptr) (d : DataChannel) : M unit :=
  modify p (set_dataChan (Some d)).

(** [func (conn *Connection) handleDataChanOpen()]; the channel's numeric id
    is left out of the line. *)
Definition handleDataChanOpen (p : ptr) : M unit :=
  c <- load p ;;
  match dataChan c with
  | None => panic nilDeref
  | Some d => logPrintln ["data channel"; label d; remoteAddr c; "open"]
  end.

(** [func (conn *Connection) handleDataChanMsg(msg webrtc.DataChannelMessage)] *)
Definition handleDataChanMsg (p : ptr) (msg : string) : M unit :=
  c <- load p ;;
  match dataChan c with
  | None => panic nilDeref
  | Some d => logPrintln ["channel"; label d; remoteAddr c; msg]
  end.

(** Whether a connected connection starts [sendAudio]. *)
Definition spawnsAudio (c : Connection) : bool :=
  match mode c with
  | VoiceConnectionSimplex => isInitiator c
  | VoiceConnectionDuplex => true
  | _ => false
  end.

(** ** A description that goes through *)

(** The description [CreateAnswer] gives, the empty one when it fails. *)
Definition answered (env : Env) : SessionDescription :=
  match createAnswer env with
  | inr sdp => sdp
  | inl _ => ""
  end.

(** What [applyRemoteSDP] leaves of a connection when every call succeeds:
    the remote description, for the answering side the local one, and the
    state [InCall]. *)
Definition accepted (env : Env) (signal : SignalSDP) (c : Connection)
  : Connection :=
  let c1 := set_peer (set_remoteDescription (SDP signal)) c in
  set_state InCall
    (if decide (state c = Answering)
     then set_peer (set_localDescription (answered env)) c1
     else c1).

(** The answer it posts. *)
Definition answering (env : Env) (w : World) (c : Connection) : Event :=
  HttpPost (sdpURL (remoteAddr c))
    (PayloadSDP (mkSignalSDP (answered env) Answer TextConnection
                   (listenAddr (rtcpeer w)))).

(** The connection as the [Offer] case of the action switch leaves it. *)
Definition called (signal : SignalSDP) (c : Connection) : Connection :=
  set_remoteAddr (Origin signal) (set_state Answering c).

(** ** The registry as a whole *)

(** The pointer refers to an object. *)
Definition live (w : World) (p : ptr) : Prop := is_Some (deref w p).

(** Every entry of the registry points to an object. *)
Definition validRegistry (w : World) : Prop :=
  forall k p, Connections (rtcpeer w) !! k = Some p -> live w p.

(** The connection behind the pointer is [InCall], resp. [Closed]. *)
Definition inCall (w : World) (p : ptr) : Prop :=
  state <$> deref w p = Some InCall.

Definition closedAt (w : World) (p : ptr) : Prop :=
  state <$> deref w p = Some Closed.


(** The body of the [range] in [CloseAll]. *)
Definition closeEntry (env : Env) (entry : string * ptr) : M unit :=
  let '(k, conn) := entry in
  '(_, ok) <- mapLookup k ;;
  if negb ok then ret tt
  else
    err <- Close env conn ;;
    match err with
    | Some e => logPrintln ["unable to close peer"; k; "connection: "; e]
    | None => ret tt
    end.

(** From [w] to [w']: objects stay, the registry gains nothing and closed
    connections stay closed. *)
Definition wanes (w w' : World) : Prop :=
  (forall q, live w q -> live w' q) /\
  (forall k p, Connections (rtcpeer w') !! k = Some p ->
               Connections (rtcpeer w) !! k = Some p) /\
  (forall q, closedAt w q -> closedAt w' q).

(** Every entry is under the address its connection records, and open. *)
Definition wellRegistered (w : World) : Prop :=
  forall k p, Connections (rtcpeer w) !! k = Some p ->
    exists c, deref w p = Some c /\ remoteAddr c = k /\ state c ≠ Closed.

(** A computation that, run where the registry is valid and [p], if it is
    not [nil], is live, keeps every object and leaves the registry valid. *)
Definition tidy (p : ptr) {A} (m : M A) : Prop :=
  forall w, (p ≠ nil -> live w p) -> validRegistry w ->
    validRegistry (world (m w)) /\
    (forall q, live w q -> live (world (m w)) q).

(** A computation that, run where [p] is live, does not panic and keeps [p]
    live. *)
Definition safe (p : ptr) {A} (m : M A) : Prop :=
  forall w, live w p ->
    (exists a, result (m w) = Done a) /\ live (world (m w)) p.

(** ** The entry points as steps *)

(** One entry point of the program run in [w]: a console command, a dial,
    a hang-up, the shutdown, an inbound request, a callback of the transport
    library or a streaming loop. Callbacks and loops may come with any
    pointer. *)
Inductive step (env : Env) (w : World) : World -> Prop :=
| step_parseCommand cmd : step env w (world (parseCommand env cmd w))
| step_Ring remote mode : step env w (world (Ring env remote mode w))
| step_HangUp remote : step env w (world (HangUp env remote w))
| step_CloseAll : step env w (world (CloseAll env w))
| step_SendMsgToAll msg : step env w (world (SendMsgToAll env msg w))
| step_httpHandleSDP body : step env w (world (httpHandleSDP env body w))
| step_httpHandleCandidate body :
    step env w (world (httpHandleCandidate env body w))
| step_handleICECandidate p c :
    step env w (world (handleICECandidate env p c w))
| step_handleConnectionStateChange p s :
    step env w (world (handleConnectionStateChange env p s w))
| step_onDataChannel p d : step env w (world (onDataChannel p d w))
| step_handleDataChanClose p : step env w (world (handleDataChanClose env p w))
| step_handleDataChanOpen p : step env w (world (handleDataChanOpen p w))
| step_handleDataChanMsg p msg : step env w (world (handleDataChanMsg p msg w))
| step_sendAudio p script : step env w (world (sendAudio env p script w))
| step_saveToDisk p script : step env w (world (saveToDisk env p script w)).

(** The worlds a peer listening at [listen] can get to. *)
Inductive reachable (listen : string) : World -> Prop :=
| reachable_new : reachable listen (newWorld listen)
| reachable_step env w w' :
    reachable listen w -> step env w w' -> reachable listen w'.

(** ** Console input *)

(** The space and the slash, by their codes. *)
Definition space : Ascii.ascii := Ascii.ascii_of_nat 32.
Definition slash : Ascii.ascii := Ascii.ascii_of_nat 47.

(** The text holds no space. *)
Fixpoint spaceFree (s : string) : bool :=
  match s with
  | EmptyString => true
  | String c s' => negb (Ascii.eqb c space) && spaceFree s'
  end.

(** The text does not begin with a slash. *)
Definition plain (s : string) : bool :=
  match s with
  | String c _ => negb (Ascii.eqb c slash)
  | EmptyString => true
  end.

(** ** Sequences of callbacks *)

(** The candidates [cs] discovered one after the other on the connection. *)
Definition gather (env : Env) (p : ptr) (cs : list ICECandidate) : M unit :=
  forEach cs (fun c => handleICECandidate env p (Some c)).

(** ** What the streaming loops hand on *)

(** The data written to the track, and the packets written to the file, in
    order. *)
Definition samplesWritten (t : list Event) : list string :=
  omap (fun e => match e with WriteSample _ data _ => Some data | _ => None end) t.

Definition packetsWritten (t : list Event) : list string :=
  omap (fun e => match e with WriteRTP _ packet => Some packet | _ => None end) t.

(** The data a script of page reads has a loop write: those of the pages
    read and written, and of the page whose write fails; nothing after a
    fault. Likewise for packets. *)
Fixpoint pageData (pages : list PageOutcome) : list string :=
  match pages with
  | PageRead data _ None :: pages' => data :: pageData pages'
  | PageRead data _ (Some _) :: _ => [data]
  | _ => []
  end.

Fixpoint packetData (packets : list PacketOutcome) : list string :=
  match packets with
  | PacketRead packet None :: packets' => packet :: packetData packets'
  | PacketRead packet (Some _) :: _ => [packet]
  | _ => []
  end.

(** * Properties *)

(** ** Running the monad *)

Lemma run_eta {A} (r : Run A) : mkRun (result r) (world r) (trace r) = r.
Proof. by destruct r. Qed.

Lemma after_nil {A} (r : Run A) : after [] r = r.
Proof. apply run_eta. Qed.

Lemma after_mkRun {A} t (x : Exec A) w t' :
  after t (mkRun x w t') = mkRun x w (t ++ t').
Proof. reflexivity. Qed.

Lemma after_after {A} t t' (r : Run A) : after t (after t' r) = after (t ++ t') r.
Proof. unfold after. cbn [result world trace]. by rewrite app_assoc. Qed.

Lemma bind_ret {A B} (a : A) (k : A -> M B) w : bind (ret a) k w = k a w.
Proof. unfold bind, ret. cbn [result world trace app]. apply run_eta. Qed.

Lemma bind_done {A B} (m : M A) (k : A -> M B) w a w' t :
  m w = mkRun (Done a) w' t -> bind m k w = after t (k a w').
Proof. intros H. unfold bind. rewrite H. reflexivity. Qed.

Lemma bind_panics {A B} (m : M A) (k : A -> M B) w e w' t :
  m w = mkRun (Panic e) w' t -> bind m k w = mkRun (Panic e) w' t.
Proof. intros H. unfold bind. rewrite H. reflexivity. Qed.

Lemma bind_panic {A B} e (k : A -> M B) w :
  bind (panic e) k w = mkRun (Panic e) w [].
Proof. reflexivity. Qed.

Lemma load_run p c w : deref w p = Some c -> load p w = mkRun (Done c) w [].
Proof. unfold load, deref. destruct p as [|n]; [done|]. by intros ->. Qed.

Lemma modify_run p c f w :
  deref w p = Some c -> modify p f w = mkRun (Done tt) (update w p (f c)) [].
Proof. unfold modify, deref, update. destruct p as [|n]; [done|]. by intros ->. Qed.

Lemma bind_load {B} p c (k : Connection -> M B) w :
  deref w p = Some c -> bind (load p) k w = k c w.
Proof.
  intros H. rewrite (bind_done _ _ _ _ _ _ (load_run _ _ _ H)). apply after_nil.
Qed.

Lemma bind_modify {B} p c f (k : unit -> M B) w :
  deref w p = Some c -> bind (modify p f) k w = k tt (update w p (f c)).
Proof.
  intros H. rewrite (bind_done _ _ _ _ _ _ (modify_run _ _ f _ H)).
  apply after_nil.
Qed.

Lemma bind_emit {B} e (k : unit -> M B) w :
  bind (emit e) k w = after [e] (k tt w).
Proof. reflexivity. Qed.

Lemma bind_log {B} l (k : unit -> M B) w :
  bind (logPrintln l) k w = after [Log l] (k tt w).
Proof. reflexivity. Qed.

Lemma bind_mapDelete {B} key (k : unit -> M B) w :
  bind (mapDelete key) k w = k tt (unregister w key).
Proof. unfold bind, mapDelete. cbn [result world trace app]. apply run_eta. Qed.

Lemma bind_mapStore {B} key p (k : unit -> M B) w :
  bind (mapStore key p) k w = k tt (register w key p).
Proof. unfold bind, mapStore. cbn [result world trace app]. apply run_eta. Qed.

Lemma bind_getListenAddr {B} (k : string -> M B) w :
  bind getListenAddr k w = k (listenAddr (rtcpeer w)) w.
Proof. unfold bind, getListenAddr. cbn [result world trace app]. apply run_eta. Qed.

Lemma bind_mapLookup_Some {B} key p (k : ptr * bool -> M B) w :
  Connections (rtcpeer w) !! key = Some p ->
  bind (mapLookup key) k w = k (p, true) w.
Proof.
  intros H. unfold bind, mapLookup. rewrite H.
  cbn [result world trace app]. apply run_eta.
Qed.

Lemma bind_mapLookup_None {B} key (k : ptr * bool -> M B) w :
  Connections (rtcpeer w) !! key = None ->
  bind (mapLookup key) k w = k (nil, false) w.
Proof.
  intros H. unfold bind, mapLookup. rewrite H.
  cbn [result world trace app]. apply run_eta.
Qed.

Lemma bind_alloc {B} c (k : ptr -> M B) w :
  bind (alloc c) k w = k (addr (length (heap w))) (allocate w c).
Proof. unfold bind, alloc. cbn [result world trace app]. apply run_eta. Qed.

(** ** The heap and the registry under the effects *)

Lemma deref_update w p c c' :
  deref w p = Some c -> deref (update w p c') p = Some c'.
Proof.
  destruct p as [|n]; [done|]. unfold deref, update. cbn [heap]. intros H.
  apply list_lookup_insert_eq. by eapply lookup_lt_Some.
Qed.

Lemma deref_update_ne w p q c : p ≠ q -> deref (update w p c) q = deref w q.
Proof.
  destruct p as [|n], q as [|m]; try done. unfold deref, update. cbn [heap].
  intros H. apply list_lookup_insert_ne. congruence.
Qed.

Lemma deref_unregister w k p : deref (unregister w k) p = deref w p.
Proof. by destruct p. Qed.

Lemma deref_register w k q p : deref (register w k q) p = deref w p.
Proof. by destruct p. Qed.

Lemma deref_allocate_new w c : deref (allocate w c) (addr (length (heap w))) = Some c.
Proof.
  unfold deref, allocate. cbn [heap].
  rewrite lookup_app_r by lia. by rewrite Nat.sub_diag.
Qed.

Lemma deref_allocate_old w c p x : deref w p = Some x -> deref (allocate w c) p = Some x.
Proof.
  destruct p as [|n]; [done|]. unfold deref, allocate. cbn [heap]. intros H.
  rewrite lookup_app_l; [done|]. by eapply lookup_lt_Some.
Qed.

Lemma update_update w p c c1 c2 :
  deref w p = Some c -> update (update w p c1) p c2 = update w p c2.
Proof.
  destruct p as [|n]; [done|]. unfold update. cbn [heap rtcpeer]. intros _.
  by rewrite list_insert_insert_eq.
Qed.

Lemma update_id w p c : deref w p = Some c -> update w p c = w.
Proof.
  destruct p as [|n]; [done|]. unfold deref, update. intros H.
  rewrite list_insert_id by done. by destruct w.
Qed.

Lemma rtcpeer_update w p c : rtcpeer (update w p c) = rtcpeer w.
Proof. by destruct p. Qed.

Lemma Connections_unregister w k :
  Connections (rtcpeer (unregister w k)) = delete k (Connections (rtcpeer w)).
Proof. reflexivity. Qed.

Lemma Connections_register w k p :
  Connections (rtcpeer (register w k p)) = <[k := p]> (Connections (rtcpeer w)).
Proof. reflexivity. Qed.

Ltac derefs :=
  repeat first
    [ eassumption
    | rewrite deref_unregister
    | rewrite deref_register
    | eapply deref_update
    | apply deref_allocate_new ].

Ltac run :=
  repeat first
    [ rewrite bind_ret
    | rewrite bind_emit
    | rewrite bind_log
    | rewrite bind_panic
    | rewrite bind_mapDelete
    | rewrite bind_mapStore
    | rewrite bind_getListenAddr
    | rewrite bind_alloc
    | erewrite bind_load by derefs
    | erewrite bind_modify by derefs
    | rewrite after_mkRun
    | rewrite after_after
    | rewrite after_nil ].

(** ** [Close] *)

Lemma Close_run env p c w :
  deref w p = Some c ->
  Close env p w =
    if decide (state c = Closed) then mkRun (Done None) w []
    else mkRun (Done (peerClose env p)) (closed w p c) (closing p c).
Proof.
  intros H. unfold Close. rewrite (bind_load _ _ _ _ H).
  destruct (decide (state c = Closed)) as [E|E]; [done|].
  unfold String_, closing.
  erewrite bind_modify by derefs. erewrite bind_load by derefs.
  cbn [dataChan set_state].
  destruct (dataChan c).
  - rewrite bind_emit, bind_emit.
    erewrite (bind_done (bind (load p) _)); [|run; reflexivity].
    run. reflexivity.
  - rewrite bind_ret, bind_emit.
    erewrite (bind_done (bind (load p) _)); [|run; reflexivity].
    run. reflexivity.
Qed.

Lemma deref_closed w p c : deref w p = Some c -> deref (closed w p c) p = Some (set_state Closed c).
Proof. intros H. unfold closed. derefs. Qed.

(** C8 (the code at the failing input). A connection created for an answer
    nobody asked for is registered under the sender's address while its own
    [remoteAddr] is empty, so the [delete] of [Close] misses its key: after two
    calls of [Close] it is [Closed] and still in the registry. *)
Lemma Close_twice_leaves_entry :
  let w1 := world (Close allGood (addr 0) aliceSurprised) in
  let w2 := world (Close allGood (addr 0) w1) in
  Connections (rtcpeer aliceSurprised) !! mallory = Some (addr 0) /\
  state <$> deref w2 (addr 0) = Some Closed /\
  Connections (rtcpeer w2) !! mallory = Some (addr 0).
Proof. vm_compute. repeat split; reflexivity. Qed.

(** X18. A second [Close] does nothing: on any connection it returns [nil],
    leaves the world as the first call left it and asks nothing of the outside
    world, so neither the peer connection nor the data channel is closed a
    second time. The connection ends [Closed]; when the first call found it
    open, the registry has no entry under the connection's own [remoteAddr],
    and holds the connection under no key at all if that was the only key it
    was under. *)
Theorem Close_idempotent (env1 env2 : Env) (w : World) (p : ptr) (c : Connection) :
  deref w p = Some c ->
  let first := Close env1 p w in
  let second := Close env2 p (world first) in
  result second = Done None /\
  world second = world first /\
  trace second = [] /\
  state <$> deref (world second) p = Some Closed /\
  (state c ≠ Closed ->
   Connections (rtcpeer (world second)) !! remoteAddr c = None /\
   ((forall k, Connections (rtcpeer w) !! k = Some p -> k = remoteAddr c) ->
    forall k, Connections (rtcpeer (world second)) !! k ≠ Some p)).
Proof.
  intros H first second. subst first second.
  rewrite (Close_run env1 _ _ _ H).
  destruct (decide (state c = Closed)) as [E|E]; cbn [world].
  - rewrite (Close_run env2 _ _ _ H). rewrite decide_True by done.
    cbn [result world trace]. rewrite H. cbn. rewrite E. done.
  - pose proof (deref_closed _ _ _ H) as H'.
    rewrite (Close_run env2 _ _ _ H'). rewrite decide_True by done.
    cbn [result world trace]. rewrite H'.
    repeat split; try done.
    + unfold closed. rewrite Connections_unregister. apply lookup_delete_eq.
    + intros Honly k Hk. unfold closed in Hk.
      rewrite Connections_unregister in Hk.
      apply lookup_delete_Some in Hk as [Hne Hk].
      rewrite rtcpeer_update in Hk. apply Honly in Hk. congruence.
Qed.

(** The statement at Alice's ringing connection to Bob. *)
Lemma Close_idempotent_witness :
  let c := mkConnection (mkPeerConnection None (Some "offer-sdp") 0 0 false) bob
             true TextConnection Ringing [] (Some (mkDataChannel "data")) None in
  deref aliceRinging (addr 0) = Some c /\
  let first := Close allGood (addr 0) aliceRinging in
  let second := Close unreachable (addr 0) (world first) in
  result second = Done None /\
  world second = world first /\
  trace second = [] /\
  state <$> deref (world second) (addr 0) = Some Closed /\
  (state c ≠ Closed ->
   Connections (rtcpeer (world second)) !! remoteAddr c = None /\
   ((forall k, Connections (rtcpeer aliceRinging) !! k = Some (addr 0) ->
               k = remoteAddr c) ->
    forall k, Connections (rtcpeer (world second)) !! k ≠ Some (addr 0))).
Proof.
  intros c. split; [vm_compute; reflexivity|].
  apply (Close_idempotent allGood unreachable aliceRinging (addr 0) c).
  vm_compute; reflexivity.
Defined.

Lemma bind_assoc {A B C} (m : M A) (f : A -> M B) (k : B -> M C) w :
  bind (bind m f) k w = bind m (fun a => bind (f a) k) w.
Proof.
  unfold bind. destruct (m w) as [[a|e] w' t]; cbn [result world trace]; [|done].
  destruct (f a w') as [[b|e] w'' t']; cbn [result world trace]; [|done].
  by rewrite app_assoc.
Qed.

Lemma bind_Close {B} env p c (k : option error -> M B) w :
  deref w p = Some c -> state c ≠ Closed ->
  bind (Close env p) k w = after (closing p c) (k (peerClose env p) (closed w p c)).
Proof.
  intros H E. eapply bind_done. rewrite (Close_run _ _ _ _ H).
  by rewrite decide_False.
Qed.

Ltac fields :=
  cbn [peer remoteAddr isInitiator mode state pendingCandidates dataChan
       audioSndr set_peer set_remoteAddr set_isInitiator set_state
       set_pendingCandidates set_dataChan set_audioSndr
       remoteDescription localDescription tracks transceivers onTrack
       set_remoteDescription set_localDescription add_track add_transceiver
       set_onTrack] in *.

(** ** [Ring] *)

Lemma Ring_fail_run env p c w :
  deref w p = Some c -> state c ≠ Closed ->
  Ring_fail env p w = mkRun (Done nil) (closed w p c) (closing p c).
Proof.
  intros H E. unfold Ring_fail. erewrite bind_Close by eassumption.
  unfold ret, after. cbn [result world trace]. by rewrite app_nil_r.
Qed.

(** When the data channel cannot be created the connection is closed, but
    it was registered before the error was looked at and its [remoteAddr] is
    still empty: the entry under the dialed address stays. *)
Lemma Ring_without_data_channel env remote mode w e :
  Connections (rtcpeer w) !! remote = None ->
  newPeerConnection env = None ->
  createDataChannel env = Some e ->
  remote ≠ "" ->
  let r := Ring env remote mode w in
  let p := addr (length (heap w)) in
  result r = Done nil /\
  Connections (rtcpeer (world r)) !! remote = Some p /\
  state <$> deref (world r) p = Some Closed.
Proof.
  intros Hreg Hnew Hdc Hne r p. subst r p.
  unfold Ring. rewrite (bind_mapLookup_None _ _ _ Hreg). cbv beta iota.
  unfold newConnection. rewrite Hnew, Hdc.
  rewrite bind_assoc. run. cbv beta iota. run.
  erewrite Ring_fail_run; [|derefs|fields; discriminate].
  run. cbn [result world trace]. fields.
  repeat split.
  - unfold closed. rewrite Connections_unregister. fields.
    rewrite lookup_delete_ne by done. rewrite rtcpeer_update.
    rewrite Connections_register. apply lookup_insert_eq.
  - unfold closed. rewrite deref_unregister.
    erewrite deref_update; [done|derefs].
Qed.

(** When the offer cannot be delivered the connection is closed after its
    [remoteAddr] was set: the entry under the dialed address goes. *)
Lemma Ring_unreachable env remote w sdp e :
  Connections (rtcpeer w) !! remote = None ->
  newPeerConnection env = None ->
  createDataChannel env = None ->
  createOffer env = inr sdp ->
  setLocalDescription env = None ->
  jsonMarshal env = None ->
  httpPost env = PostFails e ->
  let r := Ring env remote TextConnection w in
  result r = Done nil /\
  Connections (rtcpeer (world r)) !! remote = None /\
  state <$> deref (world r) (addr (length (heap w))) = Some Closed.
Proof.
  intros Hreg Hnew Hdc Hoffer Hlocal Hjson Hpost r. subst r.
  unfold Ring. rewrite (bind_mapLookup_None _ _ _ Hreg). cbv beta iota.
  unfold newConnection. rewrite Hnew, Hdc, Hoffer, Hlocal, Hjson, Hpost.
  rewrite bind_assoc. run. cbv beta iota. run. cbn [negb]. run.
  erewrite Ring_fail_run; [|derefs|fields; discriminate].
  run. cbn [result world trace]. fields.
  repeat split.
  - unfold closed. rewrite Connections_unregister. fields.
    apply lookup_delete_eq.
  - unfold closed. rewrite deref_unregister.
    erewrite deref_update; [done|derefs].
Qed.

(** C1 (the code at the failing input). Alice enters [/call localhost:8002]
    and the audio source cannot be opened: [Ring] logs the failure, closes
    the connection and returns [nil], and the registry still holds the
    connection, [Closed], under the dialed address. *)
Theorem Ring_failure_keeps_entry :
  let r := parseCommand noAudioFile "/call localhost:8002" (newWorld alice) in
  result r = Done tt /\
  filter isClose (trace r) = [DataChanClose (addr 0); PeerClose (addr 0)] /\
  Connections (rtcpeer (world r)) !! bob = Some (addr 0) /\
  state <$> registered (world r) bob = Some Closed /\
  remoteAddr <$> registered (world r) bob = Some "".
Proof. vm_compute. repeat split; reflexivity. Qed.

(** ** [parseCommand] *)

(** C5 (the code at the failing input). [/msg] to an address that has no
    connection logs the diagnostic and goes on to call [SendMsg] on the [nil]
    connection, which panics. *)
Theorem msg_to_unknown_address_panics :
  let r := parseCommand allGood "/msg localhost:8002 hello" (newWorld alice) in
  result r = Panic nilDeref /\
  trace r = [Log ["no such destination"]].
Proof. vm_compute. split; reflexivity. Qed.


(** ** The session-description handler *)

Lemma httpHandleSDP_found env signal p w :
  Connections (rtcpeer w) !! Origin signal = Some p ->
  httpHandleSDP env (inr signal) w = handleSignal env signal p w.
Proof.
  intros H. unfold httpHandleSDP, findOrCreate. rewrite bind_assoc.
  rewrite (bind_mapLookup_Some _ _ _ _ H). cbv beta iota. by run.
Qed.

Lemma httpHandleSDP_created env signal w :
  Connections (rtcpeer w) !! Origin signal = None ->
  newPeerConnection env = None ->
  let p := addr (length (heap w)) in
  httpHandleSDP env (inr signal) w =
    handleSignal env signal p
      (register (allocate w (freshConnection (Mode signal))) (Origin signal) p).
Proof.
  intros H Hnew p. unfold httpHandleSDP, findOrCreate. rewrite bind_assoc.
  rewrite (bind_mapLookup_None _ _ _ H). cbv beta iota.
  unfold newConnection. rewrite Hnew.
  rewrite !bind_assoc. run. cbv beta iota. rewrite bind_assoc. by run.
Qed.

Lemma httpHandleSDP_not_created env signal w e :
  Connections (rtcpeer w) !! Origin signal = None ->
  newPeerConnection env = Some e ->
  httpHandleSDP env (inr signal) w =
    mkRun (Done tt) w [Log ["couldn't create new connection:"; e]].
Proof.
  intros H Hnew. unfold httpHandleSDP, findOrCreate. rewrite bind_assoc.
  rewrite (bind_mapLookup_None _ _ _ H). cbv beta iota.
  unfold newConnection. rewrite Hnew.
  rewrite !bind_assoc. run. cbv beta iota. rewrite bind_assoc. by run.
Qed.

Lemma handleSignal_Refuse env signal p c w :
  Action signal = Refuse -> deref w p = Some c ->
  handleSignal env signal p w =
    if decide (state c = Ringing) then
      mkRun (Done tt) (update w p (set_state Standby c))
        [Log [Origin signal; "appears to be busy"]]
    else
      mkRun (Done tt) w [Log ["refusal from"; Origin signal; "but we weren't calling"]].
Proof.
  intros HA H. unfold handleSignal. erewrite bind_load by derefs. rewrite HA.
  destruct (decide (state c = Ringing)) as [E|E].
  - rewrite decide_False by (intros ?; done). run.
    erewrite modify_run by derefs. by run.
  - by rewrite decide_True.
Qed.

Lemma handleSignal_busy env signal p c w :
  Action signal = Offer -> deref w p = Some c -> state c ≠ Standby ->
  handleSignal env signal p w =
    mkRun (Done tt) w
      [Log ["answering incoming call from"; Origin signal; "but we are busy"]].
Proof.
  intros HA H E. unfold handleSignal. erewrite bind_load by derefs. rewrite HA.
  by rewrite decide_True.
Qed.

Lemma handleSignal_not_ringing env signal p c w :
  Action signal = Answer -> deref w p = Some c -> state c ≠ Ringing ->
  handleSignal env signal p w =
    mkRun (Done tt) w [Log ["answer from"; Origin signal; "but we weren't calling"]].
Proof.
  intros HA H E. unfold handleSignal. erewrite bind_load by derefs. rewrite HA.
  by rewrite decide_True.
Qed.

Lemma handleSignal_unknown env signal p c w n :
  Action signal = UnknownAction n -> deref w p = Some c ->
  handleSignal env signal p w =
    mkRun (Done tt) w
      [Log [Origin signal; "appears to be having problems communicating"]].
Proof.
  intros HA H. unfold handleSignal. erewrite bind_load by derefs. by rewrite HA.
Qed.

(** C7. A refusal from an address whose connection is [Ringing] sets the
    state to [Standby] and returns: the one diagnostic is logged, nothing is
    posted, and the connection is otherwise as it was, so no remote
    description was applied. A refusal that finds the connection in any other
    state logs its diagnostic and changes nothing. *)
Theorem Refuse_resets_Ringing_only (env : Env) (signal : SignalSDP) (w : World)
  (p : ptr) (c : Connection) :
  Action signal = Refuse ->
  Connections (rtcpeer w) !! Origin signal = Some p ->
  deref w p = Some c ->
  let r := httpHandleSDP env (inr signal) w in
  (state c = Ringing ->
   r = mkRun (Done tt) (update w p (set_state Standby c))
         [Log [Origin signal; "appears to be busy"]] /\
   state <$> deref (world r) p = Some Standby /\
   peer <$> deref (world r) p = Some (peer c) /\
   rtcpeer (world r) = rtcpeer w) /\
  (state c ≠ Ringing ->
   r = mkRun (Done tt) w
         [Log ["refusal from"; Origin signal; "but we weren't calling"]]).
Proof.
  intros HA Hreg H r. subst r.
  rewrite (httpHandleSDP_found _ _ _ _ Hreg).
  rewrite (handleSignal_Refuse _ _ _ _ _ HA H).
  split; intros E.
  - rewrite decide_True by done. cbn [world].
    erewrite deref_update by derefs. by rewrite rtcpeer_update.
  - by rewrite decide_False.
Qed.

(** The statement at Alice's ringing connection, refused by Bob. *)
Lemma Refuse_resets_Ringing_only_witness :
  let signal := mkSignalSDP "" Refuse TextConnection bob in
  let c := mkConnection (mkPeerConnection None (Some "offer-sdp") 0 0 false) bob
             true TextConnection Ringing [] (Some (mkDataChannel "data")) None in
  (Action signal = Refuse /\
   Connections (rtcpeer aliceRinging) !! Origin signal = Some (addr 0) /\
   deref aliceRinging (addr 0) = Some c) /\
  let r := httpHandleSDP unreachable (inr signal) aliceRinging in
  (state c = Ringing ->
   r = mkRun (Done tt) (update aliceRinging (addr 0) (set_state Standby c))
         [Log [Origin signal; "appears to be busy"]] /\
   state <$> deref (world r) (addr 0) = Some Standby /\
   peer <$> deref (world r) (addr 0) = Some (peer c) /\
   rtcpeer (world r) = rtcpeer aliceRinging) /\
  (state c ≠ Ringing ->
   r = mkRun (Done tt) aliceRinging
         [Log ["refusal from"; Origin signal; "but we weren't calling"]]).
Proof.
  intros signal c.
  split; [repeat split; vm_compute; reflexivity|].
  apply (Refuse_resets_Ringing_only unreachable signal aliceRinging (addr 0) c);
    vm_compute; reflexivity.
Defined.

(** ** The listener *)

Lemma deliver_no_posts env t w :
  filter isPost t = [] -> deliver env t w = mkRun (Done tt) w [].
Proof.
  unfold deliver. induction t as [|e t IH]; [done|].
  intros H. cbn [forEach].
  destruct e; try (rewrite filter_cons_True in H by done; discriminate);
    rewrite filter_cons_False in H by (intros []);
    cbn [serveHTTP]; rewrite bind_ret; auto.
Qed.

(** C10. An offer from an address whose connection is not in [Standby] is
    dropped on the spot: the handler logs one diagnostic and returns, the
    world is as it was, and the trace holds no request at all, so no
    [Refuse] goes back. Whatever the listener of the offering peer is given
    from this trace leaves that peer as it was: a connection of its that is
    [Ringing] stays [Ringing]. *)
Theorem busy_Offer_dropped_locally (env envX : Env) (signal : SignalSDP)
  (w wX : World) (p q : ptr) (c cX : Connection) :
  Action signal = Offer ->
  Connections (rtcpeer w) !! Origin signal = Some p ->
  deref w p = Some c ->
  state c ≠ Standby ->
  deref wX q = Some cX ->
  state cX = Ringing ->
  let r := httpHandleSDP env (inr signal) w in
  r = mkRun (Done tt) w
        [Log ["answering incoming call from"; Origin signal; "but we are busy"]] /\
  filter isPost (trace r) = [] /\
  deliver envX (trace r) wX = mkRun (Done tt) wX [] /\
  state <$> deref (world (deliver envX (trace r) wX)) q = Some Ringing.
Proof.
  intros HA Hreg H E HX EX r. subst r.
  rewrite (httpHandleSDP_found _ _ _ _ Hreg).
  rewrite (handleSignal_busy _ _ _ _ _ HA H E). cbn [trace].
  assert (Hnone : filter isPost
    [Log ["answering incoming call from"; Origin signal; "but we are busy"]] = [])
    by done.
  rewrite (deliver_no_posts _ _ _ Hnone). cbn [world].
  rewrite HX. cbn. by rewrite EX.
Qed.

(** The statement for Alice, in a call with Bob, receiving a new offer from
    Bob, whose own new connection to her rings. *)
Lemma busy_Offer_dropped_locally_witness :
  let signal := mkSignalSDP "offer-sdp" Offer TextConnection bob in
  let c := mkConnection (mkPeerConnection (Some "answer-sdp") (Some "offer-sdp") 0 0 false)
             bob true TextConnection InCall ["candidate-1"; "candidate-2"]
             (Some (mkDataChannel "data")) None in
  let cX := mkConnection (mkPeerConnection None (Some "offer-sdp") 0 0 false) alice
              true TextConnection Ringing [] (Some (mkDataChannel "data")) None in
  (Action signal = Offer /\
   Connections (rtcpeer aliceInCall) !! Origin signal = Some (addr 0) /\
   deref aliceInCall (addr 0) = Some c /\
   state c ≠ Standby /\
   deref bobRinging (addr 0) = Some cX /\
   state cX = Ringing) /\
  let r := httpHandleSDP allGood (inr signal) aliceInCall in
  r = mkRun (Done tt) aliceInCall
        [Log ["answering incoming call from"; Origin signal; "but we are busy"]] /\
  filter isPost (trace r) = [] /\
  deliver allGood (trace r) bobRinging = mkRun (Done tt) bobRinging [] /\
  state <$> deref (world (deliver allGood (trace r) bobRinging)) (addr 0)
    = Some Ringing.
Proof.
  intros signal c cX.
  split; [repeat split; try (vm_compute; reflexivity); discriminate|].
  apply (busy_Offer_dropped_locally allGood allGood signal aliceInCall
           bobRinging (addr 0) (addr 0) c cX);
    try (vm_compute; reflexivity); discriminate.
Defined.

(** ** Applying a remote description *)

Lemma getAudio_run env p c w :
  deref w p = Some c ->
  exists err, getAudio env p w = mkRun (Done err) (update w p (received env c)) [].
Proof.
  intros H. unfold getAudio, received. erewrite bind_load by derefs.
  destruct (addTransceiverFromKind env) as [e|].
  - exists (Some e). unfold ret. by rewrite (update_id _ _ _ H).
  - erewrite bind_modify by derefs.
    destruct (oggwriterNew env) as [e|].
    + by exists (Some e).
    + exists None. erewrite bind_modify by derefs. unfold ret.
      by rewrite (update_update _ _ _ _ _ H).
Qed.

Lemma attachReceiver_run env signal p c w :
  deref w p = Some c ->
  attachReceiver env signal p w =
    mkRun (Done tt) (update w p (attachedReceiver env signal c)) [].
Proof.
  intros H. unfold attachReceiver, attachedReceiver.
  erewrite bind_load by derefs.
  destruct (getAudio_run env _ _ _ H) as [err Hget].
  destruct (mode c); try (unfold ret; by rewrite (update_id _ _ _ H)).
  - destruct (decide (Action signal = Offer)).
    + erewrite bind_done by apply Hget. by run.
    + unfold ret. by rewrite (update_id _ _ _ H).
  - erewrite bind_done by apply Hget. by run.
Qed.

Lemma bind_attachReceiver {B} env signal p c (k : unit -> M B) w :
  deref w p = Some c ->
  bind (attachReceiver env signal p) k w =
    k tt (update w p (attachedReceiver env signal c)).
Proof.
  intros H. erewrite bind_done by (by apply attachReceiver_run). by run.
Qed.

(** [attachReceiver] touches the transceivers and the track callback of the
    peer connection only. *)
Lemma attachedReceiver_fields env signal c :
  let c' := attachedReceiver env signal c in
  state c' = state c /\ remoteAddr c' = remoteAddr c /\
  pendingCandidates c' = pendingCandidates c /\
  remoteDescription (peer c') = remoteDescription (peer c) /\
  localDescription (peer c') = localDescription (peer c) /\
  mode c' = mode c /\ isInitiator c' = isInitiator c /\
  dataChan c' = dataChan c.
Proof.
  unfold attachedReceiver, received.
  destruct (mode c) eqn:Em, (decide (Action signal = Offer)),
    (addTransceiverFromKind env), (oggwriterNew env); cbn; rewrite ?Em; done.
Qed.

Lemma postSDP_run env remote signal w :
  postSDP env remote signal w =
    mkRun (Done (delivered env)) w (posting env remote signal).
Proof.
  unfold postSDP, posting, delivered.
  destruct (jsonMarshal env); [done|]. rewrite bind_emit.
  by destruct (httpPost env) as [|[|]].
Qed.

Lemma applyRemoteSDP_rejected env signal p w e :
  setRemoteDescription env = Some e ->
  applyRemoteSDP env signal p w =
    mkRun (Done tt) w
      (Log ["couldn't set remote sdp: "; e] ::
       posting env (Origin signal)
         (mkSignalSDP "" Refuse TextConnection (listenAddr (rtcpeer w)))).
Proof.
  intros H. unfold applyRemoteSDP. rewrite H. run.
  erewrite bind_done by apply postSDP_run. run.
  unfold ret. rewrite after_mkRun. by rewrite !app_nil_r.
Qed.

Lemma httpHandleSDP_routed env signal w p c w1 :
  routed env signal w = Some (p, c, w1) ->
  httpHandleSDP env (inr signal) w = handleSignal env signal p w1 /\
  deref w1 p = Some c /\
  listenAddr (rtcpeer w1) = listenAddr (rtcpeer w).
Proof.
  unfold routed. intros H.
  destruct (Connections (rtcpeer w) !! Origin signal) as [q|] eqn:Hreg.
  - destruct (deref w q) as [d|] eqn:Hd; [|done].
    injection H as -> -> ->. by rewrite (httpHandleSDP_found _ _ _ _ Hreg).
  - destruct (newPeerConnection env) eqn:Hnew; [done|].
    injection H as <- <- <-.
    rewrite (httpHandleSDP_created _ _ _ Hreg Hnew).
    split; [done|]. split; [|done].
    rewrite deref_register. apply deref_allocate_new.
Qed.

Lemma handleSignal_Offer env signal p c w :
  Action signal = Offer -> deref w p = Some c -> state c = Standby ->
  handleSignal env signal p w =
    after [Log ["incoming call from "; Origin signal]]
      (applyRemoteSDP env signal p
         (update w p (attachedReceiver env signal
            (set_remoteAddr (Origin signal) (set_state Answering c))))).
Proof.
  intros HA H E. unfold handleSignal. erewrite bind_load by derefs. rewrite HA.
  rewrite decide_False by (intros ?; done).
  erewrite bind_modify by derefs. erewrite bind_modify by derefs.
  erewrite bind_load by derefs. fields. rewrite bind_log.
  erewrite bind_attachReceiver by derefs.
  by rewrite !(update_update _ _ _ _ _ H).
Qed.

Lemma handleSignal_Answer env signal p c w :
  Action signal = Answer -> deref w p = Some c -> state c = Ringing ->
  handleSignal env signal p w =
    after [Log ["answer from "; remoteAddr c]]
      (applyRemoteSDP env signal p (update w p (attachedReceiver env signal c))).
Proof.
  intros HA H E. unfold handleSignal. erewrite bind_load by derefs. rewrite HA.
  rewrite decide_False by (intros ?; done).
  rewrite bind_log. by erewrite bind_attachReceiver by derefs.
Qed.

(** C3 (as stated, refuted). Alice's connection to Bob is back in [Standby]
    after his refusal. An offer from Bob whose description cannot be applied
    is answered with a [Refuse], and leaves the connection in [Answering]. *)
Lemma rejected_Offer_changes_state :
  let offer := mkSignalSDP "offer-sdp" Offer TextConnection bob in
  let r := httpHandleSDP badRemoteSDP (inr offer) aliceRefused in
  state <$> registered aliceRefused bob = Some Standby /\
  trace r = [Log ["incoming call from "; bob];
             Log ["couldn't set remote sdp: "; "invalid description"];
             HttpPost (sdpURL bob)
               (PayloadSDP (mkSignalSDP "" Refuse TextConnection alice))] /\
  state <$> registered (world r) bob = Some Answering /\
  state <$> registered (world r) bob ≠ state <$> registered aliceRefused bob.
Proof. vm_compute. repeat split; try reflexivity. discriminate. Qed.

(** C3 (amended). When the description of an offer that finds its connection
    in [Standby] (the registered one, or the one created for it), or of an
    answer that finds its connection [Ringing], cannot be applied, the handler
    returns after logging the failure and, unless the refusal cannot be
    marshalled, posting a [Refuse] to the origin; no remote description is
    recorded. For an answer the state is the one before the message; for an
    offer it is [Answering], set before the description was applied. *)
Theorem rejected_description (env : Env) (signal : SignalSDP) (w w1 : World)
  (p : ptr) (c : Connection) (e : error) :
  routed env signal w = Some (p, c, w1) ->
  setRemoteDescription env = Some e ->
  (Action signal = Offer /\ state c = Standby) \/
  (Action signal = Answer /\ state c = Ringing) ->
  let r := httpHandleSDP env (inr signal) w in
  result r = Done tt /\
  (jsonMarshal env = None -> refusal w signal ∈ trace r) /\
  Log ["couldn't set remote sdp: "; e] ∈ trace r /\
  state <$> deref (world r) p =
    Some (if decide (Action signal = Offer) then Answering else state c) /\
  (remoteDescription ∘ peer) <$> deref (world r) p
    = Some (remoteDescription (peer c)).
Proof.
  intros Hr Hset Hcase r. subst r.
  destruct (httpHandleSDP_routed _ _ _ _ _ _ Hr) as (-> & H & Hla).
  destruct (attachedReceiver_fields env signal
              (set_remoteAddr (Origin signal) (set_state Answering c)))
    as (Es & _ & _ & Erd & _).
  destruct (attachedReceiver_fields env signal c) as (Es' & _ & _ & Erd' & _).
  fields.
  destruct Hcase as [[HA E]|[HA E]].
  - rewrite (handleSignal_Offer _ _ _ _ _ HA H E).
    rewrite (applyRemoteSDP_rejected _ _ _ _ _ Hset). rewrite after_mkRun.
    cbn [result world trace]. rewrite decide_True by done.
    erewrite deref_update by derefs. cbn [fmap option_fmap option_map compose].
    rewrite Es, Erd. repeat split.
    + intros Hm. unfold posting. rewrite Hm, rtcpeer_update, Hla.
      unfold refusal. set_solver.
    + set_solver.
  - rewrite (handleSignal_Answer _ _ _ _ _ HA H E).
    rewrite (applyRemoteSDP_rejected _ _ _ _ _ Hset). rewrite after_mkRun.
    cbn [result world trace]. rewrite decide_False by (rewrite HA; done).
    erewrite deref_update by derefs. cbn [fmap option_fmap option_map compose].
    rewrite Es', Erd'. repeat split.
    + intros Hm. unfold posting. rewrite Hm, rtcpeer_update, Hla.
      unfold refusal. set_solver.
    + set_solver.
Qed.

(** The statement at Alice's connection to Bob, in [Standby] after his
    refusal, for an offer from Bob that cannot be applied. *)
Lemma rejected_description_witness :
  let signal := mkSignalSDP "offer-sdp" Offer TextConnection bob in
  let c := mkConnection (mkPeerConnection None (Some "offer-sdp") 0 0 false) bob
             true TextConnection Standby [] (Some (mkDataChannel "data")) None in
  (routed badRemoteSDP signal aliceRefused = Some (addr 0, c, aliceRefused) /\
   setRemoteDescription badRemoteSDP = Some "invalid description" /\
   ((Action signal = Offer /\ state c = Standby) \/
    (Action signal = Answer /\ state c = Ringing))) /\
  let r := httpHandleSDP badRemoteSDP (inr signal) aliceRefused in
  result r = Done tt /\
  (jsonMarshal badRemoteSDP = None -> refusal aliceRefused signal ∈ trace r) /\
  Log ["couldn't set remote sdp: "; "invalid description"] ∈ trace r /\
  state <$> deref (world r) (addr 0) =
    Some (if decide (Action signal = Offer) then Answering else state c) /\
  (remoteDescription ∘ peer) <$> deref (world r) (addr 0)
    = Some (remoteDescription (peer c)).
Proof.
  intros signal c.
  split; [split; [vm_compute; reflexivity|split; [reflexivity|left; done]]|].
  apply (rejected_description badRemoteSDP signal aliceRefused aliceRefused
           (addr 0) c "invalid description");
    [vm_compute; reflexivity|reflexivity|left; done].
Defined.

(** ** The registry under the handlers *)

Lemma keeps_ret {A} (a : A) : keepsRegistry (ret a).
Proof. by intros w. Qed.

Lemma keeps_panic {A} e : keepsRegistry (@panic A e).
Proof. by intros w. Qed.

Lemma keeps_emit e : keepsRegistry (emit e).
Proof. by intros w. Qed.

Lemma keeps_log l : keepsRegistry (logPrintln l).
Proof. by intros w. Qed.

Lemma keeps_getListenAddr : keepsRegistry getListenAddr.
Proof. by intros w. Qed.

Lemma keeps_load p : keepsRegistry (load p).
Proof. intros w. unfold load. destruct p; [done|]. by destruct (heap w !! n). Qed.

Lemma keeps_modify p f : keepsRegistry (modify p f).
Proof. intros w. unfold modify. destruct p; [done|]. by destruct (heap w !! n). Qed.

Lemma keeps_bind {A B} (m : M A) (k : A -> M B) :
  keepsRegistry m -> (forall a, keepsRegistry (k a)) -> keepsRegistry (bind m k).
Proof.
  intros Hm Hk w. unfold bind. specialize (Hm w).
  destruct (m w) as [[a|e] w' t]; cbn [result world trace] in *; [|done].
  by rewrite Hk.
Qed.

Ltac keeps :=
  repeat first
    [ apply keeps_ret | apply keeps_panic | apply keeps_emit | apply keeps_log
    | apply keeps_getListenAddr | apply keeps_load | apply keeps_modify
    | assumption
    | apply keeps_bind; [|intros ?]
    | match goal with
      | |- keepsRegistry (match ?x with _ => _ end) => destruct x
      end ].

Lemma keeps_signalCandidate env k p c : keepsRegistry (signalCandidate env k p c).
Proof. unfold signalCandidate. keeps. Qed.

Lemma keeps_signalPending env k p cs : keepsRegistry (signalPending env k p cs).
Proof.
  revert k. induction cs as [|c cs IH]; intros k; cbn [signalPending].
  - keeps.
  - pose proof (keeps_signalCandidate env k p c). pose proof (IH (S k)). keeps.
Qed.

Lemma keeps_flushCandidates env p : keepsRegistry (flushCandidates env p).
Proof.
  unfold flushCandidates. apply keeps_bind; [keeps|intros c].
  apply keeps_bind; [apply keeps_signalPending|intros ?]. keeps.
Qed.

Lemma keeps_postSDP env remote signal : keepsRegistry (postSDP env remote signal).
Proof. unfold postSDP. keeps. Qed.

Lemma keeps_getAudio env p : keepsRegistry (getAudio env p).
Proof. unfold getAudio. keeps. Qed.

Lemma keeps_attachReceiver env signal p : keepsRegistry (attachReceiver env signal p).
Proof. unfold attachReceiver. pose proof (keeps_getAudio env p). keeps. Qed.

Lemma keeps_applyRemoteSDP env signal p : keepsRegistry (applyRemoteSDP env signal p).
Proof.
  unfold applyRemoteSDP.
  pose proof (keeps_flushCandidates env p).
  destruct (setRemoteDescription env).
  - apply keeps_bind; [keeps|intros ?]. apply keeps_bind; [keeps|intros ?].
    apply keeps_bind; [apply keeps_postSDP|intros ?]. keeps.
  - apply keeps_bind; [keeps|intros ?]. apply keeps_bind; [keeps|intros c].
    destruct (decide (state c = Answering)); [|done].
    apply keeps_bind; [keeps|intros ?].
    destruct (createAnswer env); [keeps|].
    apply keeps_bind; [apply keeps_postSDP|intros sent].
    destruct (negb sent); keeps.
Qed.

Lemma keeps_handleSignal env signal p : keepsRegistry (handleSignal env signal p).
Proof.
  unfold handleSignal.
  pose proof (keeps_attachReceiver env signal p).
  pose proof (keeps_applyRemoteSDP env signal p).
  keeps.
Qed.

Lemma httpHandleCandidate_world env body w :
  world (httpHandleCandidate env body w) = w.
Proof.
  unfold httpHandleCandidate. destruct body as [e|signal]; [done|].
  unfold bind at 1, mapLookup.
  destruct (Connections (rtcpeer w) !! CandidateOrigin signal) as [p|];
    cbn [result world trace negb]; [|done].
  unfold bind, load. destruct p as [|n]; [done|].
  destruct (heap w !! n); cbn [result world trace]; [|done].
  by destruct (addICECandidate env).
Qed.

(** C6 (as stated, refuted). An answer from an address Alice has no
    connection for adds an entry for that address to her registry. *)
Lemma unknown_Answer_adds_entry :
  let answer := mkSignalSDP "answer-sdp" Answer TextConnection mallory in
  let r := httpHandleSDP allGood (inr answer) (newWorld alice) in
  Connections (rtcpeer (newWorld alice)) !! mallory = None /\
  trace r = [Log ["answer from"; mallory; "but we weren't calling"]] /\
  Connections (rtcpeer (world r)) !! mallory = Some (addr 0) /\
  state <$> registered (world r) mallory = Some Standby.
Proof. vm_compute. repeat split; reflexivity. Qed.

(** C6 (amended). A session description from an address that has no
    connection registers a new connection under that address whatever its
    action is, provided the peer connection can be created; for every action
    but [Offer] the handler then logs one diagnostic and returns, the new
    connection staying registered in [Standby]. Nothing else adds an entry:
    when the peer connection cannot be created, when the origin has a
    connection, or when the body cannot be decoded the registry is as it was,
    and the candidate handler never changes the world, a candidate from an
    address that has no connection being logged and dropped. *)
Theorem entries_added_by_signals (env : Env) (w : World) :
  (forall signal,
     Connections (rtcpeer w) !! Origin signal = None ->
     newPeerConnection env = None ->
     let p := addr (length (heap w)) in
     let r := httpHandleSDP env (inr signal) w in
     Connections (rtcpeer (world r))
       = <[Origin signal := p]> (Connections (rtcpeer w)) /\
     (Action signal ≠ Offer ->
      exists line,
        r = mkRun (Done tt)
              (register (allocate w (freshConnection (Mode signal)))
                        (Origin signal) p)
              [Log line])) /\
  (forall signal e,
     Connections (rtcpeer w) !! Origin signal = None ->
     newPeerConnection env = Some e ->
     httpHandleSDP env (inr signal) w
       = mkRun (Done tt) w [Log ["couldn't create new connection:"; e]]) /\
  (forall signal,
     is_Some (Connections (rtcpeer w) !! Origin signal) ->
     rtcpeer (world (httpHandleSDP env (inr signal) w)) = rtcpeer w) /\
  (forall e,
     httpHandleSDP env (inl e) w
       = mkRun (Done tt) w [Log ["couldn't parse signal message from json: "; e]]) /\
  (forall body, world (httpHandleCandidate env body w) = w) /\
  (forall signal,
     Connections (rtcpeer w) !! CandidateOrigin signal = None ->
     httpHandleCandidate env (inr signal) w
       = mkRun (Done tt) w
           [Log ["got a candidate from"; CandidateOrigin signal;
                 "but wasn't expecting one"]]).
Proof.
  split_and!.
  - intros signal Hreg Hnew p r. subst p r.
    rewrite (httpHandleSDP_created _ _ _ Hreg Hnew).
    split; [by rewrite keeps_handleSignal|].
    intros HA.
    set (w1 := register _ _ _).
    assert (Hd : deref w1 (addr (length (heap w)))
                 = Some (freshConnection (Mode signal))).
    { unfold w1. rewrite deref_register. apply deref_allocate_new. }
    destruct (Action signal) as [| | |n] eqn:EA; [done| | |].
    + eexists. by erewrite handleSignal_not_ringing.
    + eexists. erewrite handleSignal_Refuse by done.
      by rewrite decide_False.
    + eexists. by erewrite handleSignal_unknown.
  - intros signal e. apply httpHandleSDP_not_created.
  - intros signal [p Hp]. rewrite (httpHandleSDP_found _ _ _ _ Hp).
    apply keeps_handleSignal.
  - done.
  - intros body. apply httpHandleCandidate_world.
  - intros signal H. unfold httpHandleCandidate.
    by rewrite (bind_mapLookup_None _ _ _ H).
Qed.

(** The statement at Alice's empty registry, for an answer and a candidate
    from an address she never dialed. *)
Lemma entries_added_by_signals_witness :
  let answer := mkSignalSDP "answer-sdp" Answer TextConnection mallory in
  let r := httpHandleSDP allGood (inr answer) (newWorld alice) in
  (Connections (rtcpeer (world r))
     = <[mallory := addr 0]> (Connections (rtcpeer (newWorld alice))) /\
   exists line,
     r = mkRun (Done tt)
           (register (allocate (newWorld alice) (freshConnection TextConnection))
                     mallory (addr 0))
           [Log line]) /\
  httpHandleCandidate allGood (inr (mkSignalCandidate "candidate-1" mallory))
    (newWorld alice)
    = mkRun (Done tt) (newWorld alice)
        [Log ["got a candidate from"; mallory; "but wasn't expecting one"]].
Proof.
  intros answer r.
  destruct (entries_added_by_signals allGood (newWorld alice))
    as (Hsdp & _ & _ & _ & _ & Hcand).
  split.
  - destruct (Hsdp answer) as [Hreg Hlog]; [reflexivity|reflexivity|].
    split; [exact Hreg|]. apply Hlog. discriminate.
  - apply (Hcand (mkSignalCandidate "candidate-1" mallory)). reflexivity.
Defined.

(** ** Candidates *)

Lemma signalCandidate_run env k p c cand w :
  deref w p = Some c ->
  signalCandidate env k p cand w =
    mkRun (Done (postError (candidatePost env k))) w [candidateRequest w c cand].
Proof.
  intros H. unfold signalCandidate. erewrite bind_load by derefs. run.
  unfold candidateRequest. by destruct (candidatePost env k) as [|[|]].
Qed.

Lemma handleICECandidate_run env p c cand w :
  deref w p = Some c ->
  handleICECandidate env p (Some cand) w =
    match remoteDescription (peer c) with
    | None =>
        mkRun (Done tt)
          (update w p (set_pendingCandidates (pendingCandidates c ++ [cand]) c)) []
    | Some _ =>
        mkRun (match postError (candidatePost env 0) with
               | Some e => Panic e
               | None => Done tt
               end) w [candidateRequest w c cand]
    end.
Proof.
  intros H. unfold handleICECandidate. erewrite bind_load by derefs.
  destruct (remoteDescription (peer c)).
  - erewrite bind_done by (by apply signalCandidate_run).
    by destruct (postError (candidatePost env 0)).
  - by erewrite modify_run by derefs.
Qed.

(** C4 (as stated, refuted). Alice is in a call with Bob, so his description
    is set; a candidate discovered now is posted at once, and when the post
    fails the handler panics with the error, no diagnostic being logged. *)
Lemma failed_candidate_post_panics :
  let r := handleICECandidate unreachable (addr 0) (Some "candidate-3")
             aliceInCall in
  (remoteDescription ∘ peer) <$> deref aliceInCall (addr 0)
    = Some (Some "answer-sdp") /\
  result r = Panic "connection refused" /\
  trace r = [HttpPost (candidateURL bob)
               (PayloadCandidate (mkSignalCandidate "candidate-3" alice))] /\
  filter isLog (trace r) = [].
Proof. vm_compute. repeat split; reflexivity. Qed.

(** C4 (amended). A discovered candidate is appended to the buffer, nothing
    being posted, when no remote description is set, and is posted at once,
    the buffer and the rest of the world staying as they are, when one is set.
    When that post (or the close of its response) fails the handler panics
    with the error and logs nothing; otherwise it returns. The [nil] candidate
    that ends gathering is ignored. *)
Theorem candidate_buffered_or_posted (env : Env) (w : World) (p : ptr)
  (c : Connection) (cand : ICECandidate) :
  deref w p = Some c ->
  let r := handleICECandidate env p (Some cand) w in
  (remoteDescription (peer c) = None ->
   r = mkRun (Done tt)
         (update w p (set_pendingCandidates (pendingCandidates c ++ [cand]) c))
         []) /\
  (remoteDescription (peer c) ≠ None ->
   world r = w /\
   trace r = [candidateRequest w c cand] /\
   result r = match postError (candidatePost env 0) with
              | Some e => Panic e
              | None => Done tt
              end) /\
  handleICECandidate env p None w = mkRun (Done tt) w [].
Proof.
  intros H r. subst r. rewrite (handleICECandidate_run _ _ _ _ _ H).
  destruct (remoteDescription (peer c)); split_and!; done.
Qed.

(** The statement at Alice's connection in a call, with Bob out of reach. *)
Lemma candidate_buffered_or_posted_witness :
  let c := mkConnection (mkPeerConnection (Some "answer-sdp") (Some "offer-sdp") 0 0 false)
             bob true TextConnection InCall ["candidate-1"; "candidate-2"]
             (Some (mkDataChannel "data")) None in
  deref aliceInCall (addr 0) = Some c /\
  let r := handleICECandidate unreachable (addr 0) (Some "candidate-3")
             aliceInCall in
  (remoteDescription (peer c) = None ->
   r = mkRun (Done tt)
         (update aliceInCall (addr 0)
            (set_pendingCandidates (pendingCandidates c ++ ["candidate-3"]) c))
         []) /\
  (remoteDescription (peer c) ≠ None ->
   world r = aliceInCall /\
   trace r = [candidateRequest aliceInCall c "candidate-3"] /\
   result r = match postError (candidatePost unreachable 0) with
              | Some e => Panic e
              | None => Done tt
              end) /\
  handleICECandidate unreachable (addr 0) None aliceInCall
    = mkRun (Done tt) aliceInCall [].
Proof.
  intros c. split; [vm_compute; reflexivity|].
  apply (candidate_buffered_or_posted unreachable aliceInCall (addr 0) c
           "candidate-3").
  vm_compute; reflexivity.
Defined.


Lemma candidatesPosted_requests w c cs :
  candidatesPosted (candidateRequest w c <$> cs) = cs.
Proof.
  induction cs as [|x cs IH]; [done|].
  cbn [fmap list_fmap]. unfold candidatesPosted in *. cbn [omap list_omap].
  unfold candidateRequest at 1. cbn [Candidate]. by rewrite IH.
Qed.


Lemma signalPending_ok env k p c cs w :
  deref w p = Some c ->
  (forall i, i < length cs -> candidatePost env (k + i) = PostDone None) ->
  signalPending env k p cs w = mkRun (Done None) w (candidateRequest w c <$> cs).
Proof.
  intros H. revert k. induction cs as [|x cs IH]; intros k Hok; [done|].
  cbn [signalPending].
  erewrite bind_done by (by apply signalCandidate_run).
  pose proof (Hok 0 ltac:(cbn; lia)) as H0. rewrite Nat.add_0_r in H0.
  rewrite H0. cbn [postError]. rewrite IH.
  - by rewrite after_mkRun.
  - intros i Hi. replace (S k + i) with (k + S i) by lia.
    apply Hok. cbn. lia.
Qed.

(** The first failing post ends the loop: the candidates after it are not
    posted. *)
Lemma signalPending_stops env k p c x cs w e :
  deref w p = Some c ->
  postError (candidatePost env k) = Some e ->
  signalPending env k p (x :: cs) w = mkRun (Done (Some e)) w [candidateRequest w c x].
Proof.
  intros H He. cbn [signalPending].
  erewrite bind_done by (by apply signalCandidate_run).
  rewrite He. unfold ret. rewrite after_mkRun. by rewrite app_nil_r.
Qed.

Lemma flushCandidates_ok env p c w :
  deref w p = Some c ->
  (forall i, i < length (pendingCandidates c) ->
             candidatePost env i = PostDone None) ->
  flushCandidates env p w =
    mkRun (Done tt) (update w p (set_state InCall c))
      (candidateRequest w c <$> pendingCandidates c).
Proof.
  intros H Hok. unfold flushCandidates. erewrite bind_load by derefs.
  erewrite bind_done by (by apply (signalPending_ok env 0 p c)).
  cbv beta iota. erewrite modify_run by derefs. rewrite after_mkRun. by rewrite app_nil_r.
Qed.





(** ** The streaming loops *)

Section Streaming.

Variables (env : Env) (p : ptr) (c : Connection) (w : World).
Hypothesis Hc : deref w p = Some c.
Hypothesis Hstate : state c = InCall.

Lemma Close_in_call :
  Close env p w = mkRun (Done (peerClose env p)) (closed w p c) (closing p c).
Proof. rewrite (Close_run _ _ _ _ Hc). rewrite decide_False; [done|]. by rewrite Hstate. Qed.

Lemma bind_Close_in_call {B} (k : option error -> M B) :
  bind (Close env p) k w = after (closing p c) (k (peerClose env p) (closed w p c)).
Proof. apply bind_Close; [done|]. by rewrite Hstate. Qed.

Section SendAudio.

Variable sndr : audioSender.
Hypothesis Hsndr : audioSndr c = Some sndr.
Hypothesis Hogg : ogg sndr = true.
Hypothesis Htrack : track sndr = true.

Lemma sendAudio_loop_streams good rest g :
  forallb (fun o => negb (pageFault o)) good = true ->
  sendAudio_loop env p g (good ++ rest) w =
    after (streamed p g good)
      (sendAudio_loop env p (granuleAfter g good) rest w).
Proof.
  revert g. induction good as [|o good IH]; intros g Hgood.
  - by rewrite after_nil.
  - cbn [forallb] in Hgood. apply andb_prop in Hgood as [Ho Hgood].
    destruct o as [| |data granule [|]]; try done.
    cbn [app sendAudio_loop streamed granuleAfter].
    erewrite bind_load by derefs.
    rewrite decide_False by (intros ?; done).
    rewrite Hsndr, Hogg, Htrack. cbn [negb]. run.
    rewrite IH by done. by rewrite after_after.
Qed.

Lemma sendAudio_loop_fault fault rest g :
  pageFault fault = true ->
  sendAudio_loop env p g (fault :: rest) w =
    mkRun (Done Returned) (closed w p c)
      (pageFaultEvents p g fault ++ closing p c).
Proof.
  intros Hf. cbn [sendAudio_loop].
  erewrite bind_load by derefs.
  rewrite decide_False by (intros ?; done).
  rewrite Hsndr, Hogg. cbn [negb].
  destruct fault as [|e|data granule [e|]]; try done;
    rewrite ?Htrack; cbn [negb]; run;
    rewrite bind_Close_in_call; run; unfold ret; rewrite after_mkRun;
    cbn [pageFaultEvents]; by rewrite app_nil_r.
Qed.

End SendAudio.

Lemma saveToDisk_loop_saves good rest :
  forallb (fun o => negb (packetFault o)) good = true ->
  saveToDisk_loop env p (good ++ rest) w =
    after (saved p good) (saveToDisk_loop env p rest w).
Proof.
  induction good as [|o good IH]; intros Hgood.
  - by rewrite after_nil.
  - cbn [forallb] in Hgood. apply andb_prop in Hgood as [Ho Hgood].
    destruct o as [|packet [|]]; try done.
    cbn [app saveToDisk_loop saved].
    erewrite bind_load by derefs.
    rewrite decide_False by (intros ?; done).
    run. rewrite IH by done. by rewrite after_after.
Qed.

Lemma saveToDisk_loop_fault fault rest :
  packetFault fault = true ->
  saveToDisk_loop env p (fault :: rest) w =
    mkRun (Done Returned) (closed w p c) (packetFaultEvents p fault ++ closing p c).
Proof.
  intros Hf. cbn [saveToDisk_loop].
  erewrite bind_load by derefs.
  rewrite decide_False by (intros ?; done).
  destruct fault as [e|packet [e|]]; try done;
    run; rewrite bind_Close_in_call; run; unfold ret; rewrite after_mkRun;
    cbn [packetFaultEvents]; by rewrite app_nil_r.
Qed.

End Streaming.

Lemma reads_streamed p g good :
  forallb (fun o => negb (pageFault o)) good = true ->
  length (filter isRead (streamed p g good)) = length good /\
  filter isClose (streamed p g good) = [].
Proof.
  revert g. induction good as [|o good IH]; intros g Hgood; [done|].
  cbn [forallb] in Hgood. apply andb_prop in Hgood as [Ho Hgood].
  destruct o as [| |data granule [|]]; try done. cbn [streamed].
  destruct (IH granule Hgood) as [IH1 IH2].
  rewrite filter_cons_True by done. rewrite filter_cons_False by (intros []).
  rewrite !filter_cons_False by (intros []). cbn [length]. by rewrite IH1, IH2.
Qed.

Lemma reads_saved p good :
  forallb (fun o => negb (packetFault o)) good = true ->
  length (filter isRead (saved p good)) = length good /\
  filter isClose (saved p good) = [].
Proof.
  induction good as [|o good IH]; intros Hgood; [done|].
  cbn [forallb] in Hgood. apply andb_prop in Hgood as [Ho Hgood].
  destruct o as [|packet [|]]; try done. cbn [saved].
  destruct (IH Hgood) as [IH1 IH2].
  rewrite filter_cons_True by done. rewrite filter_cons_False by (intros []).
  rewrite !filter_cons_False by (intros []). cbn [length]. by rewrite IH1, IH2.
Qed.

Lemma reads_pageFault p g fault :
  pageFault fault = true ->
  length (filter isRead (pageFaultEvents p g fault)) = 1 /\
  filter isClose (pageFaultEvents p g fault) = [].
Proof. by destruct fault as [| |? ? [|]]. Qed.

Lemma reads_packetFault p fault :
  packetFault fault = true ->
  length (filter isRead (packetFaultEvents p fault)) = 1 /\
  filter isClose (packetFaultEvents p fault) = [].
Proof. by destruct fault as [|? [|]]. Qed.

Lemma reads_writerClosing env p : filter isRead (writerClosing env p) = [].
Proof. unfold writerClosing. by destruct (writerClose env). Qed.

(** C9. In [sendAudio] and in [saveToDisk] the turn that meets the end of the
    source, a read error or a write error calls [Close] on the connection and
    returns: the world is the one [Close] leaves, the connection is [Closed],
    the trace ends with the events of that [Close] (followed, in
    [saveToDisk], by the deferred close of the writer), nothing was closed
    before, and the source was read once per turn up to and including the
    failing one. What the source would have given afterwards plays no part:
    the failed operation is not attempted again. [sendAudio] reads from the
    audio sender of the connection, which it needs to be loaded; [saveToDisk]
    needs nothing but the connection. *)
Theorem streaming_fault_closes_session (env : Env) (w : World) (p : ptr)
  (c : Connection)
  (pages laterPages : list PageOutcome) (badPage : PageOutcome)
  (packets laterPackets : list PacketOutcome) (badPacket : PacketOutcome) :
  deref w p = Some c ->
  state c = InCall ->
  forallb (fun o => negb (pageFault o)) pages = true ->
  pageFault badPage = true ->
  forallb (fun o => negb (packetFault o)) packets = true ->
  packetFault badPacket = true ->
  let closes := Close env p w in
  let sent := sendAudio env p (pages ++ badPage :: laterPages) w in
  let kept := saveToDisk env p (packets ++ badPacket :: laterPackets) w in
  (PeerClose p ∈ trace closes /\ state <$> deref (world closes) p = Some Closed) /\
  ((exists sndr, audioSndr c = Some sndr /\ ogg sndr = true /\ track sndr = true) ->
   result sent = Done Returned /\
   world sent = world closes /\
   (exists t, trace sent = t ++ trace closes /\
              length (filter isRead t) = S (length pages) /\
              filter isClose t = []) /\
   sent = sendAudio env p (pages ++ [badPage]) w) /\
  (result kept = Done Returned /\
   world kept = world closes /\
   (exists t, trace kept = t ++ trace closes ++ writerClosing env p /\
              length (filter isRead t) = S (length packets) /\
              filter isClose t = []) /\
   kept = saveToDisk env p (packets ++ [badPacket]) w).
Proof.
  intros H E Hpages Hpage Hpackets Hpacket closes sent kept.
  subst closes sent kept.
  rewrite (Close_in_call env p c w H E). cbn [result world trace].
  split; [split|split; [intros (sndr & Hs & Ho & Ht); split_and!|split_and!]].
  - unfold closing. set_solver.
  - by erewrite deref_closed by done.
  - unfold sendAudio. rewrite bind_log.
    rewrite (sendAudio_loop_streams env p c w H E sndr Hs Ho Ht) by done.
    by rewrite (sendAudio_loop_fault env p c w H E sndr Hs Ho Ht) by done.
  - unfold sendAudio. rewrite bind_log.
    rewrite (sendAudio_loop_streams env p c w H E sndr Hs Ho Ht) by done.
    by rewrite (sendAudio_loop_fault env p c w H E sndr Hs Ho Ht) by done.
  - unfold sendAudio. rewrite bind_log.
    rewrite (sendAudio_loop_streams env p c w H E sndr Hs Ho Ht) by done.
    rewrite (sendAudio_loop_fault env p c w H E sndr Hs Ho Ht) by done.
    rewrite !after_mkRun. cbn [trace].
    exists ([Log ["sending audio"]] ++ streamed p 0 pages
            ++ pageFaultEvents p (granuleAfter 0 pages) badPage).
    split; [by rewrite <- !app_assoc|].
    destruct (reads_streamed p 0%Z pages Hpages) as [R1 R2].
    destruct (reads_pageFault p (granuleAfter 0 pages) badPage Hpage) as [R3 R4].
    rewrite !filter_app, !length_app, R1, R2, R3, R4.
    rewrite filter_cons_False by (intros []).
    rewrite (filter_cons_False isClose) by (intros []).
    cbn. split; [lia|done].
  - unfold sendAudio. rewrite !bind_log.
    rewrite !(sendAudio_loop_streams env p c w H E sndr Hs Ho Ht) by done.
    by rewrite !(sendAudio_loop_fault env p c w H E sndr Hs Ho Ht) by done.
  - unfold saveToDisk. erewrite bind_done.
    2:{ rewrite (saveToDisk_loop_saves env p c w H E) by done.
        rewrite (saveToDisk_loop_fault env p c w H E) by done.
        apply after_mkRun. }
    run. by destruct (writerClose env).
  - unfold saveToDisk. erewrite bind_done.
    2:{ rewrite (saveToDisk_loop_saves env p c w H E) by done.
        rewrite (saveToDisk_loop_fault env p c w H E) by done.
        apply after_mkRun. }
    run. by destruct (writerClose env).
  - unfold saveToDisk. erewrite bind_done.
    2:{ rewrite (saveToDisk_loop_saves env p c w H E) by done.
        rewrite (saveToDisk_loop_fault env p c w H E) by done.
        apply after_mkRun. }
    exists (saved p packets ++ packetFaultEvents p badPacket).
    destruct (reads_saved p packets Hpackets) as [R1 R2].
    destruct (reads_packetFault p badPacket Hpacket) as [R3 R4].
    rewrite !filter_app, !length_app, R1, R2, R3, R4.
    split_and!; [|lia|done].
    run. unfold writerClosing.
    destruct (writerClose env); run; unfold ret; rewrite ?after_mkRun;
      cbn [trace]; rewrite <- ?app_assoc; cbn [app]; by rewrite ?app_nil_r.
  - unfold saveToDisk. erewrite !bind_done.
    2:{ rewrite (saveToDisk_loop_saves env p c w H E) by done.
        rewrite (saveToDisk_loop_fault env p c w H E) by done.
        apply after_mkRun. }
    2:{ rewrite (saveToDisk_loop_saves env p c w H E) by done.
        rewrite (saveToDisk_loop_fault env p c w H E) by done.
        apply after_mkRun. }
    done.
Qed.

(** The statement at the two ends of Alice's one-way voice call to Bob. At
    Alice, who sends, the audio source ends after two pages; at Bob, who
    receives and has no audio sender, the remote track fails after one
    packet. *)
Lemma streaming_fault_closes_session_witness :
  let cA := mkConnection (mkPeerConnection (Some "answer-sdp") (Some "offer-sdp") 1 0 false)
              bob true VoiceConnectionSimplex InCall []
              (Some (mkDataChannel "data")) (Some (mkAudioSender true true true)) in
  let cB := mkConnection (mkPeerConnection (Some "offer-sdp") (Some "answer-sdp") 0 1 true)
              alice false VoiceConnectionSimplex InCall [] None None in
  let pages := [PageRead "page-1" 960 None; PageRead "page-2" 1920 None] in
  let packets := [PacketRead "packet-1" None] in
  (deref aliceStreaming (addr 0) = Some cA /\
   deref bobReceiving (addr 0) = Some cB /\
   forallb (fun o => negb (pageFault o)) pages = true /\
   pageFault PageEOF = true /\
   forallb (fun o => negb (packetFault o)) packets = true /\
   packetFault (PacketError "EOF") = true) /\
  let sent := sendAudio allGood (addr 0)
                (pages ++ PageEOF :: [PageRead "page-3" 2880 None]) aliceStreaming in
  let kept := saveToDisk allGood (addr 0)
                (packets ++ PacketError "EOF" :: [PacketRead "packet-2" None])
                bobReceiving in
  (result sent = Done Returned /\
   world sent = world (Close allGood (addr 0) aliceStreaming)) /\
  (result kept = Done Returned /\
   world kept = world (Close allGood (addr 0) bobReceiving) /\
   state <$> deref (world kept) (addr 0) = Some Closed).
Proof.
  intros cA cB pages packets.
  split; [split_and!; vm_compute; reflexivity|].
  split.
  - destruct (streaming_fault_closes_session allGood aliceStreaming (addr 0) cA
                pages [PageRead "page-3" 2880%Z None] PageEOF
                packets [PacketRead "packet-2" None] (PacketError "EOF"))
      as (_ & Hsent & _); try (vm_compute; reflexivity).
    destruct Hsent as (S1 & S2 & _).
    { exists (mkAudioSender true true true). by split_and!. }
    by split.
  - destruct (streaming_fault_closes_session allGood bobReceiving (addr 0) cB
                pages [PageRead "page-3" 2880%Z None] PageEOF
                packets [PacketRead "packet-2" None] (PacketError "EOF"))
      as ((_ & Hclosed) & _ & (K1 & K2 & _)); try (vm_compute; reflexivity).
    split_and!; [assumption|assumption|].
    exact (eq_trans (f_equal (fun x => state <$> deref x (addr 0)) K2) Hclosed).
Defined.

(** * Further properties of the code *)

Ltac runs :=
  repeat first
    [ progress run | rewrite bind_assoc | progress cbv beta iota
    | progress cbn [negb] ].

(** ** More on the heap *)

Lemma update_allocate w c c' :
  update (allocate w c) (addr (length (heap w))) c' = allocate w c'.
Proof.
  unfold update, allocate. cbn [heap rtcpeer]. f_equal.
  rewrite insert_app_r_alt by lia. by rewrite Nat.sub_diag.
Qed.

Lemma update_register w k q p c :
  update (register w k q) p c = register (update w p c) k q.
Proof. by destruct p. Qed.

Lemma update_unregister w k p c :
  update (unregister w k) p c = unregister (update w p c) k.
Proof. by destruct p. Qed.

Lemma deref_allocate w c p x :
  deref w p = Some x -> deref (allocate w c) p = Some x.
Proof.
  destruct p as [|n]; [done|]. unfold deref, allocate. cbn [heap]. intros H.
  rewrite lookup_app_l; [done|]. by eapply lookup_lt_Some.
Qed.

(** ** [loadAudio] *)

Lemma loadAudio_run env p c fname w :
  deref w p = Some c ->
  loadAudio env p fname w =
    mkRun (Done (loadAudioError env)) (update w p (loadedAudio env c)) [].
Proof.
  intros H. unfold loadAudio, loadAudioError, loadedAudio.
  erewrite bind_modify by derefs.
  destruct (newTrackLocalStaticSample env); [done|].
  erewrite bind_modify by derefs. rewrite (update_update _ _ _ _ _ H).
  destruct (addTrack env); [done|].
  erewrite bind_modify by derefs. erewrite bind_modify by derefs.
  rewrite !(update_update _ _ _ _ _ H). fields.
  destruct (osOpen env); [done|].
  destruct (oggreaderNewWith env); [done|].
  erewrite bind_modify by derefs. by rewrite (update_update _ _ _ _ _ H).
Qed.

(** ** [Ring], path by path *)

Lemma Ring_taken env remote mode p w :
  Connections (rtcpeer w) !! remote = Some p ->
  Ring env remote mode w =
    mkRun (Done nil) w [Log ["you are already connected to"; remote]].
Proof.
  intros H. unfold Ring. rewrite (bind_mapLookup_Some _ _ _ _ H).
  cbv beta iota. by run.
Qed.

Lemma Ring_run env remote mode w :
  Connections (rtcpeer w) !! remote = None ->
  dials env mode = true ->
  let p := addr (length (heap w)) in
  Ring env remote mode w =
    mkRun (Done p) (register (allocate w (dialed env remote mode)) remote p)
      [Log ["dialing"; remote]; offering env w remote mode].
Proof.
  intros Hreg Hd p. subst p. unfold dials in Hd.
  destruct (newPeerConnection env) eqn:Hnew; [done|].
  destruct (createDataChannel env) eqn:Hdc; [done|].
  destruct (if isVoice mode then loadAudioError env else None) eqn:Hload; [done|].
  destruct (createOffer env) as [|sdp] eqn:Hoffer; [done|].
  destruct (setLocalDescription env) eqn:Hlocal; [done|].
  destruct (jsonMarshal env) eqn:Hjson; [done|].
  destruct (httpPost env) as [|[|]] eqn:Hpost; try done.
  unfold Ring. rewrite (bind_mapLookup_None _ _ _ Hreg). cbv beta iota.
  unfold newConnection. rewrite Hnew, Hdc, Hoffer, Hlocal, Hjson, Hpost.
  rewrite bind_assoc. run. cbv beta iota. run.
  fold (freshConnection mode).
  set (p := addr (length (heap w))).
  assert (Hp : deref (allocate w (freshConnection mode)) p
               = Some (freshConnection mode)) by apply deref_allocate_new.
  rewrite !(update_update _ _ _ _ _ Hp).
  unfold offering, dialed, offered. rewrite Hoffer.
  destruct mode; cbn [isVoice] in *.
  - run. cbn [negb]. run. unfold ret.
    rewrite !update_register, !(update_update _ _ _ _ _ Hp).
    unfold p. rewrite !update_allocate, after_mkRun, app_nil_r. reflexivity.
  - rewrite bind_assoc.
    erewrite bind_done by (apply loadAudio_run; derefs).
    rewrite Hload. run. cbn [negb]. run. unfold ret.
    rewrite !update_register, !(update_update _ _ _ _ _ Hp).
    unfold p. rewrite !update_allocate, after_mkRun, app_nil_r.
    unfold loadAudioError in Hload. unfold loadedAudio.
    destruct (newTrackLocalStaticSample env); [done|].
    destruct (addTrack env); [done|].
    destruct (osOpen env); [done|].
    destruct (oggreaderNewWith env); [done|]. reflexivity.
  - rewrite bind_assoc.
    erewrite bind_done by (apply loadAudio_run; derefs).
    rewrite Hload. run. cbn [negb]. run. unfold ret.
    rewrite !update_register, !(update_update _ _ _ _ _ Hp).
    unfold p. rewrite !update_allocate, after_mkRun, app_nil_r.
    unfold loadAudioError in Hload. unfold loadedAudio.
    destruct (newTrackLocalStaticSample env); [done|].
    destruct (addTrack env); [done|].
    destruct (osOpen env); [done|].
    destruct (oggreaderNewWith env); [done|]. reflexivity.
  - run. cbn [negb]. run. unfold ret.
    rewrite !update_register, !(update_update _ _ _ _ _ Hp).
    unfold p. rewrite !update_allocate, after_mkRun, app_nil_r. reflexivity.
Qed.

Lemma loadedAudio_fields env c :
  let c' := loadedAudio env c in
  state c' = state c /\ remoteAddr c' = remoteAddr c /\
  pendingCandidates c' = pendingCandidates c /\ dataChan c' = dataChan c /\
  mode c' = mode c /\ isInitiator c' = isInitiator c /\
  remoteDescription (peer c') = remoteDescription (peer c).
Proof.
  unfold loadedAudio.
  by destruct (newTrackLocalStaticSample env), (addTrack env), (osOpen env),
    (oggreaderNewWith env).
Qed.

Lemma Ring_nil env remote mode w :
  Connections (rtcpeer w) !! remote = None ->
  dials env mode = false ->
  result (Ring env remote mode w) = Done nil.
Proof.
  intros Hreg Hd. unfold dials in Hd.
  unfold Ring. rewrite (bind_mapLookup_None _ _ _ Hreg). cbv beta iota.
  unfold newConnection.
  destruct (newPeerConnection env) eqn:Hnew; [by run|].
  rewrite bind_assoc. run. cbv beta iota. run.
  fold (freshConnection mode).
  set (p := addr (length (heap w))).
  assert (Hp : deref (allocate w (freshConnection mode)) p
               = Some (freshConnection mode)) by apply deref_allocate_new.
  destruct (createDataChannel env) eqn:Hdc.
  { run. erewrite Ring_fail_run; [done|derefs|done]. }
  assert (Hrest : forall w1 c1,
    deref w1 p = Some c1 -> state c1 ≠ Closed ->
    (if isVoice mode then loadAudioError env else None) = None ->
    result (bind getListenAddr (fun origin =>
      match createOffer env with
      | inl e => bind (logPrintln ["unable to create offer: "; e])
                   (fun _ => Ring_fail env p)
      | inr sdp =>
          match setLocalDescription env with
          | Some e => bind (logPrintln ["unable to set local description: "; e])
                        (fun _ => Ring_fail env p)
          | None =>
              bind (modify p (set_peer (set_localDescription sdp))) (fun _ =>
              match jsonMarshal env with
              | Some e => bind (logPrintln ["unable to marshal offer into json: "; e])
                            (fun _ => Ring_fail env p)
              | None =>
                  bind (modify p (set_remoteAddr remote)) (fun _ =>
                  bind (modify p (set_state Ringing)) (fun _ =>
                  bind (logPrintln ["dialing"; remote]) (fun _ =>
                  bind (emit (HttpPost (sdpURL remote)
                          (PayloadSDP (mkSignalSDP sdp Offer mode origin)))) (fun _ =>
                  match httpPost env with
                  | PostFails e =>
                      bind (logPrintln ["unable to dial"; remote; "conn: "; e])
                        (fun _ => Ring_fail env p)
                  | PostDone (Some e) =>
                      bind (logPrintln ["unable to close response: "; e])
                        (fun _ => Ring_fail env p)
                  | PostDone None => ret p
                  end))))
              end)
          end
      end) w1) = Done nil).
  { intros w1 c1 H1 E1 Hload. rewrite Hload in Hd. run.
    destruct (createOffer env).
    { run. erewrite Ring_fail_run; [done|derefs|done]. }
    destruct (setLocalDescription env).
    { run. erewrite Ring_fail_run; [done|derefs|done]. }
    run.
    destruct (jsonMarshal env).
    { run. erewrite Ring_fail_run; [done|derefs|done]. }
    run.
    destruct (httpPost env) as [|[|]]; [| |done].
    - run. erewrite Ring_fail_run; [done|derefs|done].
    - run. erewrite Ring_fail_run; [done|derefs|done]. }
  destruct mode; cbn [isVoice] in *.
  - runs. eapply Hrest; [derefs|done|done].
  - rewrite bind_assoc. erewrite bind_done by (apply loadAudio_run; derefs).
    runs. destruct (loadAudioError env) eqn:Hload.
    + runs.
      erewrite Ring_fail_run; [done|derefs|].
      destruct (loadedAudio_fields env
        (set_dataChan (Some (mkDataChannel "data"))
           (set_isInitiator true (freshConnection VoiceConnectionSimplex))))
        as (-> & _). done.
    + runs. eapply Hrest; [derefs| |done].
      destruct (loadedAudio_fields env
        (set_dataChan (Some (mkDataChannel "data"))
           (set_isInitiator true (freshConnection VoiceConnectionSimplex))))
        as (-> & _). done.
  - rewrite bind_assoc. erewrite bind_done by (apply loadAudio_run; derefs).
    runs. destruct (loadAudioError env) eqn:Hload.
    + runs.
      erewrite Ring_fail_run; [done|derefs|].
      destruct (loadedAudio_fields env
        (set_dataChan (Some (mkDataChannel "data"))
           (set_isInitiator true (freshConnection VoiceConnectionDuplex))))
        as (-> & _). done.
    + runs. eapply Hrest; [derefs| |done].
      destruct (loadedAudio_fields env
        (set_dataChan (Some (mkDataChannel "data"))
           (set_isInitiator true (freshConnection VoiceConnectionDuplex))))
        as (-> & _). done.
  - runs. eapply Hrest; [derefs|done|done].
Qed.

(** X1. [Ring] to an address that has no entry never panics, and returns a
    connection exactly when every external call on its way succeeds; the
    connection is then the newly allocated one, registered under the dialed
    address, [Ringing], initiator, with its local description set, and the
    trace holds one request: the offer, carrying the mode and the listen
    address, posted to the remote's [/sdp]. In every other case it returns
    [nil]. *)
Theorem Ring_dials (env : Env) (remote : string) (mode : ConnectionMode)
  (w : World) :
  Connections (rtcpeer w) !! remote = None ->
  let r := Ring env remote mode w in
  let p := addr (length (heap w)) in
  result r = Done (if dials env mode then p else nil) /\
  (dials env mode = true ->
   world r = register (allocate w (dialed env remote mode)) remote p /\
   trace r = [Log ["dialing"; remote]; offering env w remote mode] /\
   registered (world r) remote = Some (dialed env remote mode)).
Proof.
  intros Hreg r p. subst r p.
  destruct (dials env mode) eqn:Hd.
  - rewrite (Ring_run _ _ _ _ Hreg Hd). cbn [result world trace].
    split; [done|]. intros _. split_and!; try done.
    unfold registered. rewrite Connections_register, lookup_insert_eq.
    apply (deref_allocate_new w).
  - split; [by apply Ring_nil|done].
Qed.

(** The statement for Alice dialing Bob for a two-way voice call. *)
Lemma Ring_dials_witness :
  Connections (rtcpeer (newWorld alice)) !! bob = None /\
  let r := Ring allGood bob VoiceConnectionDuplex (newWorld alice) in
  let p := addr (length (heap (newWorld alice))) in
  result r = Done (if dials allGood VoiceConnectionDuplex then p else nil) /\
  (dials allGood VoiceConnectionDuplex = true ->
   world r = register (allocate (newWorld alice)
                         (dialed allGood bob VoiceConnectionDuplex)) bob p /\
   trace r = [Log ["dialing"; bob];
              offering allGood (newWorld alice) bob VoiceConnectionDuplex] /\
   registered (world r) bob = Some (dialed allGood bob VoiceConnectionDuplex)).
Proof.
  split; [reflexivity|].
  apply (Ring_dials allGood bob VoiceConnectionDuplex (newWorld alice)).
  reflexivity.
Defined.

(** X2. Dialing an address a second time is refused: when [Ring] has
    returned a connection, a later [Ring] to the same address, in any mode and
    whatever the outside world does, returns [nil], logs that the address is
    already connected and leaves the world, the first connection included, as
    it was. *)
Theorem Ring_again_refused (env1 env2 : Env) (remote : string)
  (mode1 mode2 : ConnectionMode) (w : World) :
  result (Ring env1 remote mode1 w) ≠ Done nil ->
  let w1 := world (Ring env1 remote mode1 w) in
  Ring env2 remote mode2 w1 =
    mkRun (Done nil) w1 [Log ["you are already connected to"; remote]].
Proof.
  intros Hres w1. subst w1.
  destruct (Connections (rtcpeer w) !! remote) as [q|] eqn:Hreg.
  { by rewrite (Ring_taken _ _ _ _ _ Hreg) in Hres. }
  destruct (dials env1 mode1) eqn:Hd.
  - rewrite (Ring_run _ _ _ _ Hreg Hd). cbn [world].
    eapply Ring_taken. rewrite Connections_register. apply lookup_insert_eq.
  - by rewrite (Ring_nil _ _ _ _ Hreg Hd) in Hres.
Qed.

(** The statement for Alice dialing Bob twice, Bob being out of reach the
    second time. *)
Lemma Ring_again_refused_witness :
  result (Ring allGood bob TextConnection (newWorld alice)) ≠ Done nil /\
  Ring unreachable bob VoiceConnectionSimplex aliceRinging =
    mkRun (Done nil) aliceRinging [Log ["you are already connected to"; bob]].
Proof.
  split; [vm_compute; discriminate|].
  apply (Ring_again_refused allGood unreachable bob TextConnection
           VoiceConnectionSimplex (newWorld alice)).
  vm_compute; discriminate.
Defined.

(** ** [HangUp] *)

(** The diagnostic [HangUp] adds when the peer connection fails to close. *)
Lemma HangUp_run env remote p c w :
  Connections (rtcpeer w) !! remote = Some p ->
  deref w p = Some c ->
  state c ≠ Closed ->
  HangUp env remote w =
    mkRun (Done tt) (closed w p c)
      (closing p c ++
       match peerClose env p with
       | Some e => [Log ["unable to close peer connection: "; e]]
       | None => []
       end).
Proof.
  intros Hreg H E. unfold HangUp. rewrite (bind_mapLookup_Some _ _ _ _ Hreg).
  cbv beta iota. cbn [negb]. erewrite bind_Close by done.
  destruct (peerClose env p); [done|].
  unfold ret. by rewrite after_mkRun.
Qed.

(** X3. Dialing and hanging up is a round trip on the registry: when [Ring]
    has returned a connection, [HangUp] of the dialed address returns with the
    registry exactly as it was before the call, the connection [Closed], its
    data channel and its peer connection each closed once, and every older
    connection untouched. *)
Theorem Ring_then_HangUp (env1 env2 : Env) (remote : string)
  (mode : ConnectionMode) (w : World) :
  result (Ring env1 remote mode w) ≠ Done nil ->
  let p := addr (length (heap w)) in
  let r := HangUp env2 remote (world (Ring env1 remote mode w)) in
  result r = Done tt /\
  Connections (rtcpeer (world r)) = Connections (rtcpeer w) /\
  listenAddr (rtcpeer (world r)) = listenAddr (rtcpeer w) /\
  state <$> deref (world r) p = Some Closed /\
  filter isClose (trace r) = [DataChanClose p; PeerClose p] /\
  (forall q x, deref w q = Some x -> deref (world r) q = Some x).
Proof.
  intros Hres p r. subst r.
  destruct (Connections (rtcpeer w) !! remote) as [q|] eqn:Hreg.
  { by rewrite (Ring_taken _ _ _ _ _ Hreg) in Hres. }
  destruct (dials env1 mode) eqn:Hd.
  2:{ by rewrite (Ring_nil _ _ _ _ Hreg Hd) in Hres. }
  rewrite (Ring_run _ _ _ _ Hreg Hd). cbn [world].
  set (w1 := register _ _ _).
  assert (H1 : deref w1 p = Some (dialed env1 remote mode)).
  { unfold w1. rewrite deref_register. apply deref_allocate_new. }
  erewrite HangUp_run; [|by apply lookup_insert_eq|exact H1|done].
  cbn [result world trace]. split_and!.
  - done.
  - unfold closed. rewrite Connections_unregister, rtcpeer_update.
    unfold w1. rewrite Connections_register. cbn [remoteAddr dialed].
    rewrite delete_insert_eq. by apply delete_id.
  - done.
  - by erewrite deref_closed by done.
  - unfold closing. cbn [dataChan dialed].
    by destruct (peerClose env2 _).
  - intros q x Hq. unfold closed. rewrite deref_unregister.
    assert (Hne : p ≠ q).
    { intros <-. unfold p in Hq. cbn in Hq.
      apply lookup_lt_Some in Hq. lia. }
    rewrite (deref_update_ne _ _ _ _ Hne).
    unfold w1. rewrite deref_register. by apply deref_allocate.
Qed.

(** The statement for Alice dialing Bob and hanging up. *)
Lemma Ring_then_HangUp_witness :
  result (Ring allGood bob VoiceConnectionSimplex (newWorld alice)) ≠ Done nil /\
  let w := newWorld alice in
  let p := addr (length (heap w)) in
  let r := HangUp allGood bob (world (Ring allGood bob VoiceConnectionSimplex w)) in
  result r = Done tt /\
  Connections (rtcpeer (world r)) = Connections (rtcpeer w) /\
  listenAddr (rtcpeer (world r)) = listenAddr (rtcpeer w) /\
  state <$> deref (world r) p = Some Closed /\
  filter isClose (trace r) = [DataChanClose p; PeerClose p] /\
  (forall q x, deref w q = Some x -> deref (world r) q = Some x).
Proof.
  split; [vm_compute; discriminate|].
  apply (Ring_then_HangUp allGood allGood bob VoiceConnectionSimplex
           (newWorld alice)).
  vm_compute; discriminate.
Defined.

Lemma HangUp_Closed env remote p c w :
  Connections (rtcpeer w) !! remote = Some p ->
  deref w p = Some c ->
  state c = Closed ->
  HangUp env remote w = mkRun (Done tt) w [].
Proof.
  intros Hreg H E. unfold HangUp. rewrite (bind_mapLookup_Some _ _ _ _ Hreg).
  cbv beta iota. cbn [negb].
  erewrite bind_done.
  2:{ rewrite (Close_run _ _ _ _ H). by rewrite decide_True. }
  by rewrite after_nil.
Qed.

(** X4. [HangUp] by cases. An address that has no entry gives one diagnostic
    and no change. An entry whose connection is already [Closed] gives nothing
    at all: the entry stays. An entry whose connection is open is closed: the
    connection becomes [Closed], the entry under its own [remoteAddr] goes,
    and when that is not the address hung up (it was never set), the entry
    under the address hung up stays. *)
Theorem HangUp_cases (env : Env) (remote : string) (w : World) :
  (Connections (rtcpeer w) !! remote = None ->
   HangUp env remote w = mkRun (Done tt) w [Log ["not connected to"; remote]]) /\
  (forall p c,
     Connections (rtcpeer w) !! remote = Some p ->
     deref w p = Some c ->
     let r := HangUp env remote w in
     (state c = Closed -> r = mkRun (Done tt) w []) /\
     (state c ≠ Closed ->
      result r = Done tt /\
      world r = closed w p c /\
      state <$> deref (world r) p = Some Closed /\
      Connections (rtcpeer (world r)) !! remoteAddr c = None /\
      (remoteAddr c ≠ remote ->
       Connections (rtcpeer (world r)) !! remote = Some p))).
Proof.
  split.
  - intros H. unfold HangUp. by rewrite (bind_mapLookup_None _ _ _ H).
  - intros p c Hreg H r. subst r. split; intros E.
    + by eapply HangUp_Closed.
    + rewrite (HangUp_run _ _ _ _ _ Hreg H E). cbn [result world].
      erewrite deref_closed by done.
      split_and!; try done.
      * unfold closed. rewrite Connections_unregister. apply lookup_delete_eq.
      * intros Hne. unfold closed.
        rewrite Connections_unregister, rtcpeer_update.
        by rewrite lookup_delete_ne.
Qed.

(** The statement at Alice's registry after an answer nobody asked for: the
    connection made for it has no [remoteAddr], and hanging up leaves the
    entry. *)
Lemma HangUp_cases_witness :
  HangUp allGood bob aliceSurprised
    = mkRun (Done tt) aliceSurprised [Log ["not connected to"; bob]] /\
  Connections
    (rtcpeer (world (HangUp allGood mallory aliceSurprised))) !! mallory
    = Some (addr 0).
Proof.
  destruct (HangUp_cases allGood bob aliceSurprised) as [Hnone _].
  destruct (HangUp_cases allGood mallory aliceSurprised) as [_ Hsome].
  split; [apply Hnone; reflexivity|].
  destruct (Hsome (addr 0) (freshConnection TextConnection)) as [_ Hopen];
    [reflexivity|reflexivity|].
  destruct Hopen as (_ & _ & _ & _ & Hstays); [discriminate|].
  apply Hstays. discriminate.
Defined.

(** X5. An address whose dialing failed before the offer was sent is
    blocked for good: with the entry [Ring] left behind for it, [HangUp] of the
    address does nothing and a new [Ring] to it is refused, the world staying
    as it is in both cases. *)
Theorem failed_dial_blocks_address (env env' : Env) (remote : string)
  (mode mode' : ConnectionMode) (w : World) (e : error) :
  Connections (rtcpeer w) !! remote = None ->
  newPeerConnection env = None ->
  createDataChannel env = Some e ->
  remote ≠ "" ->
  let w1 := world (Ring env remote mode w) in
  HangUp env' remote w1 = mkRun (Done tt) w1 [] /\
  Ring env' remote mode' w1 =
    mkRun (Done nil) w1 [Log ["you are already connected to"; remote]].
Proof.
  intros Hreg Hnew Hdc Hne w1.
  destruct (Ring_without_data_channel env remote mode w e Hreg Hnew Hdc Hne)
    as (_ & Hentry & Hstate).
  fold w1 in Hentry, Hstate.
  destruct (deref w1 (addr (length (heap w)))) as [c|] eqn:Hc; [|done].
  injection Hstate as Hstate.
  split.
  - by eapply HangUp_Closed.
  - by eapply Ring_taken.
Qed.

(** The statement for Alice dialing Bob with no data channel to be had. *)
Lemma failed_dial_blocks_address_witness :
  let env := mkEnv None (Some "no data channel") None None None None None None
               (inr "offer-sdp") (inr "answer-sdp") None None None
               (PostDone None) (fun _ => PostDone None) None (fun _ => None)
               (fun _ => None) None in
  let w1 := world (Ring env bob TextConnection (newWorld alice)) in
  HangUp allGood bob w1 = mkRun (Done tt) w1 [] /\
  Ring allGood bob VoiceConnectionSimplex w1 =
    mkRun (Done nil) w1 [Log ["you are already connected to"; bob]].
Proof.
  intros env.
  apply (failed_dial_blocks_address env allGood bob TextConnection
           VoiceConnectionSimplex (newWorld alice) "no data channel");
    [reflexivity|reflexivity|reflexivity|discriminate].
Defined.

(** ** The callbacks *)

Lemma set_state_same c : set_state (state c) c = c.
Proof. by destruct c. Qed.

(** X6. The connection-state callback, for a live connection. [connected]
    sets the state to [InCall] whatever it was, [Closed] included, and starts
    [sendAudio] exactly for a two-way voice call or for the initiator of a
    one-way one. [failed] and [disconnected] do what [Close] does and leave the
    state [Closed]. [closed] only sets the state: the registry keeps the entry
    and no handle is closed. [new] and [connecting] only log. *)
Theorem state_change_callback (env : Env) (p : ptr) (c : Connection) (w : World) :
  deref w p = Some c ->
  let line s := Log ["peer connection state has changed: ";
                     PeerConnectionState_String s] in
  handleConnectionStateChange env p PeerConnectionStateConnected w =
    mkRun (Done tt) (update w p (set_state InCall c))
      (line PeerConnectionStateConnected ::
       if spawnsAudio c then [GoSendAudio p] else []) /\
  (forall s, s = PeerConnectionStateFailed \/ s = PeerConnectionStateDisconnected ->
     let r := handleConnectionStateChange env p s w in
     result r = Done tt /\
     world r = world (Close env p w) /\
     trace r = line s :: trace (Close env p w) /\
     state <$> deref (world r) p = Some Closed) /\
  handleConnectionStateChange env p PeerConnectionStateClosed w =
    mkRun (Done tt) (update w p (set_state Closed c))
      [line PeerConnectionStateClosed] /\
  (forall s, s = PeerConnectionStateNew \/ s = PeerConnectionStateConnecting ->
     handleConnectionStateChange env p s w = mkRun (Done tt) w [line s]).
Proof.
  intros H line. subst line. split_and!.
  - unfold handleConnectionStateChange, spawnsAudio. run. fields.
    destruct (mode c); try done. by destruct (isInitiator c).
  - intros s Hs r. subst r.
    assert (Hrun : handleConnectionStateChange env p s w =
      after [Log ["peer connection state has changed: ";
                  PeerConnectionState_String s]]
        (bind (Close env p) (fun _ => modify p (set_state Closed)) w)).
    { by destruct Hs as [-> | ->]. }
    rewrite Hrun. rewrite (Close_run _ _ _ _ H).
    destruct (decide (state c = Closed)) as [E|E].
    + erewrite bind_done.
      2:{ rewrite (Close_run _ _ _ _ H). by rewrite decide_True. }
      erewrite modify_run by derefs. rewrite <- E, set_state_same.
      rewrite (update_id _ _ _ H). cbn [result world trace after app].
      rewrite H. cbn. by rewrite E.
    + erewrite bind_Close by done.
      erewrite modify_run by (by apply deref_closed).
      cbn [result world trace after app].
      rewrite update_id by (rewrite (deref_closed _ _ _ H); reflexivity).
      rewrite (deref_closed _ _ _ H). by rewrite app_nil_r.
  - unfold handleConnectionStateChange. run.
    erewrite modify_run by derefs. by rewrite after_mkRun.
  - by intros s [-> | ->].
Qed.

(** The statement at Alice's connection after she hung up: a late
    [connected] puts the closed connection back in call. *)
Lemma state_change_callback_witness :
  let w := world (HangUp allGood bob aliceRinging) in
  state <$> deref w (addr 0) = Some Closed /\
  state <$> deref
    (world (handleConnectionStateChange allGood (addr 0)
              PeerConnectionStateConnected w)) (addr 0) = Some InCall.
Proof.
  intros w. split; [vm_compute; reflexivity|].
  destruct (state_change_callback allGood (addr 0)
    (mkConnection (mkPeerConnection None (Some "offer-sdp") 0 0 false) bob true
       TextConnection Closed [] (Some (mkDataChannel "data")) None) w)
    as (Hc & _); [vm_compute; reflexivity|].
  rewrite Hc. vm_compute. reflexivity.
Defined.

(** ** Descriptions that go through *)

Lemma candidateRequest_update w p c' c x :
  candidateRequest (update w p c') c x = candidateRequest w c x.
Proof. unfold candidateRequest. by rewrite rtcpeer_update. Qed.

Lemma applyRemoteSDP_run env signal p c w :
  deref w p = Some c ->
  goesThrough env c (bool_decide (state c = Answering)) ->
  applyRemoteSDP env signal p w =
    mkRun (Done tt) (update w p (accepted env signal c))
      ((if decide (state c = Answering) then [answering env w c] else [])
       ++ (candidateRequest w c <$> pendingCandidates c)).
Proof.
  intros H (Hset & Hans & Hok).
  unfold applyRemoteSDP, accepted, answering, answered. rewrite Hset.
  erewrite bind_modify by derefs. erewrite bind_load by derefs. fields.
  set (c1 := set_peer (set_remoteDescription (SDP signal)) c).
  destruct (decide (state c = Answering)) as [E|E].
  - rewrite bool_decide_eq_true_2 in Hans by done.
    destruct Hans as ([sdp Hsdp] & Hdel & Hloc); [done|].
    rewrite Hsdp. rewrite bind_getListenAddr.
    erewrite bind_done by apply postSDP_run. rewrite Hdel, Hloc. cbn [negb].
    erewrite bind_modify by derefs.
    rewrite (update_update _ _ _ _ _ H).
    erewrite flushCandidates_ok; [|derefs|exact Hok].
    rewrite after_mkRun, (update_update _ _ _ _ _ H).
    unfold posting. unfold delivered in Hdel.
    destruct (jsonMarshal env); [done|].
    destruct (httpPost env) as [|[|]]; try done.
    rewrite rtcpeer_update. fields.
    f_equal. f_equal. apply list_fmap_ext. intros i x _.
    by rewrite candidateRequest_update.
  - erewrite flushCandidates_ok; [|derefs|exact Hok].
    rewrite (update_update _ _ _ _ _ H). fields.
    f_equal. cbn [app]. apply list_fmap_ext. intros i x _.
    by rewrite candidateRequest_update.
Qed.

(** An offer that finds its connection in [Standby] and goes through. *)
Lemma Offer_run env signal w w1 p c :
  routed env signal w = Some (p, c, w1) ->
  Action signal = Offer ->
  state c = Standby ->
  goesThrough env c true ->
  let c1 := attachedReceiver env signal (called signal c) in
  httpHandleSDP env (inr signal) w =
    mkRun (Done tt) (update w1 p (accepted env signal c1))
      ([Log ["incoming call from "; Origin signal]; answering env w c1]
       ++ (candidateRequest w c1 <$> pendingCandidates c)).
Proof.
  intros Hr HA E Hgo c1.
  destruct (httpHandleSDP_routed _ _ _ _ _ _ Hr) as (-> & H & Hla).
  rewrite (handleSignal_Offer _ _ _ _ _ HA H E). fold (called signal c).
  fold c1.
  destruct (attachedReceiver_fields env signal (called signal c))
    as (Es & Ea & Ep & _). fold c1 in Es, Ea, Ep.
  unfold called in Es, Ea, Ep. fields.
  erewrite applyRemoteSDP_run; [|derefs|].
  2:{ rewrite Es, bool_decide_eq_true_2 by done.
      destruct Hgo as (G1 & G2 & G3). split_and!; try done. by rewrite Ep. }
  rewrite after_mkRun, (update_update _ _ _ _ _ H).
  rewrite decide_True by done. rewrite Ep.
  f_equal. cbn [app].
  replace (answering env (update w1 p c1) c1) with (answering env w c1)
    by (unfold answering; by rewrite rtcpeer_update, Hla).
  do 2 f_equal.
  apply list_fmap_ext. intros i x _. unfold candidateRequest.
  by rewrite rtcpeer_update, Hla.
Qed.

(** An answer that finds its connection [Ringing] and goes through. *)
Lemma Answer_run env signal w p c :
  Connections (rtcpeer w) !! Origin signal = Some p ->
  deref w p = Some c ->
  Action signal = Answer ->
  state c = Ringing ->
  goesThrough env c false ->
  let c1 := attachedReceiver env signal c in
  httpHandleSDP env (inr signal) w =
    mkRun (Done tt) (update w p (accepted env signal c1))
      (Log ["answer from "; remoteAddr c]
       :: (candidateRequest w c <$> pendingCandidates c)).
Proof.
  intros Hreg H HA E Hgo c1.
  rewrite (httpHandleSDP_found _ _ _ _ Hreg).
  rewrite (handleSignal_Answer _ _ _ _ _ HA H E). fold c1.
  destruct (attachedReceiver_fields env signal c) as (Es & Ea & Ep & _).
  fold c1 in Es, Ea, Ep.
  erewrite applyRemoteSDP_run; [|derefs|].
  2:{ rewrite Es, bool_decide_eq_false_2 by (rewrite E; done).
      destruct Hgo as (G1 & G2 & G3). split_and!; try done. by rewrite Ep. }
  rewrite after_mkRun, (update_update _ _ _ _ _ H).
  rewrite decide_False by (rewrite Es, E; done). rewrite Ep.
  f_equal. cbn [app]. f_equal.
  apply list_fmap_ext. intros i x _. unfold candidateRequest.
  by rewrite rtcpeer_update, Ea.
Qed.

Lemma accepted_fields env signal c :
  let c' := accepted env signal c in
  state c' = InCall /\ dataChan c' = dataChan c /\
  remoteAddr c' = remoteAddr c /\
  pendingCandidates c' = pendingCandidates c /\
  remoteDescription (peer c') = Some (SDP signal) /\
  mode c' = mode c /\ isInitiator c' = isInitiator c /\
  localDescription (peer c') =
    (if decide (state c = Answering) then Some (answered env)
     else localDescription (peer c)).
Proof. unfold accepted. by destruct (decide (state c = Answering)). Qed.

(** ** Messages *)





Lemma handleDataChanClose_run env p c d w :
  deref w p = Some c ->
  dataChan c = Some d ->
  let c1 := set_dataChan None c in
  handleDataChanClose env p w =
    if decide (state c = Closed) then
      mkRun (Done tt) (update w p c1)
        [Log ["data channel"; label d; remoteAddr c; "closed"]]
    else
      mkRun (Done tt) (closed (update w p c1) p c1)
        (Log ["data channel"; label d; remoteAddr c; "closed"]
         :: closing p c1 ++
         match peerClose env p with
         | Some e =>
             [Log ["something happened while attempting to close connection:"; e]]
         | None => []
         end).
Proof.
  intros H Hd c1. unfold handleDataChanClose.
  erewrite bind_load by derefs. rewrite Hd.
  rewrite bind_log. erewrite bind_modify by derefs. fold c1.
  assert (H1 : deref (update w p c1) p = Some c1) by derefs.
  destruct (decide (state c = Closed)) as [E|E].
  - erewrite bind_done.
    2:{ rewrite (Close_run _ _ _ _ H1). by rewrite decide_True. }
    cbv beta iota. unfold ret. by rewrite !after_mkRun.
  - erewrite bind_Close; [|exact H1|done].
    destruct (peerClose env p); unfold ret, logPrintln, emit;
      by rewrite !after_mkRun, ?app_nil_r.
Qed.

(** X8. When the data channel reports that it closed, the connection is
    torn down without touching the channel again: the field is cleared, the
    connection is [Closed], the trace holds no close of the data channel, and,
    if the connection was open, the peer connection is closed and the entry
    under its [remoteAddr] goes. The channel being gone, a second such
    callback panics. *)
Theorem channel_closed_callback (env env' : Env) (p : ptr) (c : Connection)
  (d : DataChannel) (w : World) :
  deref w p = Some c ->
  dataChan c = Some d ->
  let r := handleDataChanClose env p w in
  result r = Done tt /\
  (exists c', deref (world r) p = Some c' /\
              dataChan c' = None /\ state c' = Closed) /\
  filter isClose (trace r) = (if decide (state c = Closed) then [] else [PeerClose p]) /\
  (state c ≠ Closed ->
   Connections (rtcpeer (world r)) !! remoteAddr c = None) /\
  handleDataChanClose env' p (world r) = mkRun (Panic nilDeref) (world r) [].
Proof.
  intros H Hd r. subst r.
  rewrite (handleDataChanClose_run _ _ _ _ _ H Hd).
  set (c1 := set_dataChan None c).
  assert (H1 : deref (update w p c1) p = Some c1) by derefs.
  destruct (decide (state c = Closed)) as [E|E]; cbn [result world trace].
  - split_and!; try done.
    + exists c1. by rewrite H1.
    + unfold handleDataChanClose. by erewrite bind_load by derefs.
  - assert (H2 : deref (closed (update w p c1) p c1) p
                 = Some (set_state Closed c1)) by (by apply deref_closed).
    split_and!.
    + done.
    + exists (set_state Closed c1). by rewrite H2.
    + unfold closing. cbn [dataChan c1 set_dataChan].
      rewrite filter_cons_False by (intros []).
      by destruct (peerClose env p).
    + intros _. unfold closed.
      rewrite Connections_unregister. apply lookup_delete_eq.
    + unfold handleDataChanClose. by erewrite bind_load by derefs.
Qed.

(** The statement at Alice's connection in a call with Bob. *)
Lemma channel_closed_callback_witness :
  let c := mkConnection (mkPeerConnection (Some "answer-sdp") (Some "offer-sdp") 0 0 false)
             bob true TextConnection InCall ["candidate-1"; "candidate-2"]
             (Some (mkDataChannel "data")) None in
  let r := handleDataChanClose allGood (addr 0) aliceInCall in
  (deref aliceInCall (addr 0) = Some c /\
   dataChan c = Some (mkDataChannel "data")) /\
  result r = Done tt /\
  filter isClose (trace r) = [PeerClose (addr 0)] /\
  handleDataChanClose unreachable (addr 0) (world r)
    = mkRun (Panic nilDeref) (world r) [].
Proof.
  intros c r.
  assert (H : deref aliceInCall (addr 0) = Some c) by (vm_compute; reflexivity).
  split; [by split|].
  destruct (channel_closed_callback allGood unreachable (addr 0) c
              (mkDataChannel "data") aliceInCall H eq_refl)
    as (R1 & _ & R3 & _ & R5).
  split_and!; [exact R1|exact R3|exact R5].
Defined.

(** ** The registries of the scenarios *)

Lemma aliceInCall_registry :
  Connections (rtcpeer aliceInCall) = <[bob := addr 0]> ∅.
Proof. vm_compute. reflexivity. Qed.

Lemma aliceSurprised_registry :
  Connections (rtcpeer aliceSurprised) = <[mallory := addr 0]> ∅.
Proof. vm_compute. reflexivity. Qed.

(** ** [SendMsgToAll] *)


#[local] Instance inCall_dec w p : Decision (inCall w p).
Proof. unfold inCall. apply _. Defined.





(** ** [CloseAll] *)

Lemma CloseAll_forEach env w :
  CloseAll env w
    = forEach (map_to_list (Connections (rtcpeer w))) (closeEntry env) w.
Proof.
  unfold CloseAll, rangeConnections. unfold bind at 1.
  cbn [result world trace app]. apply run_eta.
Qed.

Lemma closeEntry_run env k p c w :
  deref w p = Some c ->
  closeEntry env (k, p) w =
    match Connections (rtcpeer w) !! k with
    | Some _ =>
        if decide (state c = Closed) then mkRun (Done tt) w []
        else mkRun (Done tt) (closed w p c)
               (closing p c ++
                match peerClose env p with
                | Some e => [Log ["unable to close peer"; k; "connection: "; e]]
                | None => []
                end)
    | None => mkRun (Done tt) w []
    end.
Proof.
  intros H. unfold closeEntry.
  destruct (Connections (rtcpeer w) !! k) as [q|] eqn:Hk.
  - rewrite (bind_mapLookup_Some _ _ _ _ Hk). cbv beta iota. cbn [negb].
    destruct (decide (state c = Closed)) as [E|E].
    + erewrite bind_done.
      2:{ rewrite (Close_run _ _ _ _ H). by rewrite decide_True. }
      by rewrite after_nil.
    + erewrite bind_Close by done.
      destruct (peerClose env p); [done|].
      unfold ret. by rewrite after_mkRun.
  - by rewrite (bind_mapLookup_None _ _ _ Hk).
Qed.

Lemma wanes_refl w : wanes w w.
Proof. by split_and!. Qed.

Lemma wanes_trans w1 w2 w3 : wanes w1 w2 -> wanes w2 w3 -> wanes w1 w3.
Proof.
  intros (L1 & R1 & C1) (L2 & R2 & C2). split_and!; eauto.
Qed.

Lemma closedAt_closed w p c q :
  deref w p = Some c -> (q = p \/ closedAt w q) -> closedAt (closed w p c) q.
Proof.
  intros H Hq. unfold closedAt, closed. rewrite deref_unregister.
  destruct (decide (p = q)) as [<-|Hne].
  - by erewrite deref_update by done.
  - rewrite (deref_update_ne _ _ _ _ Hne). by destruct Hq as [->|].
Qed.

Lemma live_closed w p c q : deref w p = Some c -> live w q -> live (closed w p c) q.
Proof.
  intros H Hq. unfold live, closed in *. rewrite deref_unregister.
  destruct (decide (p = q)) as [<-|Hne].
  - by erewrite deref_update by done.
  - by rewrite (deref_update_ne _ _ _ _ Hne).
Qed.

Lemma wanes_closed w p c : deref w p = Some c -> wanes w (closed w p c).
Proof.
  intros H. split_and!.
  - intros q. by apply live_closed.
  - intros k q. unfold closed.
    rewrite Connections_unregister, rtcpeer_update.
    intros Hk. by apply lookup_delete_Some in Hk as [_ Hk].
  - intros q Hq. apply closedAt_closed; auto.
Qed.

Lemma forEach_closeEntry env (l : list (string * ptr)) w :
  (forall k p, (k, p) ∈ l -> live w p) ->
  let r := forEach l (closeEntry env) w in
  result r = Done tt /\
  wanes w (world r) /\
  (forall k p, (k, p) ∈ l ->
     is_Some (Connections (rtcpeer (world r)) !! k) -> closedAt (world r) p).
Proof.
  revert w. induction l as [|[k p] l IH]; intros w Hlive.
  { split_and!; [done|apply wanes_refl|]. intros k p Hin. by inversion Hin. }
  destruct (Hlive k p) as [c Hc]; [by left|].
  cbn [forEach].
  assert (Hstep : exists w1 t,
    closeEntry env (k, p) w = mkRun (Done tt) w1 t /\ wanes w w1 /\
    (is_Some (Connections (rtcpeer w1) !! k) -> closedAt w1 p)).
  { rewrite (closeEntry_run _ _ _ _ _ Hc).
    destruct (Connections (rtcpeer w) !! k) as [q|] eqn:Hk.
    - destruct (decide (state c = Closed)) as [E|E].
      + eexists _, _. split_and!; [done|apply wanes_refl|].
        intros _. unfold closedAt. rewrite Hc. cbn. by rewrite E.
      + eexists _, _. split_and!; [done|by apply wanes_closed|].
        intros _. apply closedAt_closed; auto.
    - eexists _, _. split_and!; [done|apply wanes_refl|].
      rewrite Hk. by intros [? ?]. }
  destruct Hstep as (w1 & t & Hrun & Hw1 & Hk1).
  erewrite bind_done by exact Hrun.
  destruct (IH w1) as (IH1 & IH2 & IH3).
  { intros k' p' Hin. destruct Hw1 as (HL & _ & _).
    apply HL, (Hlive k' p'). by right. }
  cbn [result world after]. split_and!; [done|by eapply wanes_trans|].
  intros k' p' Hin Hsome. apply elem_of_cons in Hin as [[= -> ->]|Hin].
  - destruct IH2 as (_ & Hsub & Hcl). apply Hcl, Hk1.
    destruct Hsome as [q Hq]. exists q. by apply Hsub.
  - by apply (IH3 k').
Qed.

(** X10. [CloseAll], on a registry whose entries all point to objects, never
    panics and leaves every connection that is still registered [Closed]. It
    adds no entry, keeps every object, and a connection that was [Closed]
    stays so. *)
Theorem CloseAll_closes_what_stays (env : Env) (w : World) :
  validRegistry w ->
  let r := CloseAll env w in
  result r = Done tt /\
  (forall k p, Connections (rtcpeer (world r)) !! k = Some p ->
               closedAt (world r) p) /\
  wanes w (world r) /\
  validRegistry (world r).
Proof.
  intros Hvalid r. subst r. rewrite CloseAll_forEach.
  destruct (forEach_closeEntry env (map_to_list (Connections (rtcpeer w))) w)
    as (R1 & R2 & R3).
  { intros k p Hin. apply (Hvalid k). by apply elem_of_map_to_list. }
  split_and!; [done| |done|].
  - intros k p Hk. apply (R3 k); [|by exists p].
    apply elem_of_map_to_list. by apply R2.
  - intros k p Hk. destruct R2 as (Hlive & Hsub & _).
    apply Hlive, (Hvalid k). by apply Hsub.
Qed.

(** The statement at Alice's registry after an answer nobody asked for. *)
Lemma CloseAll_closes_what_stays_witness :
  let r := CloseAll allGood aliceSurprised in
  validRegistry aliceSurprised /\
  result r = Done tt /\
  (forall k p, Connections (rtcpeer (world r)) !! k = Some p ->
               closedAt (world r) p).
Proof.
  intros r.
  assert (Hvalid : validRegistry aliceSurprised).
  { intros k p Hk.
    rewrite aliceSurprised_registry in Hk. apply lookup_insert_Some in Hk as [[_ <-]|[_ Hk]];
      [|by rewrite lookup_empty in Hk].
    by eexists. }
  split; [exact Hvalid|].
  destruct (CloseAll_closes_what_stays allGood aliceSurprised Hvalid)
    as (R1 & R2 & _).
  by split.
Defined.

Lemma PeerClose_closing p c : PeerClose p ∈ closing p c.
Proof. unfold closing. apply elem_of_app. right. by left. Qed.

Lemma forEach_closeEntry_all env (l : list (string * ptr)) w :
  NoDup (l.*1) ->
  (forall k p, (k, p) ∈ l ->
     Connections (rtcpeer w) !! k = Some p /\
     exists c, deref w p = Some c /\ remoteAddr c = k /\ state c ≠ Closed) ->
  let r := forEach l (closeEntry env) w in
  result r = Done tt /\
  wanes w (world r) /\
  (forall k p, (k, p) ∈ l ->
     Connections (rtcpeer (world r)) !! k = None /\
     closedAt (world r) p /\ PeerClose p ∈ trace r).
Proof.
  revert w. induction l as [|[k p] l IH]; intros w Hnd Hall.
  { split_and!; [done|apply wanes_refl|]. intros k p Hin. by inversion Hin. }
  cbn [fmap list_fmap fst] in Hnd. apply NoDup_cons in Hnd as [Hk Hnd].
  destruct (Hall k p) as (Hreg & c & Hc & Ha & Hs); [by left|].
  cbn [forEach].
  erewrite bind_done.
  2:{ rewrite (closeEntry_run _ _ _ _ _ Hc), Hreg. by rewrite decide_False. }
  set (w1 := closed w p c).
  destruct (IH w1 Hnd) as (IH1 & IH2 & IH3).
  { intros k' p' Hin.
    destruct (Hall k' p') as (Hreg' & c' & Hc' & Ha' & Hs'); [by right|].
    assert (Hkk : k ≠ k').
    { intros <-. apply Hk. apply list_elem_of_fmap. by exists (k, p'). }
    assert (Hpp : p ≠ p').
    { intros <-. rewrite Hc in Hc'. injection Hc' as <-. congruence. }
    split.
    - unfold w1, closed. rewrite Connections_unregister, rtcpeer_update.
      rewrite Ha. by rewrite lookup_delete_ne.
    - exists c'. unfold w1, closed. rewrite deref_unregister.
      by rewrite (deref_update_ne _ _ _ _ Hpp). }
  cbn [result world trace after].
  split_and!; [done|eapply wanes_trans; [by apply wanes_closed|done]|].
  intros k' p' Hin. apply elem_of_cons in Hin as [[= -> ->]|Hin].
  - destruct IH2 as (_ & Hsub & Hcl). split_and!.
    + destruct (Connections (rtcpeer (world (forEach l (closeEntry env) w1))) !! k)
        as [q|] eqn:Hq; [|done].
      apply Hsub in Hq. unfold w1, closed in Hq.
      rewrite Connections_unregister, Ha, lookup_delete_eq in Hq. done.
    + apply Hcl. apply closedAt_closed; auto.
    + apply elem_of_app. left. apply elem_of_app. left. apply PeerClose_closing.
  - destruct (IH3 k' p' Hin) as (? & ? & ?). split_and!; [done..|].
    apply elem_of_app. by right.
Qed.

(** X11. On a registry in which every entry is under the address its
    connection records and every registered connection is open, [CloseAll]
    closes everything: it does not panic, the registry ends empty, and every
    connection that was registered is [Closed] with its peer connection
    closed. *)
Theorem CloseAll_empties_registry (env : Env) (w : World) :
  wellRegistered w ->
  let r := CloseAll env w in
  result r = Done tt /\
  Connections (rtcpeer (world r)) = ∅ /\
  (forall k p, Connections (rtcpeer w) !! k = Some p ->
     closedAt (world r) p /\ PeerClose p ∈ trace r).
Proof.
  intros Hwell r. subst r. rewrite CloseAll_forEach.
  destruct (forEach_closeEntry_all env (map_to_list (Connections (rtcpeer w))) w)
    as (R1 & R2 & R3).
  { apply NoDup_fst_map_to_list. }
  { intros k p Hin. apply elem_of_map_to_list in Hin. split; [done|].
    by apply Hwell. }
  split_and!; [done| |].
  - apply map_empty. intros k.
    destruct (Connections (rtcpeer (world _)) !! k) as [p|] eqn:Hk; [|done].
    destruct R2 as (_ & Hsub & _). apply Hsub in Hk as Hk0.
    apply elem_of_map_to_list in Hk0. destruct (R3 k p Hk0) as (Hnone & _).
    congruence.
  - intros k p Hk. apply elem_of_map_to_list in Hk.
    by destruct (R3 k p Hk) as (_ & ? & ?).
Qed.

(** The statement at Alice's registry while she is in a call with Bob. *)
Lemma CloseAll_empties_registry_witness :
  let r := CloseAll allGood aliceInCall in
  wellRegistered aliceInCall /\
  result r = Done tt /\
  Connections (rtcpeer (world r)) = ∅.
Proof.
  intros r.
  assert (Hwell : wellRegistered aliceInCall).
  { intros k p Hk.
    rewrite aliceInCall_registry in Hk. apply lookup_insert_Some in Hk as [[<- <-]|[_ Hk]];
      [|by rewrite lookup_empty in Hk].
    eexists. split; [vm_compute; reflexivity|]. split; [reflexivity|discriminate]. }
  split; [exact Hwell|].
  destruct (CloseAll_empties_registry allGood aliceInCall Hwell) as (R1 & R2 & _).
  by split.
Defined.

(** ** The registry stays valid *)

Lemma live_update w p c q : live w q -> live (update w p c) q.
Proof.
  unfold live. intros Hq. destruct (decide (p = q)) as [<-|Hne].
  - destruct Hq as [x Hx]. by erewrite deref_update by done.
  - by rewrite (deref_update_ne _ _ _ _ Hne).
Qed.

Lemma tidy_ret p {A} (a : A) : tidy p (ret a).
Proof. by intros w. Qed.

Lemma tidy_panic p {A} e : tidy p (@panic A e).
Proof. by intros w. Qed.

Lemma tidy_emit p e : tidy p (emit e).
Proof. by intros w. Qed.

Lemma tidy_log p l : tidy p (logPrintln l).
Proof. by intros w. Qed.

Lemma tidy_getListenAddr p : tidy p getListenAddr.
Proof. by intros w. Qed.

Lemma tidy_mapLookup p k : tidy p (mapLookup k).
Proof. intros w. unfold mapLookup. by destruct (_ !! k). Qed.

Lemma tidy_load p q : tidy p (load q).
Proof.
  intros w. unfold load. destruct q as [|n]; [done|]. by destruct (heap w !! n).
Qed.

Lemma tidy_modify p q f : tidy p (modify q f).
Proof.
  intros w Hp Hv. unfold modify. destruct q as [|n]; [done|].
  destruct (heap w !! n) as [c|] eqn:Hc; [|done]. cbn [world].
  change (mkWorld (rtcpeer w) (<[n:=f c]> (heap w)))
    with (update w (addr n) (f c)).
  split.
  - intros k x Hk. rewrite rtcpeer_update in Hk. apply live_update. by eapply Hv.
  - intros x Hx. by apply live_update.
Qed.

Lemma tidy_mapStore n k : tidy (addr n) (mapStore k (addr n)).
Proof.
  intros w Hp Hv. specialize (Hp ltac:(done)). set (p := addr n) in *.
  unfold mapStore. cbn [world].
  change (mkWorld _ (heap w)) with (register w k p).
  split.
  - intros k' x. rewrite Connections_register. unfold live.
    rewrite deref_register. intros Hk.
    apply lookup_insert_Some in Hk as [[_ <-]|[_ Hk]]; [done|by eapply Hv].
  - intros x. unfold live. by rewrite deref_register.
Qed.

Lemma tidy_mapDelete p k : tidy p (mapDelete k).
Proof.
  intros w Hp Hv. unfold mapDelete. cbn [world].
  change (mkWorld _ (heap w)) with (unregister w k).
  split.
  - intros k' x. rewrite Connections_unregister. unfold live.
    rewrite deref_unregister. intros Hk.
    apply lookup_delete_Some in Hk as [_ Hk]. by eapply Hv.
  - intros x. unfold live. by rewrite deref_unregister.
Qed.

Lemma tidy_bind p {A B} (m : M A) (k : A -> M B) :
  tidy p m -> (forall a, tidy p (k a)) -> tidy p (bind m k).
Proof.
  intros Hm Hk w Hp Hv. unfold bind. destruct (Hm w Hp Hv) as [Hv1 Hl1].
  destruct (m w) as [[a|e] w' t]; cbn [result world trace] in *; [|done].
  destruct (Hk a w' (fun Hn => Hl1 _ (Hp Hn)) Hv1) as [Hv2 Hl2].
  split; [done|]. auto.
Qed.

Ltac tidies :=
  repeat first
    [ apply tidy_ret | apply tidy_panic | apply tidy_emit | apply tidy_log
    | apply tidy_getListenAddr | apply tidy_load | apply tidy_modify
    | apply tidy_mapLookup | apply tidy_mapStore | apply tidy_mapDelete
    | assumption
    | apply tidy_bind; [|intros ?]
    | match goal with
      | |- tidy _ (match ?x with _ => _ end) => destruct x
      end ].

Lemma tidy_Close p env q : tidy p (Close env q).
Proof. unfold Close, String_. tidies. Qed.

Lemma tidy_signalCandidate p env k q c : tidy p (signalCandidate env k q c).
Proof. unfold signalCandidate. tidies. Qed.

Lemma tidy_signalPending p env k q cs : tidy p (signalPending env k q cs).
Proof.
  revert k. induction cs as [|c cs IH]; intros k; cbn [signalPending].
  - tidies.
  - pose proof (tidy_signalCandidate p env k q c). pose proof (IH (S k)). tidies.
Qed.

Lemma tidy_handleICECandidate p env q c : tidy p (handleICECandidate env q c).
Proof.
  unfold handleICECandidate.
  destruct c as [c|]; [|tidies].
  pose proof (tidy_signalCandidate p env 0 q c). tidies.
Qed.

Lemma tidy_flushCandidates p env q : tidy p (flushCandidates env q).
Proof.
  unfold flushCandidates. apply tidy_bind; [tidies|intros c].
  apply tidy_bind; [apply tidy_signalPending|intros ?]. tidies.
Qed.

Lemma tidy_postSDP p env remote signal : tidy p (postSDP env remote signal).
Proof. unfold postSDP. tidies. Qed.

Lemma tidy_getAudio p env q : tidy p (getAudio env q).
Proof. unfold getAudio. tidies. Qed.

Lemma tidy_attachReceiver p env signal q : tidy p (attachReceiver env signal q).
Proof. unfold attachReceiver. pose proof (tidy_getAudio p env q). tidies. Qed.

Lemma tidy_applyRemoteSDP p env signal q : tidy p (applyRemoteSDP env signal q).
Proof.
  unfold applyRemoteSDP.
  pose proof (tidy_flushCandidates p env q).
  destruct (setRemoteDescription env).
  - apply tidy_bind; [tidies|intros ?]. apply tidy_bind; [tidies|intros ?].
    apply tidy_bind; [apply tidy_postSDP|intros ?]. tidies.
  - apply tidy_bind; [tidies|intros ?]. apply tidy_bind; [tidies|intros c].
    destruct (decide (state c = Answering)); [|done].
    apply tidy_bind; [tidies|intros ?].
    destruct (createAnswer env); [tidies|].
    apply tidy_bind; [apply tidy_postSDP|intros sent].
    destruct (negb sent); tidies.
Qed.

Lemma tidy_handleSignal p env signal q : tidy p (handleSignal env signal q).
Proof.
  unfold handleSignal.
  pose proof (tidy_attachReceiver p env signal q).
  pose proof (tidy_applyRemoteSDP p env signal q).
  tidies.
Qed.

Lemma tidy_handleConnectionStateChange p env q s :
  tidy p (handleConnectionStateChange env q s).
Proof.
  unfold handleConnectionStateChange. pose proof (tidy_Close p env q).
  destruct s; tidies.
Qed.

Lemma tidy_handleDataChanClose p env q : tidy p (handleDataChanClose env q).
Proof.
  unfold handleDataChanClose. pose proof (tidy_Close p env q). tidies.
Qed.

Lemma tidy_handleDataChanOpen p q : tidy p (handleDataChanOpen q).
Proof. unfold handleDataChanOpen. tidies. Qed.

Lemma tidy_handleDataChanMsg p q msg : tidy p (handleDataChanMsg q msg).
Proof. unfold handleDataChanMsg. tidies. Qed.

Lemma tidy_loadAudio p env q fname : tidy p (loadAudio env q fname).
Proof. unfold loadAudio. tidies. Qed.

Lemma tidy_HangUp p env remote : tidy p (HangUp env remote).
Proof.
  unfold HangUp. apply tidy_bind; [tidies|intros [conn ok]].
  destruct (negb ok); [tidies|]. pose proof (tidy_Close p env conn). tidies.
Qed.

Lemma tidy_forEach p {A} (l : list A) (body : A -> M unit) :
  (forall a, tidy p (body a)) -> tidy p (forEach l body).
Proof.
  intros Hb. induction l as [|a l IH]; cbn [forEach]; [tidies|].
  apply tidy_bind; [apply Hb|intros ?; apply IH].
Qed.

Lemma tidy_sendAudio_loop p env q g script :
  tidy p (sendAudio_loop env q g script).
Proof.
  revert g. induction script as [|o script IH]; intros g; cbn [sendAudio_loop].
  - tidies.
  - pose proof (tidy_Close p env q).
    apply tidy_bind; [tidies|intros c].
    destruct (decide (state c ≠ InCall)); [tidies|].
    destruct (audioSndr c) as [sndr|]; [|tidies].
    destruct (negb (ogg sndr)); [tidies|].
    apply tidy_bind; [tidies|intros ?].
    destruct o as [| |data granule write]; [tidies|tidies|].
    destruct (negb (track sndr)); [tidies|].
    apply tidy_bind; [tidies|intros ?].
    destruct write; [tidies|apply IH].
Qed.

Lemma tidy_saveToDisk_loop p env q script : tidy p (saveToDisk_loop env q script).
Proof.
  induction script as [|o script IH]; cbn [saveToDisk_loop].
  - tidies.
  - pose proof (tidy_Close p env q).
    apply tidy_bind; [tidies|intros c].
    destruct (decide (state c ≠ InCall)); [tidies|].
    apply tidy_bind; [tidies|intros ?].
    destruct o as [|packet write]; [tidies|].
    apply tidy_bind; [tidies|intros ?].
    destruct write; [tidies|apply IH].
Qed.

Lemma tidy_SendMsg p env q msg : tidy p (SendMsg env q msg).
Proof. unfold SendMsg. tidies. Qed.

Lemma tidy_closeEntry p env entry : tidy p (closeEntry env entry).
Proof.
  destruct entry as [k conn]. unfold closeEntry.
  apply tidy_bind; [tidies|intros [x ok]].
  destruct (negb ok); [tidies|]. pose proof (tidy_Close p env conn). tidies.
Qed.

Lemma tidy_CloseAll env : tidy nil (CloseAll env).
Proof.
  intros w Hp Hv. rewrite CloseAll_forEach.
  by apply (tidy_forEach nil _ _ (tidy_closeEntry nil env)).
Qed.

Lemma tidy_SendMsgToAll env msg : tidy nil (SendMsgToAll env msg).
Proof.
  intros w Hp Hv. unfold SendMsgToAll, rangeConnections. unfold bind at 1 2.
  cbn [result world trace].
  apply (tidy_forEach nil _ (fun '(_, conn) => SendMsg env conn msg)); [|done..].
  intros [k conn]. apply tidy_SendMsg.
Qed.

Lemma live_allocate w c q : live w q -> live (allocate w c) q.
Proof. intros [x Hx]. exists x. by apply deref_allocate. Qed.

Lemma validRegistry_allocate w c : validRegistry w -> validRegistry (allocate w c).
Proof. intros Hv k p Hk. apply live_allocate. by eapply Hv. Qed.

Lemma tidy_Ring env remote mode : tidy nil (Ring env remote mode).
Proof.
  intros w _ Hv. unfold Ring.
  destruct (Connections (rtcpeer w) !! remote) as [q|] eqn:Hreg.
  { rewrite (bind_mapLookup_Some _ _ _ _ Hreg). cbv beta iota. by run. }
  rewrite (bind_mapLookup_None _ _ _ Hreg). cbv beta iota.
  unfold newConnection.
  destruct (newPeerConnection env); [by run|].
  rewrite bind_assoc, bind_alloc, bind_ret. cbv beta iota.
  set (c0 := mkConnection _ _ _ _ _ _ _ _).
  set (p := addr (length (heap w))).
  pose proof (tidy_Close p env p) as HClose.
  pose proof (tidy_loadAudio p env p audioSource) as Hload.
  match goal with
  | |- validRegistry (world (?m ?w1)) /\ _ =>
      assert (Ht : tidy p m)
  end.
  { unfold Ring_fail. destruct mode; tidies. }
  destruct (Ht (allocate w c0)) as [Hv1 Hl1].
  - intros _. eexists. apply deref_allocate_new.
  - by apply validRegistry_allocate.
  - split; [done|]. intros q Hq. by apply Hl1, live_allocate.
Qed.

Lemma tidy_httpHandleSDP env body : tidy nil (httpHandleSDP env body).
Proof.
  intros w _ Hv. destruct body as [e|signal]; [done|].
  destruct (Connections (rtcpeer w) !! Origin signal) as [q|] eqn:Hreg.
  - rewrite (httpHandleSDP_found _ _ _ _ Hreg).
    by apply (tidy_handleSignal nil).
  - destruct (newPeerConnection env) as [e|] eqn:Hnew.
    + by rewrite (httpHandleSDP_not_created _ _ _ _ Hreg Hnew).
    + rewrite (httpHandleSDP_created _ _ _ Hreg Hnew).
      set (c0 := freshConnection (Mode signal)).
      set (p := addr (length (heap w))).
      assert (Hp : live (allocate w c0) p) by (eexists; apply deref_allocate_new).
      destruct (tidy_mapStore (length (heap w)) (Origin signal) (allocate w c0))
        as [Hv1 Hl1]; [done|by apply validRegistry_allocate|].
      destruct (tidy_handleSignal nil env signal p
                  (register (allocate w c0) (Origin signal) p)) as [Hv2 Hl2];
        [done|exact Hv1|].
      split; [done|]. intros q Hq. by apply Hl2, Hl1, live_allocate.
Qed.

Lemma tidy_parseCommand env cmd : tidy nil (parseCommand env cmd).
Proof.
  unfold parseCommand, index.
  repeat first
    [ apply tidy_Ring | apply tidy_HangUp | apply tidy_CloseAll
    | apply tidy_SendMsgToAll | apply tidy_SendMsg
    | apply tidy_ret | apply tidy_panic | apply tidy_emit | apply tidy_log
    | apply tidy_mapLookup
    | apply tidy_bind; [|intros ?]
    | match goal with
      | |- tidy _ (match ?x with _ => _ end) => destruct x
      end ].
Qed.

(** ** No panic in the handlers *)

Lemma safe_ret p {A} (a : A) : safe p (ret a).
Proof. intros w Hp. split; [by exists a|done]. Qed.

Lemma safe_emit p e : safe p (emit e).
Proof. intros w Hp. split; [by exists tt|done]. Qed.

Lemma safe_log p l : safe p (logPrintln l).
Proof. apply safe_emit. Qed.

Lemma safe_getListenAddr p : safe p getListenAddr.
Proof. intros w Hp. split; [by eexists|done]. Qed.

Lemma safe_load p : safe p (load p).
Proof.
  intros w [c Hc]. rewrite (load_run _ _ _ Hc). split; [by eexists|by exists c].
Qed.

Lemma safe_modify p f : safe p (modify p f).
Proof.
  intros w [c Hc]. rewrite (modify_run _ _ _ _ Hc).
  split; [by eexists|]. by apply live_update; exists c.
Qed.

Lemma safe_mapDelete p k : safe p (mapDelete k).
Proof.
  intros w Hp. split; [by eexists|]. unfold mapDelete. cbn [world].
  change (mkWorld _ (heap w)) with (unregister w k).
  unfold live. by rewrite deref_unregister.
Qed.

Lemma safe_bind p {A B} (m : M A) (k : A -> M B) :
  safe p m -> (forall a, safe p (k a)) -> safe p (bind m k).
Proof.
  intros Hm Hk w Hp. unfold bind. destruct (Hm w Hp) as [[a Ha] Hl].
  rewrite Ha. cbn [result world]. by apply Hk.
Qed.

Ltac safes :=
  repeat first
    [ apply safe_ret | apply safe_emit | apply safe_log
    | apply safe_getListenAddr | apply safe_load | apply safe_modify
    | apply safe_mapDelete
    | assumption
    | apply safe_bind; [|intros ?]
    | match goal with
      | |- safe _ (match ?x with _ => _ end) => destruct x
      end ].

Lemma safe_Close p env : safe p (Close env p).
Proof. unfold Close, String_. safes. Qed.

Lemma safe_signalCandidate p env k c : safe p (signalCandidate env k p c).
Proof. unfold signalCandidate. safes. Qed.

Lemma safe_signalPending p env k cs : safe p (signalPending env k p cs).
Proof.
  revert k. induction cs as [|c cs IH]; intros k; cbn [signalPending].
  - safes.
  - pose proof (safe_signalCandidate p env k c). pose proof (IH (S k)). safes.
Qed.

Lemma safe_flushCandidates p env : safe p (flushCandidates env p).
Proof.
  unfold flushCandidates. apply safe_bind; [safes|intros c].
  apply safe_bind; [apply safe_signalPending|intros ?]. safes.
Qed.

Lemma safe_postSDP p env remote signal : safe p (postSDP env remote signal).
Proof. unfold postSDP. safes. Qed.

Lemma safe_getAudio p env : safe p (getAudio env p).
Proof. unfold getAudio. safes. Qed.

Lemma safe_attachReceiver p env signal : safe p (attachReceiver env signal p).
Proof. unfold attachReceiver. pose proof (safe_getAudio p env). safes. Qed.

Lemma safe_applyRemoteSDP p env signal : safe p (applyRemoteSDP env signal p).
Proof.
  unfold applyRemoteSDP.
  pose proof (safe_flushCandidates p env).
  destruct (setRemoteDescription env).
  - apply safe_bind; [safes|intros ?]. apply safe_bind; [safes|intros ?].
    apply safe_bind; [apply safe_postSDP|intros ?]. safes.
  - apply safe_bind; [safes|intros ?]. apply safe_bind; [safes|intros c].
    destruct (decide (state c = Answering)); [|done].
    apply safe_bind; [safes|intros ?].
    destruct (createAnswer env); [safes|].
    apply safe_bind; [apply safe_postSDP|intros sent].
    destruct (negb sent); safes.
Qed.

Lemma safe_handleSignal p env signal : safe p (handleSignal env signal p).
Proof.
  unfold handleSignal.
  pose proof (safe_attachReceiver p env signal).
  pose proof (safe_applyRemoteSDP p env signal).
  safes.
Qed.

Lemma safe_handleConnectionStateChange p env s :
  safe p (handleConnectionStateChange env p s).
Proof.
  unfold handleConnectionStateChange. pose proof (safe_Close p env).
  destruct s; safes.
Qed.

Lemma done_tt (r : Run unit) : (exists a, result r = Done a) -> result r = Done tt.
Proof. by intros [[] ?]. Qed.

Lemma httpHandleSDP_no_panic env body w :
  validRegistry w -> result (httpHandleSDP env body w) = Done tt.
Proof.
  intros Hv. destruct body as [e|signal]; [done|].
  destruct (Connections (rtcpeer w) !! Origin signal) as [q|] eqn:Hreg.
  - rewrite (httpHandleSDP_found _ _ _ _ Hreg).
    apply done_tt. eapply safe_handleSignal. by eapply Hv.
  - destruct (newPeerConnection env) as [e|] eqn:Hnew.
    + by rewrite (httpHandleSDP_not_created _ _ _ _ Hreg Hnew).
    + rewrite (httpHandleSDP_created _ _ _ Hreg Hnew).
      apply done_tt. eapply safe_handleSignal.
      unfold live. rewrite deref_register. eexists. apply deref_allocate_new.
Qed.

Lemma httpHandleCandidate_no_panic env body w :
  validRegistry w -> result (httpHandleCandidate env body w) = Done tt.
Proof.
  intros Hv. destruct body as [e|signal]; [done|]. unfold httpHandleCandidate.
  destruct (Connections (rtcpeer w) !! CandidateOrigin signal) as [q|] eqn:Hreg.
  - rewrite (bind_mapLookup_Some _ _ _ _ Hreg). cbv beta iota. cbn [negb].
    destruct (Hv _ _ Hreg) as [c Hc]. erewrite bind_load by derefs.
    by destruct (addICECandidate env).
  - by rewrite (bind_mapLookup_None _ _ _ Hreg).
Qed.

Lemma HangUp_no_panic env remote w :
  validRegistry w -> result (HangUp env remote w) = Done tt.
Proof.
  intros Hv. unfold HangUp.
  destruct (Connections (rtcpeer w) !! remote) as [q|] eqn:Hreg.
  - rewrite (bind_mapLookup_Some _ _ _ _ Hreg). cbv beta iota. cbn [negb].
    destruct (Hv _ _ Hreg) as [c Hc].
    destruct (safe_Close q env w) as [[err Herr] _]; [by exists c|].
    unfold bind. rewrite Herr. by destruct err.
  - by rewrite (bind_mapLookup_None _ _ _ Hreg).
Qed.

Lemma Ring_no_panic env remote mode w :
  exists p, result (Ring env remote mode w) = Done p.
Proof.
  destruct (Connections (rtcpeer w) !! remote) as [q|] eqn:Hreg.
  - exists nil. by rewrite (Ring_taken _ _ _ _ _ Hreg).
  - destruct (dials env mode) eqn:Hd.
    + eexists. by rewrite (Ring_run _ _ _ _ Hreg Hd).
    + exists nil. by apply Ring_nil.
Qed.

Lemma validRegistry_new listen : validRegistry (newWorld listen).
Proof.
  intros k p Hk. unfold newWorld, NewRTCPeer in Hk.
  cbn [rtcpeer Connections] in Hk. by rewrite lookup_empty in Hk.
Qed.

Lemma validRegistry_step env w w' :
  validRegistry w -> step env w w' -> validRegistry w'.
Proof.
  intros Hv Hs.
  assert (Hnil : nil ≠ nil -> live w nil) by done.
  destruct Hs.
  - by apply (tidy_parseCommand _ _ w).
  - by apply (tidy_Ring _ _ _ w).
  - by apply (tidy_HangUp nil _ _ w).
  - by apply (tidy_CloseAll _ w).
  - by apply (tidy_SendMsgToAll _ _ w).
  - by apply (tidy_httpHandleSDP _ _ w).
  - by rewrite httpHandleCandidate_world.
  - by apply (tidy_handleICECandidate nil _ _ _ w).
  - by apply (tidy_handleConnectionStateChange nil _ _ _ w).
  - by apply (tidy_modify nil _ _ w).
  - by apply (tidy_handleDataChanClose nil _ _ w).
  - by apply (tidy_handleDataChanOpen nil _ w).
  - by apply (tidy_handleDataChanMsg nil _ _ w).
  - unfold sendAudio. rewrite bind_log. cbn [world after].
    by apply (tidy_sendAudio_loop nil _ _ 0%Z _ w).
  - match goal with
    | |- validRegistry (world (saveToDisk ?e ?q ?sc w)) =>
        assert (Ht : tidy nil (saveToDisk e q sc))
    end.
    { unfold saveToDisk.
      apply tidy_bind; [apply tidy_saveToDisk_loop|intros ?]. tidies. }
    by apply Ht.
Qed.

Lemma validRegistry_reachable listen w : reachable listen w -> validRegistry w.
Proof.
  induction 1 as [|env w w' _ IH Hs];
    [apply validRegistry_new|by eapply validRegistry_step].
Qed.

(** X12. Whatever sequence of commands, requests, callbacks and streaming
    loops a peer has run, and whatever the outside world answered, every entry
    of its registry points to a connection object; so the two signaling
    handlers, [HangUp] and [CloseAll] never dereference [nil] there: they
    return without a panic, as [Ring] does in any world. *)
Theorem reachable_registry_is_valid (listen : string) (w : World) :
  reachable listen w ->
  validRegistry w /\
  (forall env body, result (httpHandleSDP env body w) = Done tt) /\
  (forall env body, result (httpHandleCandidate env body w) = Done tt) /\
  (forall env remote, result (HangUp env remote w) = Done tt) /\
  (forall env, result (CloseAll env w) = Done tt) /\
  (forall env remote mode, exists p, result (Ring env remote mode w) = Done p).
Proof.
  intros Hr. pose proof (validRegistry_reachable _ _ Hr) as Hv.
  split_and!; [done|..].
  - intros. by apply httpHandleSDP_no_panic.
  - intros. by apply httpHandleCandidate_no_panic.
  - intros. by apply HangUp_no_panic.
  - intros env. rewrite CloseAll_forEach.
    destruct (forEach_closeEntry env (map_to_list (Connections (rtcpeer w))) w)
      as (R1 & _); [|done].
    intros k p Hin. apply (Hv k). by apply elem_of_map_to_list.
  - intros. apply Ring_no_panic.
Qed.

(** The statement for Alice after she dialed Bob, gathered two candidates
    and handled his answer. *)
Lemma reachable_registry_is_valid_witness :
  reachable alice aliceInCall /\
  validRegistry aliceInCall /\
  result (httpHandleSDP unreachable (inl "bad json") aliceInCall) = Done tt.
Proof.
  assert (Hr : reachable alice aliceInCall).
  { eapply reachable_step; [|apply (step_httpHandleSDP allGood _ (inr bobAnswers))].
    eapply reachable_step;
      [|apply (step_handleICECandidate allGood _ (addr 0) (Some "candidate-2"))].
    eapply reachable_step;
      [|apply (step_handleICECandidate allGood _ (addr 0) (Some "candidate-1"))].
    eapply reachable_step; [|apply (step_Ring allGood _ bob TextConnection)].
    apply reachable_new. }
  split; [exact Hr|].
  destruct (reachable_registry_is_valid alice aliceInCall Hr) as (Hv & Hsdp & _).
  split; [exact Hv|apply Hsdp].
Defined.

(** ** The console parser *)

Lemma substring_all s : String.substring 0 (String.length s) s = s.
Proof. induction s as [|c s IH]; [done|]. cbn. by rewrite IH. Qed.

Lemma cut_cons c s :
  cut " " (String c s) =
    if Ascii.ascii_dec space c then Some ("", s)
    else match cut " " s with
         | Some (before, after) => Some (String c before, after)
         | None => None
         end.
Proof.
  assert (Hp : String.prefix " " (String c s)
               = if Ascii.ascii_dec space c then true else false).
  { change (String.prefix " " (String c s))
      with (match Ascii.ascii_dec space c with
            | left _ => String.prefix "" s
            | right _ => false
            end).
    destruct (Ascii.ascii_dec space c); [by destruct s|done]. }
  change (cut " " (String c s)) with
    (if String.prefix " " (String c s)
     then Some ("", String.substring 1 (String.length s - 0) (String c s))
     else match cut " " s with
          | Some (before, after) => Some (String c before, after)
          | None => None
          end).
  rewrite Hp. destruct (Ascii.ascii_dec space c); [|done].
  rewrite Nat.sub_0_r. change (String.substring 1 (String.length s) (String c s))
    with (String.substring 0 (String.length s) s).
  by rewrite substring_all.
Qed.

Lemma not_space c : negb (Ascii.eqb c space) = true -> space ≠ c.
Proof.
  intros H <-. by rewrite Ascii.eqb_refl in H.
Qed.

Lemma cut_space_free a : spaceFree a = true -> cut " " a = None.
Proof.
  induction a as [|c a IH]; [done|]. cbn [spaceFree]. intros H.
  apply andb_prop in H as [Hc Ha]. rewrite cut_cons.
  destruct (Ascii.ascii_dec space c) as [E|_]; [by apply not_space in Hc|].
  by rewrite (IH Ha).
Qed.

Lemma cut_first_space a rest :
  spaceFree a = true -> cut " " (a +:+ String space rest) = Some (a, rest).
Proof.
  induction a as [|c a IH]; intros H.
  - change ("" +:+ String space rest) with (String space rest).
    rewrite cut_cons. by destruct (Ascii.ascii_dec space space).
  - cbn [spaceFree] in H. apply andb_prop in H as [Hc Ha].
    change (String c a +:+ String space rest)
      with (String c (a +:+ String space rest)).
    rewrite cut_cons.
    destruct (Ascii.ascii_dec space c) as [E|_]; [by apply not_space in Hc|].
    by rewrite (IH Ha).
Qed.

Lemma SplitN_two c a :
  spaceFree c = true -> spaceFree a = true ->
  SplitN (c +:+ String space a) " " 3 = [c; a].
Proof.
  intros Hc Ha. cbn [SplitN]. rewrite (cut_first_space _ _ Hc).
  by rewrite (cut_space_free _ Ha).
Qed.

Lemma SplitN_three c a text :
  spaceFree c = true -> spaceFree a = true ->
  SplitN (c +:+ String space (a +:+ String space text)) " " 3 = [c; a; text].
Proof.
  intros Hc Ha. cbn [SplitN]. rewrite (cut_first_space _ _ Hc).
  by rewrite (cut_first_space _ _ Ha).
Qed.

Lemma SplitN_one c : spaceFree c = true -> SplitN c " " 3 = [c].
Proof. intros Hc. cbn [SplitN]. by rewrite (cut_space_free _ Hc). Qed.

(** The first word of a text that does not begin with a slash does not
    either. *)
Lemma SplitN_plain cmd :
  plain cmd = true ->
  exists a0 rest, SplitN cmd " " 3 = a0 :: rest /\ plain a0 = true.
Proof.
  intros Hp. cbn [SplitN].
  destruct cmd as [|c cmd].
  { by eexists _, _. }
  rewrite cut_cons.
  destruct (Ascii.ascii_dec space c) as [E|_].
  { by eexists _, _. }
  destruct (cut " " cmd) as [[before after]|].
  - destruct (cut " " after) as [[? ?]|]; by eexists _, _.
  - by eexists _, _.
Qed.

Lemma parseCommand_plain env cmd w :
  plain cmd = true -> parseCommand env cmd w = SendMsgToAll env cmd w.
Proof.
  intros Hp. destruct (SplitN_plain _ Hp) as (a0 & rest & Hs & Ha).
  unfold parseCommand, index. rewrite Hs. cbn [lookup list_lookup].
  rewrite bind_ret.
  destruct a0 as [|c a0]; [by rewrite !decide_False by done|].
  cbn [plain] in Ha.
  assert (Hc : c ≠ slash).
  { intros ->. by cbn in Ha. }
  rewrite !decide_False; try done; intros [= ? ?]; done.
Qed.

(** X13. The console parser takes the first word of the line as the command
    and the second as the address. For an address without a space, [/chat a]
    dials it in text mode, [/call a] dials it in one-way voice mode and
    [/end a] hangs it up; [/msg a text] to an address that has an entry hands
    the whole line, command and address included, to [SendMsg]. A command
    given without an address only logs a diagnostic, and a line that does not
    begin with a slash goes to every connection. *)
Theorem parseCommand_dispatches (env : Env) (a text : string) (w : World) :
  spaceFree a = true ->
  parseCommand env ("/chat " +:+ a) w
    = bind (Ring env a TextConnection) (fun _ => ret tt) w /\
  parseCommand env ("/call " +:+ a) w
    = bind (Ring env a VoiceConnectionSimplex) (fun _ => ret tt) w /\
  parseCommand env ("/end " +:+ a) w = HangUp env a w /\
  (forall p, Connections (rtcpeer w) !! a = Some p ->
     parseCommand env ("/msg " +:+ a +:+ " " +:+ text) w
       = SendMsg env p ("/msg " +:+ a +:+ " " +:+ text) w) /\
  parseCommand env "/chat" w = mkRun (Done tt) w [Log ["remote address missing"]] /\
  parseCommand env "/call" w = mkRun (Done tt) w [Log ["remote address missing"]] /\
  parseCommand env "/end" w = mkRun (Done tt) w [Log ["specify whom"]] /\
  parseCommand env "/msg" w = mkRun (Done tt) w [Log ["specify whom"]] /\
  (plain text = true -> parseCommand env text w = SendMsgToAll env text w).
Proof.
  intros Ha. split_and!.
  - unfold parseCommand, index.
    change ("/chat " +:+ a) with ("/chat" +:+ String space a).
    rewrite SplitN_two by done. cbn [lookup list_lookup length]. rewrite bind_ret.
    rewrite decide_False by done. rewrite decide_True by done.
    rewrite decide_False by lia. by rewrite bind_ret.
  - unfold parseCommand, index.
    change ("/call " +:+ a) with ("/call" +:+ String space a).
    rewrite SplitN_two by done. cbn [lookup list_lookup length]. rewrite bind_ret.
    rewrite 2!decide_False by done. rewrite decide_True by done.
    rewrite decide_False by lia. by rewrite bind_ret.
  - unfold parseCommand, index.
    change ("/end " +:+ a) with ("/end" +:+ String space a).
    rewrite SplitN_two by done. cbn [lookup list_lookup length]. rewrite bind_ret.
    rewrite 3!decide_False by done. rewrite decide_True by done.
    rewrite decide_False by lia. by rewrite bind_ret.
  - intros p Hp. unfold parseCommand, index.
    change ("/msg " +:+ a +:+ " " +:+ text)
      with ("/msg" +:+ String space (a +:+ String space text)).
    rewrite SplitN_three by done. cbn [lookup list_lookup length]. rewrite bind_ret.
    rewrite 4!decide_False by done. rewrite decide_True by done.
    rewrite decide_False by lia. rewrite bind_ret.
    rewrite (bind_mapLookup_Some _ _ _ _ Hp). cbv beta iota. cbn [negb].
    by rewrite bind_ret.
  - done.
  - done.
  - done.
  - done.
  - apply parseCommand_plain.
Qed.

(** The statement for Alice's console while she is in a call with Bob. *)
Lemma parseCommand_dispatches_witness :
  spaceFree bob = true /\
  parseCommand allGood ("/end " +:+ bob) aliceInCall = HangUp allGood bob aliceInCall /\
  parseCommand allGood ("/msg " +:+ bob +:+ " " +:+ "see you") aliceInCall
    = SendMsg allGood (addr 0) ("/msg " +:+ bob +:+ " " +:+ "see you") aliceInCall.
Proof.
  split; [reflexivity|].
  destruct (parseCommand_dispatches allGood bob "see you" aliceInCall eq_refl)
    as (_ & _ & Hend & Hmsg & _).
  split; [exact Hend|]. apply Hmsg.
  rewrite aliceInCall_registry. apply lookup_insert_eq.
Defined.

(** ** From dialing to the call *)

Lemma set_pendingCandidates_same c : set_pendingCandidates (pendingCandidates c) c = c.
Proof. by destruct c. Qed.

Lemma gather_run env p cs c w :
  deref w p = Some c ->
  remoteDescription (peer c) = None ->
  gather env p cs w =
    mkRun (Done tt)
      (update w p (set_pendingCandidates (pendingCandidates c ++ cs) c)) [].
Proof.
  unfold gather. revert c w. induction cs as [|x cs IH]; intros c w H Hd.
  - cbn [forEach]. rewrite app_nil_r, set_pendingCandidates_same.
    by rewrite (update_id _ _ _ H).
  - cbn [forEach]. erewrite bind_done.
    2:{ rewrite (handleICECandidate_run _ _ _ _ _ H). by rewrite Hd. }
    rewrite after_nil.
    erewrite IH; [|derefs|done].
    rewrite (update_update _ _ _ _ _ H). fields.
    by rewrite <- app_assoc.
Qed.

Lemma registered_at w k p :
  Connections (rtcpeer w) !! k = Some p -> registered w k = deref w p.
Proof. intros H. unfold registered. rewrite H. by destruct p. Qed.

Lemma posts_requests w c (cs : list ICECandidate) :
  filter isPost (candidateRequest w c <$> cs) = candidateRequest w c <$> cs.
Proof.
  induction cs as [|x cs IH]; [done|].
  cbn [fmap list_fmap]. rewrite filter_cons_True by done. by rewrite IH.
Qed.

(** X14. From dialing to the call, on the dialing side. After a [Ring]
    that went through, the candidates discovered while the call rings are
    buffered and nothing is posted. When the answer of the dialed address is
    then handled, its description applied and every candidate post accepted,
    the buffered candidates are posted in the order of their discovery, each
    once, and the connection registered under the dialed address is [InCall]
    with the answer as its remote description, still the initiator, in the
    mode it was dialed in. *)
Theorem dial_gather_answer (envR envC envA : Env) (remote : string)
  (dialMode : ConnectionMode) (cs : list ICECandidate) (answer : SignalSDP)
  (w : World) :
  Connections (rtcpeer w) !! remote = None ->
  dials envR dialMode = true ->
  Origin answer = remote ->
  Action answer = Answer ->
  setRemoteDescription envA = None ->
  (forall i, i < length cs -> candidatePost envA i = PostDone None) ->
  let w1 := world (Ring envR remote dialMode w) in
  let g := gather envC (addr (length (heap w))) cs w1 in
  let r := httpHandleSDP envA (inr answer) (world g) in
  (result g = Done tt /\ trace g = []) /\
  result r = Done tt /\
  candidatesPosted (trace r) = cs /\
  filter isPost (trace r)
    = (fun c => HttpPost (candidateURL remote)
                  (PayloadCandidate (mkSignalCandidate c (listenAddr (rtcpeer w)))))
      <$> cs /\
  exists c, registered (world r) remote = Some c /\
            state c = InCall /\
            remoteDescription (peer c) = Some (SDP answer) /\
            localDescription (peer c) = Some (offered envR) /\
            isInitiator c = true /\ mode c = dialMode /\
            remoteAddr c = remote.
Proof.
  intros Hreg Hd Ho HA Hset Hok w1 g r. subst r g w1.
  rewrite (Ring_run _ _ _ _ Hreg Hd). cbn [world].
  set (p := addr (length (heap w))).
  set (w1 := register _ _ _).
  assert (H1 : deref w1 p = Some (dialed envR remote dialMode)).
  { unfold w1. rewrite deref_register. apply deref_allocate_new. }
  erewrite gather_run; [|exact H1|done]. cbn [result world trace].
  split; [done|].
  set (c2 := set_pendingCandidates _ _).
  assert (H2 : deref (update w1 p c2) p = Some c2) by derefs.
  erewrite Answer_run; [| |exact H2|done|done|].
  2:{ rewrite rtcpeer_update. unfold w1.
      rewrite Connections_register, Ho. apply lookup_insert_eq. }
  2:{ split; [done|]. split; [done|]. exact Hok. }
  cbn [result world trace].
  rewrite (update_update _ _ _ _ _ H1).
  set (c3 := accepted envA answer _).
  destruct (accepted_fields envA answer (attachedReceiver envA answer c2))
    as (Es & _ & Ea & _ & Er & Em & Ei & El).
  fold c3 in Es, Ea, Er, Em, Ei, El.
  destruct (attachedReceiver_fields envA answer c2)
    as (Es' & Ea' & _ & _ & El' & Em' & Ei' & _).
  split_and!.
  - done.
  - unfold candidatesPosted. cbn [omap list_omap].
    fold (candidatesPosted (candidateRequest (update w1 p c2) c2 <$> cs)).
    apply candidatesPosted_requests.
  - rewrite filter_cons_False by (intros []).
    rewrite posts_requests.
    cbn [pendingCandidates c2 set_pendingCandidates dialed app].
    apply list_fmap_ext. intros i x _. unfold candidateRequest.
    by rewrite rtcpeer_update.
  - exists c3. rewrite (registered_at _ _ p).
    2:{ rewrite rtcpeer_update. unfold w1.
        rewrite Connections_register. apply lookup_insert_eq. }
    erewrite deref_update by done.
    split_and!; try done.
    + rewrite El, decide_False by (by rewrite Es'). by rewrite El'.
    + by rewrite Ei, Ei'.
    + by rewrite Em, Em'.
    + by rewrite Ea, Ea'.
Qed.

(** The statement for Alice dialing Bob, finding three candidates and
    handling his answer. *)
Lemma dial_gather_answer_witness :
  let cs := ["candidate-1"; "candidate-2"; "candidate-3"] in
  let w := newWorld alice in
  let w1 := world (Ring allGood bob VoiceConnectionDuplex w) in
  let g := gather unreachable (addr 0) cs w1 in
  let r := httpHandleSDP allGood (inr bobAnswers) (world g) in
  trace g = [] /\ result r = Done tt /\ candidatesPosted (trace r) = cs.
Proof.
  intros cs w w1 g r.
  destruct (dial_gather_answer allGood unreachable allGood bob
              VoiceConnectionDuplex cs bobAnswers w)
    as ((_ & Hg) & Hr & Hc & _); try reflexivity.
  by split_and!.
Defined.

(** ** A call between two peers *)

Lemma deliver_Log env l t w : deliver env (Log l :: t) w = deliver env t w.
Proof. unfold deliver. cbn [forEach serveHTTP]. by rewrite bind_ret. Qed.

Lemma deliver_SDP env self signal t w :
  listenAddr (rtcpeer w) = self ->
  deliver env (HttpPost (sdpURL self) (PayloadSDP signal) :: t) w
    = bind (httpHandleSDP env (inr signal)) (fun _ => deliver env t) w.
Proof.
  intros <-. unfold deliver. cbn [forEach serveHTTP]. rewrite bind_assoc.
  rewrite bind_getListenAddr. by rewrite decide_True.
Qed.

(** X15. A call between two peers. Alice dials Bob, who has no connection
    for her; the request she posts is served by Bob's listener, which creates
    the answering connection, answers and leaves it [InCall]. Meanwhile Alice
    discovers candidates, any number of them, and buffers them. The request
    Bob posts is then served by Alice's listener, which leaves her connection
    [InCall] and posts the candidates she buffered to Bob's [/candidate], in
    the order of their discovery, and no other request. Each side then has the
    other registered under the other's listen address, holds its own
    description as the local one and the other's as the remote one, in the
    mode Alice dialed, Alice as initiator and Bob not. *)
Theorem two_peers_get_in_call (envA envG envB envA' : Env) (wA wB : World)
  (dialMode : ConnectionMode) (cs : list ICECandidate) :
  let a := listenAddr (rtcpeer wA) in
  let b := listenAddr (rtcpeer wB) in
  Connections (rtcpeer wA) !! b = None ->
  Connections (rtcpeer wB) !! a = None ->
  dials envA dialMode = true ->
  newPeerConnection envB = None ->
  setRemoteDescription envB = None ->
  (exists sdp, createAnswer envB = inr sdp) ->
  delivered envB = true ->
  setLocalDescription envB = None ->
  setRemoteDescription envA' = None ->
  (forall i, i < length cs -> candidatePost envA' i = PostDone None) ->
  let rung := Ring envA b dialMode wA in
  let served := deliver envB (trace rung) wB in
  let gathered := gather envG (addr (length (heap wA))) cs (world rung) in
  let answered' := deliver envA' (trace served) (world gathered) in
  result served = Done tt /\
  (result gathered = Done tt /\ trace gathered = []) /\
  result answered' = Done tt /\
  filter isPost (trace answered')
    = (fun c => HttpPost (candidateURL b)
                  (PayloadCandidate (mkSignalCandidate c a))) <$> cs /\
  exists cA cB,
    registered (world answered') b = Some cA /\
    registered (world served) a = Some cB /\
    state cA = InCall /\ state cB = InCall /\
    isInitiator cA = true /\ isInitiator cB = false /\
    mode cA = dialMode /\ mode cB = dialMode /\
    remoteAddr cA = b /\ remoteAddr cB = a /\
    localDescription (peer cA) = Some (offered envA) /\
    remoteDescription (peer cB) = Some (offered envA) /\
    localDescription (peer cB) = Some (answered envB) /\
    remoteDescription (peer cA) = Some (answered envB).
Proof.
  intros a b HregA HregB Hd Hnew HsetB Hans Hdel Hloc HsetA Hposts
    rung served gathered answered'.
  subst answered' gathered served rung.
  rewrite (Ring_run _ _ _ _ HregA Hd). cbn [world trace].
  set (pA := addr (length (heap wA))).
  set (pB := addr (length (heap wB))).
  set (wA1 := register _ _ _).
  (* Bob serves the offer *)
  rewrite deliver_Log. unfold offering. fold b.
  set (offer := mkSignalSDP (offered envA) Offer dialMode _).
  rewrite (deliver_SDP _ b) by done.
  set (cB0 := freshConnection dialMode).
  set (wB1 := register (allocate wB cB0) a pB).
  assert (HrB : routed envB offer wB = Some (pB, cB0, wB1)).
  { unfold routed. cbn [Origin offer]. fold a. by rewrite HregB, Hnew. }
  assert (HgoB : goesThrough envB cB0 true).
  { split; [done|]. split; [done|]. intros i Hi. cbn in Hi. lia. }
  erewrite bind_done by (by apply (Offer_run _ _ _ _ _ _ HrB)).
  set (cB1 := attachedReceiver envB offer (called offer cB0)).
  set (cB2 := accepted envB offer cB1).
  destruct (attachedReceiver_fields envB offer (called offer cB0))
    as (EsB & EaB & EpB & ErB & ElB & EmB & EiB & _). fold cB1 in EsB, EaB, EpB, ErB, ElB, EmB, EiB.
  destruct (accepted_fields envB offer cB1)
    as (FsB & _ & FaB & _ & FrB & FmB & FiB & FlB).
  fold cB2 in FsB, FaB, FrB, FmB, FiB, FlB.
  unfold called in EsB, EaB, EmB, EiB. fields.
  cbn [pendingCandidates cB0 freshConnection fmap list_fmap app].
  change (deliver envB [] (update wB1 pB cB2))
    with (mkRun (Done tt) (update wB1 pB cB2) []).
  rewrite after_mkRun, app_nil_r. cbn [result world trace].
  (* Alice buffers her candidates *)
  assert (HA1 : deref wA1 pA = Some (dialed envA b dialMode)).
  { unfold wA1. rewrite deref_register. apply deref_allocate_new. }
  erewrite gather_run; [|exact HA1|done]. cbn [result world trace].
  set (cA0 := set_pendingCandidates _ _).
  assert (HA2 : deref (update wA1 pA cA0) pA = Some cA0) by derefs.
  (* Alice serves the answer *)
  rewrite deliver_Log. unfold answering. rewrite EaB.
  cbn [Origin offer]. fold a b.
  set (answer := mkSignalSDP (answered envB) Answer TextConnection b).
  rewrite (deliver_SDP _ a) by done.
  erewrite bind_done.
  2:{ apply (Answer_run _ answer _ pA cA0); [|exact HA2|done|done|].
      - rewrite rtcpeer_update. unfold wA1.
        rewrite Connections_register. apply lookup_insert_eq.
      - split; [done|]. split; [done|]. exact Hposts. }
  set (cA1 := attachedReceiver envA' answer cA0).
  set (cA2 := accepted envA' answer cA1).
  destruct (attachedReceiver_fields envA' answer cA0)
    as (EsA & EaA & EpA & ErA & ElA & EmA & EiA & _).
  fold cA1 in EsA, EaA, EpA, ErA, ElA, EmA, EiA.
  destruct (accepted_fields envA' answer cA1)
    as (FsA & _ & FaA & _ & FrA & FmA & FiA & FlA).
  fold cA2 in FsA, FaA, FrA, FmA, FiA, FlA.
  match goal with
  | |- context [deliver envA' [] ?w'] =>
      change (deliver envA' [] w') with (mkRun (Done tt) w' [])
  end.
  rewrite after_mkRun, app_nil_r. cbn [result world trace].
  rewrite (update_update _ _ _ _ _ HA1).
  split_and!; try done.
  - rewrite filter_cons_False by (intros []).
    rewrite posts_requests.
    cbn [pendingCandidates cA0 set_pendingCandidates dialed app].
    apply list_fmap_ext. intros i x _. unfold candidateRequest.
    by rewrite rtcpeer_update.
  - exists cA2, cB2.
    rewrite (registered_at _ _ pA).
    2:{ rewrite rtcpeer_update. unfold wA1.
        rewrite Connections_register. apply lookup_insert_eq. }
    rewrite (registered_at _ _ pB).
    2:{ rewrite rtcpeer_update. unfold wB1.
        rewrite Connections_register. apply lookup_insert_eq. }
    assert (HB1 : deref wB1 pB = Some cB0).
    { unfold wB1. rewrite deref_register. apply deref_allocate_new. }
    erewrite !deref_update by done.
    split_and!; try done.
    + by rewrite FiA, EiA.
    + by rewrite FiB, EiB.
    + by rewrite FmA, EmA.
    + by rewrite FmB, EmB.
    + by rewrite FaA, EaA.
    + by rewrite FaB, EaB.
    + rewrite FlA, decide_False by (by rewrite EsA). by rewrite ElA.
    + rewrite FlB, decide_True by (by rewrite EsB). done.
Qed.

(** The statement for Alice and Bob, both just started, in a one-way voice
    call, Alice discovering two candidates while the call rings. *)
Lemma two_peers_get_in_call_witness :
  let cs := ["candidate-1"; "candidate-2"] in
  let rung := Ring allGood bob VoiceConnectionSimplex (newWorld alice) in
  let served := deliver allGood (trace rung) (newWorld bob) in
  let gathered := gather unreachable (addr 0) cs (world rung) in
  let answered' := deliver allGood (trace served) (world gathered) in
  result served = Done tt /\
  result answered' = Done tt /\
  length (filter isPost (trace answered')) = 2.
Proof.
  intros cs rung served gathered answered'.
  destruct (two_peers_get_in_call allGood unreachable allGood allGood
              (newWorld alice) (newWorld bob) VoiceConnectionSimplex cs)
    as (R1 & _ & R2 & R3 & _); try reflexivity.
  - by exists "answer-sdp".
  - split; [exact R1|]. split; [exact R2|].
    exact (f_equal length R3).
Defined.

(** ** What the streaming loops hand on *)

Lemma sendAudio_loop_written env p c w sndr script g :
  deref w p = Some c -> state c = InCall ->
  audioSndr c = Some sndr -> ogg sndr = true -> track sndr = true ->
  samplesWritten (trace (sendAudio_loop env p g script w)) = pageData script.
Proof.
  intros H E Hs Ho Ht. revert g.
  induction script as [|o script IH]; intros g.
  - cbn [sendAudio_loop]. erewrite bind_load by derefs.
    rewrite decide_False; [done|]. intros Hn. by apply Hn.
  - destruct (pageFault o) eqn:Hf.
    + rewrite (sendAudio_loop_fault env p c w H E sndr Hs Ho Ht o script g Hf).
      cbn [trace]. unfold samplesWritten. rewrite omap_app.
      assert (Hc : omap (fun e => match e with
                                  | WriteSample _ data _ => Some data
                                  | _ => None
                                  end) (closing p c) = []).
      { unfold closing. by destruct (dataChan c). }
      rewrite Hc, app_nil_r.
      by destruct o as [|e|data granule [e|]].
    + destruct o as [| |data granule [|]]; try done.
      change (PageRead data granule None :: script)
        with ([PageRead data granule None] ++ script).
      rewrite (sendAudio_loop_streams env p c w H E sndr Hs Ho Ht
                 [PageRead data granule None] script g) by done.
      cbn [streamed granuleAfter after trace app].
      cbn [samplesWritten omap list_omap pageData].
      fold (samplesWritten (trace (sendAudio_loop env p granule script w))).
      by rewrite IH.
Qed.

Lemma saveToDisk_loop_written env p c w script :
  deref w p = Some c -> state c = InCall ->
  packetsWritten (trace (saveToDisk_loop env p script w)) = packetData script.
Proof.
  intros H E. induction script as [|o script IH].
  - cbn [saveToDisk_loop]. erewrite bind_load by derefs.
    rewrite decide_False; [done|]. intros Hn. by apply Hn.
  - destruct (packetFault o) eqn:Hf.
    + rewrite (saveToDisk_loop_fault env p c w H E o script Hf).
      cbn [trace]. unfold packetsWritten. rewrite omap_app.
      assert (Hc : omap (fun e => match e with
                                  | WriteRTP _ packet => Some packet
                                  | _ => None
                                  end) (closing p c) = []).
      { unfold closing. by destruct (dataChan c). }
      rewrite Hc, app_nil_r.
      by destruct o as [e|packet [e|]].
    + destruct o as [|packet [|]]; try done.
      change (PacketRead packet None :: script)
        with ([PacketRead packet None] ++ script).
      rewrite (saveToDisk_loop_saves env p c w H E
                 [PacketRead packet None] script) by done.
      cbn [saved after trace app].
      cbn [packetsWritten omap list_omap packetData].
      fold (packetsWritten (trace (saveToDisk_loop env p script w))).
      by rewrite IH.
Qed.

(** The deferred close of the writer writes no packet. *)
Lemma saveToDisk_written env p script w :
  packetsWritten (trace (saveToDisk env p script w))
    = packetsWritten (trace (saveToDisk_loop env p script w)).
Proof.
  unfold saveToDisk, bind.
  destruct (saveToDisk_loop env p script w) as [[[|]|e] w' t];
    cbn [result world trace]; [|by rewrite app_nil_r|done].
  unfold packetsWritten. rewrite omap_app.
  destruct (writerClose env); cbn; by rewrite app_nil_r.
Qed.

Lemma saved_keeps_writer p q packets : WriterClose q ∉ saved p packets.
Proof.
  induction packets as [|o packets IH]; [apply not_elem_of_nil|].
  destruct o as [e|packet write]; [apply not_elem_of_nil|].
  cbn [saved]. rewrite !not_elem_of_cons. by split_and!.
Qed.

(** X16. The streaming loops hand on what they read. Whatever the script of
    reads and writes, the data [sendAudio] writes to the track are the data of
    the pages it read, unchanged and in order, up to and including the page
    whose write failed, and the packets [saveToDisk] writes to the file are
    the packets it read from the remote track, likewise. While no read and no
    write fails, either loop keeps turning, leaves the world as it is and
    closes nothing, and [saveToDisk] keeps its writer open. [sendAudio] needs
    the audio sender of the connection loaded; [saveToDisk] needs nothing but
    the connection. *)
Theorem streams_hand_on_what_they_read (env : Env) (w : World) (p : ptr)
  (c : Connection) (pages : list PageOutcome) (packets : list PacketOutcome) :
  deref w p = Some c ->
  state c = InCall ->
  let sent := sendAudio env p pages w in
  let kept := saveToDisk env p packets w in
  ((exists sndr, audioSndr c = Some sndr /\ ogg sndr = true /\ track sndr = true) ->
   samplesWritten (trace sent) = pageData pages /\
   (forallb (fun o => negb (pageFault o)) pages = true ->
    result sent = Done Running /\ world sent = w /\
    filter isClose (trace sent) = [])) /\
  packetsWritten (trace kept) = packetData packets /\
  (forallb (fun o => negb (packetFault o)) packets = true ->
   result kept = Done Running /\ world kept = w /\
   filter isClose (trace kept) = [] /\ WriterClose p ∉ trace kept).
Proof.
  intros H E sent kept. subst sent kept. split_and!.
  - intros (sndr & Hs & Ho & Ht). split.
    + unfold sendAudio. rewrite bind_log. cbn [after trace app].
      cbn [samplesWritten omap list_omap].
      by apply (sendAudio_loop_written env p c w sndr).
    + intros Hgood. unfold sendAudio. rewrite bind_log.
      rewrite <- (app_nil_r pages).
      rewrite (sendAudio_loop_streams env p c w H E sndr Hs Ho Ht pages [] 0%Z Hgood).
      assert (Hend : sendAudio_loop env p (granuleAfter 0 pages) [] w
                     = mkRun (Done Running) w []).
      { cbn [sendAudio_loop]. erewrite bind_load by derefs.
        rewrite decide_False; [done|]. intros Hn. by apply Hn. }
      rewrite Hend, !after_mkRun, app_nil_r. cbn [result world trace].
      split_and!; try done.
      rewrite filter_app, filter_cons_False by (intros []).
      by destruct (reads_streamed p 0%Z pages Hgood) as [_ ->].
  - rewrite saveToDisk_written. by apply (saveToDisk_loop_written env p c).
  - intros Hgood.
    assert (Hrun : saveToDisk env p packets w
                   = mkRun (Done Running) w (saved p packets)).
    { assert (Hend : saveToDisk_loop env p [] w = mkRun (Done Running) w []).
      { cbn [saveToDisk_loop]. erewrite bind_load by derefs.
        rewrite decide_False; [done|]. intros Hn. by apply Hn. }
      pose proof (saveToDisk_loop_saves env p c w H E packets [] Hgood) as Hl.
      rewrite app_nil_r, Hend, after_mkRun, app_nil_r in Hl.
      unfold saveToDisk. rewrite (bind_done _ _ _ _ _ _ Hl).
      unfold ret. rewrite after_mkRun. by rewrite app_nil_r. }
    rewrite Hrun. cbn [result world trace].
    split_and!; try done.
    + by destruct (reads_saved p packets Hgood) as [_ ->].
    + apply saved_keeps_writer.
Qed.

(** The statement at the two ends of Alice's one-way voice call to Bob:
    Alice sends three pages, the last of which the track refuses; Bob keeps
    two packets. *)
Lemma streams_hand_on_what_they_read_witness :
  let pages := [PageRead "page-1" 960 None; PageRead "page-2" 1920 None;
                PageRead "page-3" 2880 (Some "io: closed pipe");
                PageRead "page-4" 3840 None] in
  let packets := [PacketRead "packet-1" None; PacketRead "packet-2" None] in
  samplesWritten (trace (sendAudio allGood (addr 0) pages aliceStreaming))
    = ["page-1"; "page-2"; "page-3"] /\
  packetsWritten (trace (saveToDisk allGood (addr 0) packets bobReceiving))
    = ["packet-1"; "packet-2"] /\
  result (saveToDisk allGood (addr 0) packets bobReceiving) = Done Running.
Proof.
  intros pages packets.
  assert (HA : exists c, deref aliceStreaming (addr 0) = Some c /\
                 state c = InCall /\
                 audioSndr c = Some (mkAudioSender true true true)).
  { eexists. split; [vm_compute; reflexivity|]. by split. }
  assert (HB : exists c, deref bobReceiving (addr 0) = Some c /\
                 state c = InCall /\ audioSndr c = None).
  { eexists. split; [vm_compute; reflexivity|]. by split. }
  destruct HA as (cA & HA & EA & HsA). destruct HB as (cB & HB & EB & _).
  split_and!.
  - destruct (streams_hand_on_what_they_read allGood aliceStreaming (addr 0)
                cA pages packets HA EA) as (Hsent & _).
    destruct Hsent as (Hdata & _).
    { exists (mkAudioSender true true true). by split_and!. }
    exact Hdata.
  - destruct (streams_hand_on_what_they_read allGood bobReceiving (addr 0)
                cB pages packets HB EB) as (_ & Hdata & _).
    exact Hdata.
  - destruct (streams_hand_on_what_they_read allGood bobReceiving (addr 0)
                cB pages packets HB EB) as (_ & _ & Hrun).
    destruct Hrun as (Hres & _); [reflexivity|]. exact Hres.
Defined.

(** ** Late callbacks of the data channel *)

(** X17. [Close] closes the data channel and keeps the field, the close
    callback of the channel clears it. So an open or message callback that
    still comes in after [Close] logs its line as before and changes nothing,
    while the same callback coming in after the channel's close callback
    panics on the [nil] channel. *)
Theorem late_channel_callbacks (env : Env) (p : ptr) (c : Connection)
  (d : DataChannel) (msg : string) (w : World) :
  deref w p = Some c ->
  dataChan c = Some d ->
  let hung := world (Close env p w) in
  let gone := world (handleDataChanClose env p w) in
  handleDataChanMsg p msg hung
    = mkRun (Done tt) hung [Log ["channel"; label d; remoteAddr c; msg]] /\
  handleDataChanOpen p hung
    = mkRun (Done tt) hung [Log ["data channel"; label d; remoteAddr c; "open"]] /\
  handleDataChanMsg p msg gone = mkRun (Panic nilDeref) gone [] /\
  handleDataChanOpen p gone = mkRun (Panic nilDeref) gone [].
Proof.
  intros H Hd hung gone.
  assert (Hh : exists c', deref hung p = Some c' /\ dataChan c' = Some d /\
                          remoteAddr c' = remoteAddr c).
  { subst hung. rewrite (Close_run _ _ _ _ H).
    destruct (decide (state c = Closed)); cbn [world].
    - by exists c.
    - exists (set_state Closed c). split; [by apply deref_closed|done]. }
  assert (Hg : exists c', deref gone p = Some c' /\ dataChan c' = None).
  { subst gone. rewrite (handleDataChanClose_run _ _ _ _ _ H Hd).
    destruct (decide (state c = Closed)); cbn [world].
    - exists (set_dataChan None c). split; [derefs|done].
    - exists (set_state Closed (set_dataChan None c)).
      split; [apply deref_closed; derefs|done]. }
  destruct Hh as (ch & Hch & Hdh & Hah). destruct Hg as (cg & Hcg & Hdg).
  unfold handleDataChanMsg, handleDataChanOpen.
  rewrite !(bind_load _ _ _ _ Hch), !(bind_load _ _ _ _ Hcg).
  by rewrite Hdh, Hdg, Hah.
Qed.

(** The statement at Alice's connection in a call with Bob. *)
Lemma late_channel_callbacks_witness :
  let hung := world (Close allGood (addr 0) aliceInCall) in
  let gone := world (handleDataChanClose allGood (addr 0) aliceInCall) in
  result (handleDataChanMsg (addr 0) "hello" hung) = Done tt /\
  result (handleDataChanMsg (addr 0) "hello" gone) = Panic nilDeref.
Proof.
  intros hung gone.
  assert (Hc : exists c, deref aliceInCall (addr 0) = Some c /\
                 dataChan c = Some (mkDataChannel "data")).
  { eexists. split; [vm_compute; reflexivity|]. done. }
  destruct Hc as (c & Hc & Hd).
  destruct (late_channel_callbacks allGood (addr 0) c (mkDataChannel "data")
              "hello" aliceInCall Hc Hd) as (H1 & _ & H3 & _).
  split; [exact (f_equal result H1)|exact (f_equal result H3)].
Defined.
